(** * Verification of [scripts/converter.py]

    A shallow embedding of the notebook-to-course compiler: syllabus
    parsing, unit splitting, cell classification, course tree building and
    the math-delimiter rewrite of the serializer.

    Python objects that are mutated through aliases (notebook cells) live
    in an explicit store; exceptions and store updates are threaded by a
    small state-and-error monad. Library calls whose behaviour the script
    does not define (the notebook reader, the HTML exporter, the XML
    parser and printer, date formatting, path joining) are fields of an
    environment record. *)

From Stdlib Require Import Ascii String DecimalString DecimalNat.
From stdpp Require Import ssreflect gmap strings list.

#[local] Set Warnings "-rewrite-rw,-register-all,-clear-no-such-hyp".

(** ** Strings and the regular expressions of the script *)

Module Str.

Definition newline : ascii := ascii_of_nat 10.

(** [s] without its prefix [p], when it starts with it. *)
Fixpoint strip_prefix (p s : string) : option string :=
  match p, s with
  | "", _ => Some s
  | String a p', String b s' =>
      if decide (a = b) then strip_prefix p' s' else None
  | String _ _, "" => None
  end.

(** [s.startswith(p)]. *)
Definition startswith (p s : string) : bool :=
  match strip_prefix p s with Some _ => true | None => false end.

(** [s.split(sep)] for a one-character separator. *)
Fixpoint split_on (sep : ascii) (s : string) : list string :=
  match s with
  | "" => [""]
  | String c s' =>
      if decide (c = sep) then "" :: split_on sep s'
      else match split_on sep s' with
           | [] => [String c ""]
           | l :: ls => String c l :: ls
           end
  end.

Definition split_lines (s : string) : list string := split_on newline s.

(** [s] without its suffix [suf], when it ends with it. *)
Fixpoint strip_suffix (suf s : string) : option string :=
  if decide (s = suf) then Some ""
  else match s with
       | "" => None
       | String c s' => String c <$> strip_suffix suf s'
       end.

(** Split at the last occurrence of [sep], as a greedy group followed by
    [sep] does. *)
Fixpoint rsplit (sep s : string) : option (string * string) :=
  match s with
  | "" => None
  | String c s' =>
      match rsplit sep s' with
      | Some (a, b) => Some (String c a, b)
      | None => match strip_prefix sep s with
                | Some b => Some ("", b)
                | None => None
                end
      end
  end.

(** Split at the first occurrence of [close] reachable without crossing
    a newline, as a lazy group followed by [close] does. *)
Fixpoint find_close (close s : string) : option (string * string) :=
  match strip_prefix close s with
  | Some r => Some ("", r)
  | None =>
      match s with
      | "" => None
      | String c s' =>
          if decide (c = newline) then None
          else match find_close close s' with
               | Some (g, r) => Some (String c g, r)
               | None => None
               end
      end
  end.

Fixpoint skip_spaces (s : string) : string :=
  match s with
  | String " " s' => skip_spaces s'
  | _ => s
  end.

End Str.

(** A matcher tries the pattern at the head of the text and returns the
    replacement text together with the unmatched remainder. *)
Definition matcher := string → option (string * string).

(** [re.sub]: leftmost, non-overlapping replacement. Every pattern of the
    script consumes at least one character, so [String.length s] steps
    always suffice. *)
Fixpoint re_sub_go (m : matcher) (fuel : nat) (s : string) : string :=
  match fuel with
  | O => s
  | S fuel' =>
      match s with
      | "" => ""
      | String c s' =>
          match m s with
          | Some (repl, rest) => repl +:+ re_sub_go m fuel' rest
          | None => String c (re_sub_go m fuel' s')
          end
      end
  end.

Definition re_sub (m : matcher) (s : string) : string :=
  re_sub_go m (String.length s) s.

(** The patterns for a begin-equation and an end-equation marker (the
    keyword, spaces, the word equation, spaces, a closing brace), replaced
    by an opening and a closing square-bracket delimiter. *)
Definition match_env (kw repl : string) : matcher := λ s,
  s1 ← Str.strip_prefix kw s;
  s2 ← Str.strip_prefix "equation" (Str.skip_spaces s1);
  s3 ← Str.strip_prefix "}" (Str.skip_spaces s2);
  Some (repl, s3).

Definition sub_begin_equation : string → string :=
  re_sub (match_env "\begin{" "\[").
Definition sub_end_equation : string → string :=
  re_sub (match_env "\end{" "\]").
Definition sub_equation (s : string) : string :=
  sub_end_equation (sub_begin_equation s).

(** Double-dollar and single-dollar math: the delimiter, a lazy group
    without newline, the delimiter again; the group is kept between the
    new delimiters. *)
Definition match_delim (delim opn cls : string) : matcher := λ s,
  s1 ← Str.strip_prefix delim s;
  '(g, rest) ← Str.find_close delim s1;
  Some (opn +:+ g +:+ cls, rest).

Definition sub_display_math : string → string :=
  re_sub (match_delim "$$" "\[" "\]").
Definition sub_inline_math : string → string :=
  re_sub (match_delim "$" "\(" "\)").

(** The textual pass of [save_xml] (lines 214-215). *)
Definition math_rewrite (text : string) : string :=
  sub_inline_math (sub_display_math text).

(** [re.split] on heading lines with MULTILINE: a heading is a whole
    line that starts with [# ]; the text in between, with its newlines,
    forms the other pieces. [cur] is the piece being accumulated and
    [first] tells whether a newline precedes the current line. *)
Definition is_heading (s : string) : bool := Str.startswith "# " s.

Fixpoint split_headings_go (cur : string) (first : bool) (lines : list string)
  : list string :=
  match lines with
  | [] => [cur]
  | l :: rest =>
      let cur' := if first then cur else cur +:+ String Str.newline "" in
      if is_heading l then cur' :: l :: split_headings_go "" false rest
      else split_headings_go (cur' +:+ l) false rest
  end.

Definition re_split_headings (s : string) : list string :=
  split_headings_go "" true (Str.split_lines s).

(** [re.match] of a heading and its group 1: without MULTILINE the
    dollar only matches at the end of the text or before a final
    newline. *)
Fixpoint until_newline (s : string) : string * string :=
  match s with
  | "" => ("", "")
  | String c s' =>
      if decide (c = Str.newline) then ("", s)
      else let '(a, b) := until_newline s' in (String c a, b)
  end.

Definition re_match_heading (s : string) : option string :=
  r ← Str.strip_prefix "# " s;
  let '(a, b) := until_newline r in
  if decide (b = "" ∨ b = String Str.newline "") then Some a else None.

(** The two syllabus patterns, tried on one line (a text without
    newline): a section line is star, space, two stars, the name, two
    stars; a subsection line is two spaces, star, space, the title in
    square brackets and the file name in parentheses. All groups are
    greedy. *)
Definition match_section (line : string) : option string :=
  r ← Str.strip_prefix "* **" line;
  Str.strip_suffix "**" r.

Definition match_subsection (line : string) : option (string * string) :=
  r ← Str.strip_prefix "  * [" line;
  inner ← Str.strip_suffix ")" r;
  Str.rsplit "](" inner.

(** [f"{i:02}"]: decimal, zero-padded to two characters. *)
Definition decimal (n : nat) : string :=
  NilEmpty.string_of_uint (Nat.to_uint n).

Definition fmt02 (n : nat) : string :=
  let s := decimal n in
  if decide (String.length s < 2) then "0" +:+ s else s.

(** ** Data model *)

(** One output of a code cell: only its [data] bundle (media type to
    payload) matters to the compiler; [None] is an output without one. *)
Record output := Output { output_data : option (gmap string string) }.

(** A notebook cell. [outputs] is [None] when the cell object has no such
    attribute. *)
Record cell := Cell {
  cell_type : string;
  source : string;
  outputs : option (list output);
  metadata : gmap string string;
}.

Definition set_source (c : cell) (src : string) : cell :=
  {| cell_type := cell_type c; source := src;
     outputs := outputs c; metadata := metadata c |}.

(** Cells are objects: units and batches hold references into the store. *)
Definition loc := nat.

(** A unit: the notebook made by [new_notebook], with its name and cells. *)
Record notebook := Notebook {
  nb_name : string;
  nb_cells : list loc;
}.

(** An element of [xml.etree.ElementTree]. *)
#[local] Unset Elimination Schemes.
Inductive element := Element {
  tag : string;
  attrib : gmap string string;
  text : string;
  children : list element;
}.
#[local] Set Elimination Schemes.

(** What [convert_unit] puts in its output list: an HTML text or a parsed
    component. *)
Inductive artifact :=
| Html (body : string)
| Component (xml : element).

(** A syllabus entry, [[name, date, [(title, filename), ...]]]. *)
Record entry := Entry {
  entry_name : string;
  entry_date : option string;
  entry_subsections : list (string * string);
}.

Record sequential := Sequential {
  seq_name : string;
  seq_date : option string;
  seq_url : string;
  seq_source_notebook : string;
}.

Record chapter := Chapter {
  ch_name : string;
  ch_date : option string;
  ch_url : string;
  ch_sequentials : list sequential;
}.

(** ** Effects *)

Inductive exn :=
| IndexError
| AttributeError
| TypeError
| RuntimeError (msg : string)
| OSError (path : string)
| ExportError
| XMLParseError
| ValueError
| DanglingReference.

(** Files written and the archive created, most recent last. *)
Inductive event :=
| WriteFile (path body : string)
| CreateArchive (path root : string).

Record world := World {
  heap : list cell;
  trace : list event;
}.

Definition M (A : Type) : Type := world → (exn + A) * world.

Global Instance M_ret : MRet M := λ A x w, (inr x, w).
Global Instance M_bind : MBind M := λ A B f m w,
  match m w with
  | (inl e, w') => (inl e, w')
  | (inr a, w') => f a w'
  end.

Definition raise {A} (e : exn) : M A := λ w, (inl e, w).

Definition lift_option {A} (e : exn) (o : option A) : M A :=
  match o with Some a => mret a | None => raise e end.

Definition alloc (c : cell) : M loc := λ w,
  (inr (length (heap w)), {| heap := heap w ++ [c]; trace := trace w |}).

Definition deref (l : loc) : M cell := λ w,
  match heap w !! l with
  | Some c => (inr c, w)
  | None => (inl DanglingReference, w)
  end.

Definition store (l : loc) (c : cell) : M () := λ w,
  (inr (), {| heap := <[l := c]> (heap w); trace := trace w |}).

Definition emit (ev : event) : M () := λ w,
  (inr (), {| heap := heap w; trace := trace w ++ [ev] |}).

(** A [for] loop whose body returns a value per item. *)
Fixpoint for_each {A B} (f : A → M B) (l : list A) : M (list B) :=
  match l with
  | [] => mret []
  | x :: l' => y ← f x; ys ← for_each f l'; mret (y :: ys)
  end.

(** The same with [enumerate], counting from [i]. *)
Fixpoint for_each_i {A B} (f : nat → A → M B) (i : nat) (l : list A)
  : M (list B) :=
  match l with
  | [] => mret []
  | x :: l' => y ← f i x; ys ← for_each_i f (S i) l'; mret (y :: ys)
  end.

(** ** Environment: the libraries and files around the script *)

Record env := Env {
  (** [nbformat.read(path, as_version=4)]: the cells of the document. *)
  read_cells : string → option (list cell);
  (** [HTMLExporter.from_notebook_node]: the body for a list of cells. *)
  export_html : list cell → option string;
  (** [ElementTree.fromstring]. *)
  fromstring : string → option element;
  (** [ElementTree.tostring] followed by minidom pretty printing, without
      its first line. *)
  prettify : element → string;
  (** The table read from the [release_dates] file. *)
  release_dates : gmap string string;
  (** [strptime] with day, month name and year, then [strftime] of that
      day at the given hour, shifted by some days. *)
  reformat_date : string → nat → nat → option string;
  (** [os.path.join]. *)
  path_join : string → string → string;
  (** The iframe page for an identifier. *)
  iframe_page : string → string;
  (** The working copy of the skeleton. *)
  dirpath : string;
  (** Text of [course.xml] in the skeleton. *)
  course_xml : option string;
}.

(** ** The script *)

Section Converter.

Context (E : env).

(** *** Unit splitter: [split_into_units] (lines 141-179) *)

(** The reader builds fresh cell objects on every call. *)
Definition nbformat_read (nb_name : string) : M (list loc) :=
  cells ← lift_option (OSError nb_name) (read_cells E nb_name);
  for_each alloc cells.

Fixpoint dropwhile_not_markdown (cells : list loc) : M (list loc) :=
  match cells with
  | [] => mret []
  | l :: rest =>
      c ← deref l;
      if decide (cell_type c ≠ "markdown") then dropwhile_not_markdown rest
      else mret cells
  end.

(** [NotebookNode(source=src, cell_type='markdown', metadata={})]. *)
Definition markdown_node (src : string) : cell :=
  {| cell_type := "markdown"; source := src;
     outputs := None; metadata := ∅ |}.

(** What the generator yields for one cell: the cell itself, or fresh
    markdown nodes for the pieces of its source. *)
Definition split_cell (l : loc) : M (list loc) :=
  c ← deref l;
  if decide (cell_type c ≠ "markdown") then mret [l]
  else for_each (λ src, alloc (markdown_node src))
                (re_split_headings (source c)).

Definition split_cells (nb : list loc) : M (list loc) :=
  cells ← dropwhile_not_markdown nb;
  yielded ← for_each split_cell cells;
  mret (concat yielded).

(** [units[-1].cells.append(cell)]. *)
Fixpoint append_to_last (l : loc) (units : list notebook) : list notebook :=
  match units with
  | [] => []
  | [u] => [{| nb_name := nb_name u; nb_cells := nb_cells u ++ [l] |}]
  | u :: us => u :: append_to_last l us
  end.

Fixpoint collect_units (include_header : bool) (cells : list loc)
    (units : list notebook) : M (list notebook) :=
  match cells with
  | [] => mret units
  | l :: rest =>
      c ← deref l;
      if bool_decide (cell_type c = "markdown")
         && Str.startswith "# " (source c)
      then
        name ← lift_option AttributeError (re_match_heading (source c));
        let unit := {| nb_name := name; nb_cells := [] |} in
        let units := units ++ [unit] in
        collect_units include_header rest
          (if include_header then append_to_last l units else units)
      else
        match units with
        | [] => collect_units include_header rest units
        | _ => collect_units include_header rest (append_to_last l units)
        end
  end.

Definition split_into_units (nb_name : string) (include_header : bool)
  : M (list notebook) :=
  nb ← nbformat_read nb_name;
  cells ← split_cells nb;
  collect_units include_header cells [].

(** *** Syllabus parser: [parse_syllabus] (lines 91-138) *)

Inductive syllabus_line :=
| SectionLine (name : string)
| SubsectionLine (title filename : string).

(** [re.match] of the alternation: the section pattern is tried first. *)
Definition match_syllabus_line (line : string) : option syllabus_line :=
  match match_section line with
  | Some name => Some (SectionLine name)
  | None =>
      match match_subsection line with
      | Some (title, filename) => Some (SubsectionLine title filename)
      | None => None
      end
  end.

(** [syllabus[-1][-1].append(sub)]; fails on the empty list. *)
Fixpoint append_subsection (sub : string * string) (syllabus : list entry)
  : option (list entry) :=
  match syllabus with
  | [] => None
  | [e] => Some [{| entry_name := entry_name e; entry_date := entry_date e;
                    entry_subsections := entry_subsections e ++ [sub] |}]
  | e :: es => cons e <$> append_subsection sub es
  end.

Fixpoint parse_lines (lines : list string) (syllabus : list entry)
  : exn + list entry :=
  match lines with
  | [] => inr syllabus
  | line :: rest =>
      match match_syllabus_line line with
      | None => parse_lines rest syllabus
      | Some (SectionLine name) =>
          parse_lines rest
            (syllabus ++ [{| entry_name := name;
                             entry_date := release_dates E !! name;
                             entry_subsections := [] |}])
      | Some (SubsectionLine name filename) =>
          match append_subsection (name, filename) syllabus with
          | None => inl IndexError
          | Some syllabus' => parse_lines rest syllabus'
          end
      end
  end.

Definition make_sequential (content_folder : string) (date : option string)
    (i j : nat) (subsection : string * string) : sequential :=
  {| seq_name := subsection.1;
     seq_date := date;
     seq_url := "subsec_" +:+ fmt02 i +:+ "_" +:+ fmt02 j;
     seq_source_notebook := content_folder +:+ "/" +:+ subsection.2 |}.

Definition make_chapter (content_folder : string) (i : nat) (section : entry)
  : chapter :=
  {| ch_name := entry_name section;
     ch_date := entry_date section;
     ch_url := "sec_" +:+ fmt02 i;
     ch_sequentials :=
       imap (make_sequential content_folder (entry_date section) i)
            (entry_subsections section) |}.

(** The loop over [enumerate(syllabus)] from index [i] on. *)
Fixpoint make_chapters (content_folder : string) (parse_all : bool)
    (i : nat) (syllabus : list entry) : list chapter :=
  match syllabus with
  | [] => []
  | section :: rest =>
      if negb parse_all && bool_decide (entry_date section = None)
      then make_chapters content_folder parse_all (S i) rest
      else make_chapter content_folder i section
             :: make_chapters content_folder parse_all (S i) rest
  end.

(** Lines 93-94, "loading raw syllabus": the second cell of the first
    unit. *)
Definition load_raw_syllabus (syllabus_file : string) : M cell :=
  units ← split_into_units syllabus_file true;
  syll ← lift_option IndexError (units !! 0);
  l ← lift_option IndexError (nb_cells syll !! 1);
  deref l.

Definition parse_syllabus (syllabus_file content_folder : string)
    (parse_all : bool) : M (list chapter) :=
  cell ← load_raw_syllabus syllabus_file;
  match parse_lines (Str.split_lines (source cell)) [] with
  | inl e => raise e
  | inr syllabus => mret (make_chapters content_folder parse_all 0 syllabus)
  end.

(** *** Cell classifier and renderer (lines 182-277) *)

(** [export_unit_to_html]: the exporter sees the cells as they are in
    the store at that moment. *)
Definition export_unit_to_html (cells : list loc) : M string :=
  cs ← for_each deref cells;
  body ← lift_option ExportError (export_html E cs);
  mret (sub_equation body).

(** The two assignments to [cell.source] of a markdown cell. *)
Definition rewrite_source (l : loc) : M () :=
  c ← deref l;
  if decide (cell_type c = "markdown")
  then store l (set_source c (sub_equation (source c)))
  else mret ().

Definition convert_normal_cells (normal_cells : list loc) : M string :=
  _ ← for_each rewrite_source normal_cells;
  export_unit_to_html normal_cells.

Definition olxml : string := "application/vnd.edx.olxml+xml".

(** [data and olxml in data], then [data[olxml]]. *)
Definition xml_component (o : output) : option string :=
  match output_data o with
  | Some data => if decide (data ≠ ∅) then data !! olxml else None
  | None => None
  end.

(** [if normal_cells: ... unit_output.append(html)]. *)
Definition flush (unit_output : list artifact) (normal_cells : list loc)
  : M (list artifact) :=
  match normal_cells with
  | [] => mret unit_output
  | _ => html ← convert_normal_cells normal_cells;
         mret (unit_output ++ [Html html])
  end.

Fixpoint convert_cells (cells : list loc) (unit_output : list artifact)
    (normal_cells : list loc) : M (list artifact) :=
  match cells with
  | [] => flush unit_output normal_cells
  | l :: rest =>
      c ← deref l;
      if decide (cell_type c = "markdown")
      then convert_cells rest unit_output (normal_cells ++ [l])
      else
        match outputs c with
        | None => convert_cells rest unit_output normal_cells
        | Some outs =>
            let xml_components := omap xml_component outs in
            match xml_components with
            | [] => convert_cells rest unit_output (normal_cells ++ [l])
            | first :: _ =>
                if decide (1 < length xml_components)
                then raise (RuntimeError "More than 1 xml component in a cell.")
                else
                  xml ← lift_option XMLParseError (fromstring E first);
                  unit_output ← flush unit_output normal_cells;
                  convert_cells rest (unit_output ++ [Component xml]) []
            end
        end
  end.

Definition convert_unit (unit : notebook) : M (list artifact) :=
  convert_cells (nb_cells unit) [] [].

(** *** Course tree builder and serializer (lines 211-216, 280-390) *)

Definition date_to_edx (date : option string) (add_days : nat) : M string :=
  match date with
  | None => raise TypeError
  | Some d => lift_option ValueError (reformat_date E d 10 add_days)
  end.

(** [save_html] and [save_xml] (lines 195-198 and 211-216): the file
    that is written is recorded. That the write itself or the pretty
    printer can fail is not modelled. *)
Definition save_html (body target_path : string) : M () :=
  emit (WriteFile target_path body).

Definition save_xml (xml : element) (path : string) : M () :=
  emit (WriteFile path (math_rewrite (prettify E xml))).

Definition set_attrib (k v : string) (e : element) : element :=
  {| tag := tag e; attrib := <[k := v]> (attrib e);
     text := text e; children := children e |}.

(** The body of the loop over [enumerate(unit_output)]. *)
Definition add_output (html_folder vertical_url display_name : string)
    (j : nat) (out : artifact) : M element :=
  let out_url := vertical_url +:+ "_out_" +:+ fmt02 j in
  match out with
  | Html body =>
      _ ← save_html body (path_join E html_folder (out_url +:+ ".html"));
      _ ← save_html (iframe_page E out_url)
            (path_join E (path_join E (dirpath E) "html")
                         (out_url +:+ ".html"));
      mret {| tag := "html";
              attrib := {[ "url_name" := out_url;
                           "display_name" := display_name;
                           "filename" := out_url ]};
              text := ""; children := [] |}
  | Component xml =>
      mret (if decide (attrib xml !! "url_name" = None)
            then set_attrib "url_name" out_url xml else xml)
  end.

(** The body of the loop over [enumerate(units)]. *)
Definition add_vertical (html_folder : string) (sequential : sequential)
    (i : nat) (unit : notebook) : M element :=
  let vertical_url := seq_url sequential +:+ "_" +:+ fmt02 i in
  unit_output ← convert_unit unit;
  outs ← for_each_i (add_output html_folder vertical_url (nb_name unit))
                    0 unit_output;
  mret {| tag := "vertical";
          attrib := {[ "url_name" := vertical_url;
                       "display_name" := nb_name unit ]};
          text := ""; children := outs |}.

Definition sequential_attrib (chapter : chapter) (sequential : sequential)
  : gmap string string :=
  let attrib : gmap string string :=
    {[ "url_name" := seq_url sequential;
       "display_name" := seq_name sequential;
       "graded" := if decide (ch_url chapter ≠ "sec_00")
                   then "true" else "false" ]} in
  if decide (seq_name sequential = "Assignments")
  then <["format" := "Research"]> attrib
  else if decide (ch_url chapter ≠ "sec_00")
       then <["format" := "Self-check"]> attrib
       else attrib.

(** The body of the loop over [chapter.sequentials]. *)
Definition add_sequential (html_folder : string) (chapter : chapter)
    (sequential : sequential) : M element :=
  units ← split_into_units (seq_source_notebook sequential) false;
  verticals ← for_each_i (add_vertical html_folder sequential) 0 units;
  mret {| tag := "sequential";
          attrib := sequential_attrib chapter sequential;
          text := ""; children := verticals |}.

(** The body of the loop over [data.chapters]. *)
Definition add_chapter (html_folder : string) (chapter : chapter)
  : M element :=
  start ← date_to_edx (ch_date chapter) 0;
  sequentials ← for_each (add_sequential html_folder chapter)
                         (ch_sequentials chapter);
  mret {| tag := "chapter";
          attrib := {[ "url_name" := ch_url chapter;
                       "display_name" := ch_name chapter;
                       "start" := start ]};
          text := ""; children := sequentials |}.

Definition build_chapters (html_folder : string) (chapters : list chapter)
  : M (list element) :=
  for_each (add_chapter html_folder) chapters.

(** [converter] (lines 280-390), from the reading of the syllabus (line
    304) to the archive (line 378). What comes before is left out: the
    copying of the figures (lines 286-296) and of the skeleton into the
    working copy (lines 298-302); and so is what comes after: the
    debugging options (lines 380-387), which copy the working copy and
    may open it, and the clean-up (line 390). These steps copy files of
    their own and can fail. The result is the course tree that was
    saved. *)
Definition converter (mooc_folder : string) (content_folder : option string)
  : M element :=
  let content_folder := default mooc_folder content_folder in
  let target := path_join E mooc_folder "generated" in
  let html_folder := path_join E target "html/edx" in
  let syllabus_nb := path_join E content_folder "syllabus.ipynb" in
  data ← parse_syllabus syllabus_nb content_folder false;
  let course_xml_path := path_join E (dirpath E) "course.xml" in
  course_text ← lift_option (OSError course_xml_path) (course_xml E);
  xml_course ← lift_option XMLParseError (fromstring E course_text);
  chapters ← build_chapters html_folder data;
  let xml_course :=
    {| tag := tag xml_course; attrib := attrib xml_course;
       text := text xml_course;
       children := children xml_course ++ chapters |} in
  _ ← save_xml xml_course course_xml_path;
  let tar_filepath := path_join E target "import_to_edx.tar.gz" in
  _ ← emit (CreateArchive tar_filepath (dirpath E));
  mret xml_course.

End Converter.

(** ** Notions used in the statements *)

(** Reading a decimal text back; leading zeros do not count. *)
Definition parse_nat (s : string) : option nat :=
  Nat.of_uint <$> NilEmpty.uint_of_string s.

(** The character [c] does not occur in [s]. *)
Fixpoint free_of (c : ascii) (s : string) : Prop :=
  match s with
  | "" => True
  | String a s' => a ≠ c ∧ free_of c s'
  end.

(** A matcher that never matches the empty text and leaves less text than
    it was given. *)
Definition consuming (m : matcher) : Prop :=
  ∀ s repl rest, m s = Some (repl, rest) → String.length rest < String.length s.

(** [evolves S w w']: from [w] to [w'] nothing was written or archived,
    no cell was created, and a cell differs at most in its source, and
    only when it is a markdown cell referenced in [S]. *)
Definition evolves (S : list loc) (w w' : world) : Prop :=
  trace w' = trace w
  ∧ length (heap w') = length (heap w)
  ∧ ∀ l c, heap w !! l = Some c →
      ∃ c', heap w' !! l = Some c'
            ∧ cell_type c' = cell_type c
            ∧ outputs c' = outputs c
            ∧ metadata c' = metadata c
            ∧ (cell_type c ≠ "markdown" ∨ l ∉ S → c' = c).

(** The cells behind a list of references. *)
Definition derefs (w : world) (ls : list loc) (cs : list cell) : Prop :=
  Forall2 (λ l c, heap w !! l = Some c) ls cs.

(** [extends w w']: cells were created, none was changed, and nothing was
    written. *)
Definition extends (w w' : world) : Prop :=
  trace w' = trace w ∧ ∃ new, heap w' = heap w ++ new.

(** [writes_only w w']: files were written but no archive was created. *)
Definition writes_only (w w' : world) : Prop :=
  ∃ evs, trace w' = trace w ++ evs
         ∧ Forall (λ ev, ∃ path body, ev = WriteFile path body) evs.

(** The blocks that the splitter walks over, as values: leading cells
    that are not markdown are dropped, and every markdown cell is cut at
    its heading lines. *)
Definition pieces (c : cell) : list cell :=
  if decide (cell_type c ≠ "markdown") then [c]
  else markdown_node <$> re_split_headings (source c).

Fixpoint skip_to_markdown (cs : list cell) : list cell :=
  match cs with
  | [] => []
  | c :: cs' =>
      if decide (cell_type c ≠ "markdown") then skip_to_markdown cs' else cs
  end.

Definition block_stream (cs : list cell) : list cell :=
  skip_to_markdown cs ≫= pieces.

Definition is_heading_block (c : cell) : bool :=
  bool_decide (cell_type c = "markdown") && Str.startswith "# " (source c).

(** The top-level heading lines of a document: the lines of its markdown
    cells that start with a hash and a space. *)
Definition heading_lines (cs : list cell) : list string :=
  c ← cs;
  if decide (cell_type c = "markdown")
  then filter (λ line, is_heading line = true) (Str.split_lines (source c))
  else [].

(** A block that carries more than one component. *)
Definition multiple_components (c : cell) : Prop :=
  cell_type c ≠ "markdown"
  ∧ ∃ outs, outputs c = Some outs ∧ 1 < length (omap xml_component outs).

(** The place of a node: section index, subsection index, unit index,
    artifact index. *)
Inductive position :=
| PChapter (i : nat)
| PSequential (i j : nat)
| PVertical (i j k : nat)
| POutput (i j k m : nat).

Definition position_id (p : position) : string :=
  match p with
  | PChapter i => "sec_" +:+ fmt02 i
  | PSequential i j => "subsec_" +:+ fmt02 i +:+ "_" +:+ fmt02 j
  | PVertical i j k =>
      ("subsec_" +:+ fmt02 i +:+ "_" +:+ fmt02 j) +:+ "_" +:+ fmt02 k
  | POutput i j k m =>
      (("subsec_" +:+ fmt02 i +:+ "_" +:+ fmt02 j) +:+ "_" +:+ fmt02 k)
      +:+ "_out_" +:+ fmt02 m
  end.








(** A section name with an entry in the release-date table. *)
Definition dated (E : env) (name : string) : Prop :=
  is_Some (release_dates E !! name).

Global Instance dated_dec E name : Decision (dated E name).
Proof. unfold dated. apply _. Defined.

(** ** A small course, for concrete runs *)

Module Sample.

Definition nl : string := String Str.newline "".

Fixpoint unlines (ls : list string) : string :=
  match ls with
  | [] => ""
  | [l] => l
  | l :: ls' => l +:+ nl +:+ unlines ls'
  end.

Definition md (src : string) : cell :=
  {| cell_type := "markdown"; source := src; outputs := None; metadata := ∅ |}.

Definition code (outs : list output) : cell :=
  {| cell_type := "code"; source := "plot()"; outputs := Some outs;
     metadata := ∅ |}.

(** An output that carries a component, and one that carries a picture. *)
Definition olx (payload : string) : output :=
  {| output_data := Some {[ olxml := payload ]} |}.

Definition png : output :=
  {| output_data := Some {[ "image/png" := "iVBOR" ]} |}.

Definition leaf (t : string) (a : gmap string string) : element :=
  {| tag := t; attrib := a; text := ""; children := [] |}.

(** A printer that shows tags and identifiers only. *)
Fixpoint show (e : element) : string :=
  match e with
  | Element t a _ cs =>
      "<" +:+ t +:+ " " +:+ default "" (a !! "url_name") +:+ ">"
      +:+ String.concat "" (map show cs) +:+ "</" +:+ t +:+ ">"
  end.

(** The libraries, replaced by tables and simple functions: documents and
    component texts are looked up, the exporter joins the sources. *)
Definition make_env (docs : list (string * list cell))
    (dates : list (string * string)) (xmls : list (string * element)) : env :=
  {| read_cells := λ path, (list_to_map docs : gmap string (list cell)) !! path;
     export_html := λ cs, Some (String.concat "" (source <$> cs));
     fromstring := λ s, (list_to_map xmls : gmap string element) !! s;
     prettify := show;
     release_dates := list_to_map dates;
     reformat_date := λ d _ _, Some d;
     path_join := λ a b, a +:+ "/" +:+ b;
     iframe_page := λ id, "iframe " +:+ id;
     dirpath := "tmp/course";
     course_xml := Some "<course/>" |}.

Definition empty_world : world := {| heap := []; trace := [] |}.

Definition syllabus_text : string :=
  unlines [ "# Syllabus"; "";
            "* **Introduction**";
            "  * [Welcome](w0/intro.ipynb)";
            "* **Week 1**";
            "  * [Topology](w1/topology.ipynb)";
            "  * [Assignments](w1/assignments.ipynb)" ].

Definition video : element := leaf "video" {[ "youtube" := "abc" ]}.
Definition named_video : element :=
  leaf "video" {[ "url_name" := "intro_video"; "youtube" := "abc" ]}.

Definition xml_table : list (string * element) :=
  [ ("<course/>", leaf "course" ∅);
    ("<video youtube='abc'/>", video);
    ("<video url_name='intro_video' youtube='abc'/>", named_video) ].

Definition course_docs : list (string * list cell) :=
  [ ("course/syllabus.ipynb", [md syllabus_text]);
    ("course/w0/intro.ipynb",
      [md (unlines ["# Welcome"; "Hello"]);
       code [olx "<video youtube='abc'/>"];
       md "Bye"]);
    ("course/w1/topology.ipynb",
      [md (unlines ["# Bands"; "Text $E$"; "# Gaps"]); code [png]]);
    ("course/w1/assignments.ipynb", [md "# Tasks"]) ].

(** The syllabus of the specification: "Introduction" has no date,
    "Week 1" is released on 3 Sep 2018. *)
Definition course : env :=
  make_env course_docs [("Week 1", "3 Sep 2018")] xml_table.

(** The same course with every section dated. *)
Definition dated_course : env :=
  make_env course_docs
    [("Introduction", "27 Aug 2018"); ("Week 1", "3 Sep 2018")] xml_table.

Definition course_entries : list entry :=
  [ {| entry_name := "Introduction"; entry_date := Some "27 Aug 2018";
       entry_subsections := [("Welcome", "w0/intro.ipynb")] |};
    {| entry_name := "Week 1"; entry_date := Some "3 Sep 2018";
       entry_subsections := [("Topology", "w1/topology.ipynb");
                             ("Assignments", "w1/assignments.ipynb")] |} ].

(** A course whose only document has a code cell with two components. *)
Definition short_syllabus : string :=
  unlines [ "# Syllabus"; "* **Week 1**"; "  * [Topology](w1/topology.ipynb)" ].

Definition two_components : cell :=
  code [olx "<video youtube='abc'/>"; olx "<video youtube='abc'/>"].

Definition broken_course : env :=
  make_env
    [ ("course/syllabus.ipynb", [md short_syllabus]);
      ("course/w1/topology.ipynb", [md "# Bands"; two_components]) ]
    [("Week 1", "3 Sep 2018")] xml_table.


End Sample.

(** ** Further notions: the syllabus read from its lines *)

(** The subsection of a line, when the line is a subsection line. *)
Definition subsection_of (line : string) : option (string * string) :=
  match match_syllabus_line line with
  | Some (SubsectionLine title filename) => Some (title, filename)
  | _ => None
  end.

(** The subsections listed right after a section line, up to the next
    section line. *)
Fixpoint leading_subsections (lines : list string) : list (string * string) :=
  match lines with
  | [] => []
  | line :: rest =>
      match match_syllabus_line line with
      | Some (SectionLine _) => []
      | Some (SubsectionLine title filename) =>
          (title, filename) :: leading_subsections rest
      | None => leading_subsections rest
      end
  end.

(** The syllabus as its text presents it: one entry per section line,
    dated by the table, with the subsections listed under it. *)
Fixpoint sections_of (E : env) (lines : list string) : list entry :=
  match lines with
  | [] => []
  | line :: rest =>
      match match_syllabus_line line with
      | Some (SectionLine name) =>
          {| entry_name := name;
             entry_date := release_dates E !! name;
             entry_subsections := leading_subsections rest |}
          :: sections_of E rest
      | _ => sections_of E rest
      end
  end.

(** ** Further notions: the units read from the block stream *)

(** The text of a heading line after its marker. *)
Definition heading_title (line : string) : string :=
  default "" (Str.strip_prefix "# " line).

(** The references of the blocks up to the next heading block. *)
Fixpoint body_blocks (blocks : list (loc * cell)) : list loc :=
  match blocks with
  | [] => []
  | (l, c) :: rest =>
      if is_heading_block c then [] else l :: body_blocks rest
  end.

(** The units as the stream presents them: one per heading block, named
    by its title, holding the blocks up to the next heading block. *)
Fixpoint units_of (include_header : bool) (blocks : list (loc * cell))
  : list notebook :=
  match blocks with
  | [] => []
  | (l, c) :: rest =>
      if is_heading_block c
      then {| nb_name := heading_title (source c);
              nb_cells := (if include_header then [l] else [])
                          ++ body_blocks rest |}
           :: units_of include_header rest
      else units_of include_header rest
  end.

(** The stream from its first heading block on. *)
Fixpoint from_first_heading {A} (heading : A → bool) (blocks : list A)
  : list A :=
  match blocks with
  | [] => []
  | b :: rest =>
      if heading b then blocks else from_first_heading heading rest
  end.

(** ** Further notions: what the classifier reads in a block *)

(** The component texts of a block: those of the outputs of a block that
    is not markdown and has outputs. *)
Definition cell_components (c : cell) : list string :=
  if decide (cell_type c = "markdown") then []
  else match outputs c with
       | Some outs => omap xml_component outs
       | None => []
       end.

Definition component_of (a : artifact) : option element :=
  match a with
  | Component xml => Some xml
  | Html _ => None
  end.

Definition is_html (a : artifact) : bool :=
  match a with
  | Html _ => true
  | Component _ => false
  end.

(** No two HTML texts follow each other. *)
Fixpoint pages_apart (out : list artifact) : bool :=
  match out with
  | [] => true
  | a :: rest =>
      negb (is_html a && from_option is_html false (head rest))
      && pages_apart rest
  end.

(** The references [ls] lead to cells with the types and outputs of
    [cs]; the sources may differ. *)
Definition resembles (w : world) (ls : list loc) (cs : list cell) : Prop :=
  Forall2 (λ l c, ∃ c', heap w !! l = Some c'
                        ∧ cell_type c' = cell_type c
                        ∧ outputs c' = outputs c) ls cs.

(** Every reference of [ls] leads to a cell. *)
Definition live (w : world) (ls : list loc) : Prop :=
  Forall (λ l, is_Some (heap w !! l)) ls.

(** ** File names: [make_filename_valid] (lines 190-192) *)

(** The characters of the class: slash, backslash, colon, dollar,
    percent, star, question mark, comma, double quote, angle brackets,
    bar and space. *)
Definition forbidden_chars : list ascii :=
  [ "/"; "\"; ":"; "$"; "%"; "*"; "?"; ","; ascii_of_nat 34;
    "<"; ">"; "|"; " " ]%char.

Definition match_forbidden : matcher := λ s,
  match s with
  | String c rest => if decide (c ∈ forbidden_chars) then Some ("", rest)
                     else None
  | "" => None
  end.

(** [re.sub] of the class by the empty text. *)
Definition make_filename_valid (s : string) : string :=
  re_sub match_forbidden s.

(** ** The state of the repository: [warn_about_status] (lines 393-403) *)

(** [p in s]. *)
Fixpoint contains (p s : string) : bool :=
  Str.startswith p s
  || match s with
     | "" => false
     | String _ s' => contains p s'
     end.

(** The two messages. *)
Inductive warning :=
| NotOnMaster
| FilesModified.

(** What is printed, given what [git status] and [git diff] answer: the
    first line of the status is searched for the branch, and the
    differences are looked at only on that branch. *)
Definition warn_about_status (status diff : string) : list warning :=
  let first := default "" (head (Str.split_lines status)) in
  if negb (contains "On branch master" first) then [NotOnMaster]
  else if decide (diff ≠ "") then [FilesModified]
  else [].

(** ** Further notions: dollars left in a text *)

(** No dollar of [s] has another dollar after it on its line. *)
Fixpoint dollars_unpaired (s : string) : Prop :=
  match s with
  | "" => True
  | String c s' =>
      (c = "$"%char → Str.find_close "$" s' = None) ∧ dollars_unpaired s'
  end.

(** ** Further notions: places where a pattern matches *)

(** The text is empty or starts with a backslash. *)
Definition stops (x : string) : Prop :=
  match x with
  | "" => True
  | String c _ => c = "\"%char
  end.

(** The pattern matches at no position of the text. *)
Fixpoint unmatched (m : matcher) (s : string) : Prop :=
  match s with
  | "" => True
  | String c s' => m (String c s') = None ∧ unmatched m s'
  end.

(** ** Further notions: the equation pass on the store *)

(** A cell after the two assignments of [convert_normal_cells]. *)
Definition equation_cell (c : cell) : cell :=
  if decide (cell_type c = "markdown")
  then set_source c (sub_equation (source c)) else c.

(** From [w] to [w'] the cells referenced in [S] got the equation pass
    and nothing else happened. *)
Definition rewritten (S : list loc) (w w' : world) : Prop :=
  trace w' = trace w
  ∧ length (heap w') = length (heap w)
  ∧ ∀ l c, heap w !! l = Some c →
      heap w' !! l = Some (if decide (l ∈ S) then equation_cell c else c).

(** ** Further notions: the files of a vertical *)

(** The files written for the artifact at position [j] of a vertical: an
    HTML text gives its body in the HTML folder and an iframe page in the
    working copy, a component gives nothing. *)
Definition output_files (E : env) (html_folder vertical_url : string)
    (j : nat) (a : artifact) : list event :=
  match a with
  | Html body =>
      let out_url := vertical_url +:+ "_out_" +:+ fmt02 j in
      [ WriteFile (path_join E html_folder (out_url +:+ ".html")) body;
        WriteFile (path_join E (path_join E (dirpath E) "html")
                     (out_url +:+ ".html"))
          (iframe_page E out_url) ]
  | Component _ => []
  end.

(** ** Further notions: the store that a run finds *)

(** From [w] to [w'] the first [n] cells are kept as they are, when [w]
    has that many. *)
Definition keeps_first (n : nat) (w w' : world) : Prop :=
  n ≤ length (heap w) →
  n ≤ length (heap w')
  ∧ ∀ l c, l < n → heap w !! l = Some c → heap w' !! l = Some c.

(** ** Further notions: how a run can end *)

(** The failures that the steps from the syllabus to the archive make
    room for: a document or the skeleton cannot be read, the syllabus has
    no cell or starts with a subsection, a date of the table cannot be
    read, a component text cannot be parsed, the exporter fails, or a
    block has more than one component. The failures of writing a file
    and of the pretty printer are not among the exceptions [exn]. *)
Definition run_failure (e : exn) : Prop :=
  match e with
  | OSError _ | IndexError | ValueError | XMLParseError | ExportError => True
  | RuntimeError msg => msg = "More than 1 xml component in a cell."
  | TypeError | AttributeError | DanglingReference => False
  end.

(** ** Further sample data *)

(** A document with a code cell in front and two headings. *)
Definition two_unit_doc : list cell :=
  [ Sample.code [Sample.png];
    Sample.md (Sample.unlines ["preamble"; "# A"; "one"]);
    Sample.code [Sample.png];
    Sample.md (Sample.unlines ["# B"; "two"]) ].

Definition two_unit_env : env :=
  Sample.make_env [("doc.ipynb", two_unit_doc)] [] [].

(** A store with a text, a component, a plot and a text, and the unit
    over it. *)
Definition unit_cells : list cell :=
  [ Sample.md "Intro"; Sample.code [Sample.olx "<video youtube='abc'/>"];
    Sample.code [Sample.png]; Sample.md "Outro" ].

Definition unit_world : world := {| heap := unit_cells; trace := [] |}.

Definition sample_unit : notebook :=
  {| nb_name := "Bands"; nb_cells := [0; 1; 2; 3] |}.

(** The same with a component text that the parser refuses. *)
Definition bad_unit_cells : list cell :=
  [ Sample.md "Intro"; Sample.code [Sample.olx "<video"] ].

Definition bad_unit_world : world := {| heap := bad_unit_cells; trace := [] |}.

Definition bad_unit : notebook :=
  {| nb_name := "Bands"; nb_cells := [0; 1] |}.
(** ** Further notions: the identifiers of a tree *)

(** The identifiers declared in an element and everywhere below it. *)
Fixpoint all_ids (e : element) : list string :=
  match e with
  | Element _ a _ cs => option_list (a !! "url_name") ++ concat (map all_ids cs)
  end.

(** A component text that declares no identifier: parsed, it has no
    [url_name], neither at its root nor below it. *)
Definition anonymous (E : env) (s : string) : Prop :=
  match fromstring E s with
  | Some xml => all_ids xml = []
  | None => True
  end.

Global Instance anonymous_dec E s : Decision (anonymous E s).
Proof. unfold anonymous. destruct (fromstring E s); apply _. Defined.



(** ** The script read without the store *)

(** The functions of the script once more, on cells by value: a run gives
    a result or a failure and the files it writes, and has no store to
    read or change. Every cell is taken in the state that the equation
    pass leaves it in when it is exported. *)
Module Plain.

Definition P (A : Type) : Type := (exn + A) * list event.

Definition ret {A} (a : A) : P A := (inr a, []).

Definition bind {A B} (m : P A) (f : A → P B) : P B :=
  match m.1 with
  | inl e => (inl e, m.2)
  | inr a => ((f a).1, m.2 ++ (f a).2)
  end.

(** A step without files. *)
Definition lift {A} (r : exn + A) : P A := (r, []).

Definition emit (ev : event) : P () := (inr (), [ev]).

Definition of_option {A} (e : exn) (o : option A) : exn + A :=
  match o with Some a => inr a | None => inl e end.

Definition and_then {A B} (r : exn + A) (f : A → exn + B) : exn + B :=
  match r with inl e => inl e | inr a => f a end.

Fixpoint for_each {A B} (f : A → P B) (l : list A) : P (list B) :=
  match l with
  | [] => ret []
  | x :: l' => bind (f x) (λ y, bind (for_each f l') (λ ys, ret (y :: ys)))
  end.

Fixpoint for_each_i {A B} (f : nat → A → P B) (i : nat) (l : list A)
  : P (list B) :=
  match l with
  | [] => ret []
  | x :: l' =>
      bind (f i x) (λ y, bind (for_each_i f (S i) l') (λ ys, ret (y :: ys)))
  end.

(** *** Unit splitter *)

(** The blocks up to the next heading block. *)
Fixpoint body_blocks (blocks : list cell) : list cell :=
  match blocks with
  | [] => []
  | c :: rest => if is_heading_block c then [] else c :: body_blocks rest
  end.

(** A unit: its name and its cells. *)
Fixpoint units (include_header : bool) (blocks : list cell)
  : list (string * list cell) :=
  match blocks with
  | [] => []
  | c :: rest =>
      if is_heading_block c
      then (heading_title (source c),
            (if include_header then [c] else []) ++ body_blocks rest)
           :: units include_header rest
      else units include_header rest
  end.

Definition split_into_units (E : env) (nb_name : string)
    (include_header : bool) : exn + list (string * list cell) :=
  and_then (of_option (OSError nb_name) (read_cells E nb_name))
    (λ cs, inr (units include_header (block_stream cs))).

(** *** Syllabus parser *)

Definition load_raw_syllabus (E : env) (syllabus_file : string) : exn + cell :=
  and_then (split_into_units E syllabus_file true) (λ units,
  and_then (of_option IndexError (units !! 0)) (λ syll,
  of_option IndexError (syll.2 !! 1))).

Definition parse_syllabus (E : env) (syllabus_file content_folder : string)
    (parse_all : bool) : exn + list chapter :=
  and_then (load_raw_syllabus E syllabus_file) (λ cell,
  and_then (parse_lines E (Str.split_lines (source cell)) []) (λ syllabus,
  inr (make_chapters content_folder parse_all 0 syllabus))).

(** *** Cell classifier and renderer *)

Definition convert_normal_cells (E : env) (normal_cells : list cell)
  : exn + string :=
  and_then (of_option ExportError
              (export_html E (equation_cell <$> normal_cells)))
    (λ body, inr (sub_equation body)).

Definition flush (E : env) (unit_output : list artifact)
    (normal_cells : list cell) : exn + list artifact :=
  match normal_cells with
  | [] => inr unit_output
  | _ => and_then (convert_normal_cells E normal_cells)
           (λ html, inr (unit_output ++ [Html html]))
  end.

Fixpoint convert_cells (E : env) (cells : list cell)
    (unit_output : list artifact) (normal_cells : list cell)
  : exn + list artifact :=
  match cells with
  | [] => flush E unit_output normal_cells
  | c :: rest =>
      if decide (cell_type c = "markdown")
      then convert_cells E rest unit_output (normal_cells ++ [c])
      else
        match outputs c with
        | None => convert_cells E rest unit_output normal_cells
        | Some outs =>
            let xml_components := omap xml_component outs in
            match xml_components with
            | [] => convert_cells E rest unit_output (normal_cells ++ [c])
            | first :: _ =>
                if decide (1 < length xml_components)
                then inl (RuntimeError "More than 1 xml component in a cell.")
                else
                  and_then (of_option XMLParseError (fromstring E first))
                    (λ xml,
                  and_then (flush E unit_output normal_cells)
                    (λ unit_output,
                  convert_cells E rest (unit_output ++ [Component xml]) []))
            end
        end
  end.

Definition convert_unit (E : env) (unit : string * list cell)
  : exn + list artifact :=
  convert_cells E unit.2 [] [].

(** *** Course tree builder and serializer *)

Definition date_to_edx (E : env) (date : option string) (add_days : nat)
  : exn + string :=
  match date with
  | None => inl TypeError
  | Some d => of_option ValueError (reformat_date E d 10 add_days)
  end.

(** The node added for the artifact at position [j] of a vertical. *)
Definition output_element (vertical_url display_name : string)
    (j : nat) (out : artifact) : element :=
  let out_url := vertical_url +:+ "_out_" +:+ fmt02 j in
  match out with
  | Html body =>
      {| tag := "html";
         attrib := {[ "url_name" := out_url;
                      "display_name" := display_name;
                      "filename" := out_url ]};
         text := ""; children := [] |}
  | Component xml =>
      if decide (attrib xml !! "url_name" = None)
      then set_attrib "url_name" out_url xml else xml
  end.

Definition add_output (E : env) (html_folder vertical_url display_name : string)
    (j : nat) (out : artifact) : P element :=
  (inr (output_element vertical_url display_name j out),
   output_files E html_folder vertical_url j out).

Definition add_vertical (E : env) (html_folder : string)
    (sequential : sequential) (i : nat) (unit : string * list cell)
  : P element :=
  let vertical_url := seq_url sequential +:+ "_" +:+ fmt02 i in
  bind (lift (convert_unit E unit)) (λ unit_output,
  bind (for_each_i (add_output E html_folder vertical_url unit.1)
          0 unit_output) (λ outs,
  ret {| tag := "vertical";
         attrib := {[ "url_name" := vertical_url;
                      "display_name" := unit.1 ]};
         text := ""; children := outs |})).

Definition add_sequential (E : env) (html_folder : string) (chapter : chapter)
    (sequential : sequential) : P element :=
  bind (lift (split_into_units E (seq_source_notebook sequential) false))
    (λ units,
  bind (for_each_i (add_vertical E html_folder sequential) 0 units)
    (λ verticals,
  ret {| tag := "sequential";
         attrib := sequential_attrib chapter sequential;
         text := ""; children := verticals |})).

Definition add_chapter (E : env) (html_folder : string) (chapter : chapter)
  : P element :=
  bind (lift (date_to_edx E (ch_date chapter) 0)) (λ start,
  bind (for_each (add_sequential E html_folder chapter)
          (ch_sequentials chapter)) (λ sequentials,
  ret {| tag := "chapter";
         attrib := {[ "url_name" := ch_url chapter;
                      "display_name" := ch_name chapter;
                      "start" := start ]};
         text := ""; children := sequentials |})).

Definition build_chapters (E : env) (html_folder : string)
    (chapters : list chapter) : P (list element) :=
  for_each (add_chapter E html_folder) chapters.

Definition save_xml (E : env) (xml : element) (path : string) : P () :=
  emit (WriteFile path (math_rewrite (prettify E xml))).

Definition converter (E : env) (mooc_folder : string)
    (content_folder : option string) : P element :=
  let content_folder := default mooc_folder content_folder in
  let target := path_join E mooc_folder "generated" in
  let html_folder := path_join E target "html/edx" in
  let syllabus_nb := path_join E content_folder "syllabus.ipynb" in
  bind (lift (parse_syllabus E syllabus_nb content_folder false)) (λ data,
  let course_xml_path := path_join E (dirpath E) "course.xml" in
  bind (lift (of_option (OSError course_xml_path) (course_xml E)))
    (λ course_text,
  bind (lift (of_option XMLParseError (fromstring E course_text)))
    (λ xml_course,
  bind (build_chapters E html_folder data) (λ chapters,
  let xml_course :=
    {| tag := tag xml_course; attrib := attrib xml_course;
       text := text xml_course;
       children := children xml_course ++ chapters |} in
  bind (save_xml E xml_course course_xml_path) (λ _,
  let tar_filepath := path_join E target "import_to_edx.tar.gz" in
  bind (emit (CreateArchive tar_filepath (dirpath E))) (λ _,
  ret xml_course)))))).

End Plain.

(** ** Further notions: a run and its reading without the store *)

(** The references [ls] lead to the cells [cs], up to the equation pass. *)
Definition upto (w : world) (ls : list loc) (cs : list cell) : Prop :=
  Forall2 (λ l c, ∃ c', heap w !! l = Some c'
                        ∧ equation_cell c' = equation_cell c) ls cs.



(** The units by reference and by value name the same cells. *)
Definition same_units (w : world) (units : list notebook)
    (values : list (string * list cell)) : Prop :=
  Forall2 (λ u v, nb_name u = v.1 ∧ upto w (nb_cells u) v.2) units values.
(** * Properties *)

(** ** Sanity checks of the patterns *)

Example split_headings_ex :
  re_split_headings ("# A" +:+ String Str.newline "text"
                     +:+ String Str.newline "# B") =
  [""; "# A"; String Str.newline "text" +:+ String Str.newline ""; "# B"; ""].
Proof. reflexivity. Qed.

Example fmt02_ex : fmt02 0 = "00" ∧ fmt02 7 = "07" ∧ fmt02 12 = "12" ∧ fmt02 123 = "123".
Proof. repeat split; reflexivity. Qed.

Example match_subsection_ex :
  match_subsection "  * [Intro (a)](w0/intro.ipynb)" = Some ("Intro (a)", "w0/intro.ipynb").
Proof. reflexivity. Qed.

Example match_section_ex : match_section "* **Week 1**" = Some "Week 1".
Proof. reflexivity. Qed.

Example math_rewrite_ex :
  math_rewrite "a $$x$$ b $y$ c" = "a \[x\] b \(y\) c".
Proof. reflexivity. Qed.

(** ** Strings *)

Lemma str_app_cons a (s t : string) : String a s +:+ t = String a (s +:+ t).
Proof. reflexivity. Qed.

Lemma str_app_nil_l (s : string) : "" +:+ s = s.
Proof. reflexivity. Qed.

Lemma str_app_nil_r (s : string) : s +:+ "" = s.
Proof. induction s as [|a s IH]; [done|]. by rewrite str_app_cons IH. Qed.

Lemma str_app_assoc (s t u : string) : (s +:+ t) +:+ u = s +:+ (t +:+ u).
Proof. induction s as [|a s IH]; [done|]. by rewrite !str_app_cons IH. Qed.

Lemma str_app_length (s t : string) :
  String.length (s +:+ t) = String.length s + String.length t.
Proof. induction s as [|a s IH]; [done|]. rewrite str_app_cons /=. lia. Qed.

Lemma strip_prefix_app p r : Str.strip_prefix p (p +:+ r) = Some r.
Proof.
  induction p as [|a p IH]; [by destruct r|].
  rewrite str_app_cons /=. by rewrite decide_True.
Qed.

Lemma strip_prefix_Some p s r : Str.strip_prefix p s = Some r → s = p +:+ r.
Proof.
  revert s. induction p as [|a p IH]; intros s.
  - destruct s; simpl; by intros [= <-].
  - destruct s as [|b s]; simpl; [done|].
    case_decide; [|done]. subst. intros ->%IH. done.
Qed.

Lemma startswith_app p r : Str.startswith p (p +:+ r) = true.
Proof. unfold Str.startswith. by rewrite strip_prefix_app. Qed.

Lemma startswith_true p s : Str.startswith p s = true → ∃ r, s = p +:+ r.
Proof.
  unfold Str.startswith. destruct (Str.strip_prefix p s) as [r|] eqn:H; [|done].
  intros _. exists r. by apply strip_prefix_Some.
Qed.

(** ** Identifiers *)

Lemma parse_nat_fmt02 n : parse_nat (fmt02 n) = Some n.
Proof.
  unfold fmt02, parse_nat, decimal. case_decide.
  - rewrite str_app_cons str_app_nil_l. cbn [NilEmpty.uint_of_string].
    rewrite NilEmpty.usu. cbn. f_equal. apply Unsigned.of_to.
  - rewrite NilEmpty.usu. cbn. f_equal. apply Unsigned.of_to.
Qed.

Global Instance fmt02_inj : Inj (=) (=) fmt02.
Proof.
  intros n m H. apply (f_equal parse_nat) in H.
  rewrite !parse_nat_fmt02 in H. congruence.
Qed.

Lemma fmt02_zero n : fmt02 n = "00" ↔ n = 0.
Proof.
  split; [|by intros ->].
  intros H. apply (inj fmt02). by rewrite H.
Qed.

Lemma sec_url_zero n : "sec_" +:+ fmt02 n = "sec_00" ↔ n = 0.
Proof.
  rewrite -fmt02_zero. split; [|by intros ->].
  intros H. by apply (inj (String.app "sec_")) in H.
Qed.

(** ** The monad *)

Lemma bind_inr {A B} (m : M A) (f : A → M B) w b w' :
  (m ≫= f) w = (inr b, w') ↔ ∃ a w1, m w = (inr a, w1) ∧ f a w1 = (inr b, w').
Proof.
  unfold mbind, M_bind. destruct (m w) as [[e|a] w1]; split.
  - done.
  - by intros (? & ? & ? & _).
  - eauto.
  - by intros (? & ? & [= <- <-] & ?).
Qed.

Lemma bind_run {A B} (m : M A) (f : A → M B) w a w1 :
  m w = (inr a, w1) → (m ≫= f) w = f a w1.
Proof. unfold mbind, M_bind. by intros ->. Qed.

Lemma bind_fail {A B} (m : M A) (f : A → M B) w e w1 :
  m w = (inl e, w1) → (m ≫= f) w = (inl e, w1).
Proof. unfold mbind, M_bind. by intros ->. Qed.

Lemma ret_run {A} (a : A) w : mret (M := M) a w = (inr a, w).
Proof. reflexivity. Qed.

Lemma lift_option_inr {A} e (o : option A) w a w' :
  lift_option e o w = (inr a, w') ↔ o = Some a ∧ w' = w.
Proof.
  destruct o; simpl; unfold mret, M_ret, raise; split;
    [intros [= <- <-]|intros [[= <-] ->]|intros [=]|intros [[=] _]]; done.
Qed.

Lemma for_each_inr {A B} (f : A → M B) l w ys w' :
  for_each f l w = (inr ys, w') →
  Forall2 (λ x y, ∃ w1 w2, f x w1 = (inr y, w2)) l ys.
Proof.
  revert w ys. induction l as [|x l IH]; intros w ys; simpl.
  - intros [= <- <-]. constructor.
  - intros (y & w1 & Hy & (ys' & w2 & Hys & [= <- <-])%bind_inr)%bind_inr.
    constructor; eauto.
Qed.

(** ** Syllabus parser *)

Section Syllabus.

Context (E : env).

Lemma match_syllabus_line_section line name :
  match_syllabus_line line = Some (SectionLine name)
  ↔ match_section line = Some name.
Proof.
  unfold match_syllabus_line. destruct (match_section line).
  - split; congruence.
  - destruct (match_subsection line) as [[??]|]; split; congruence.
Qed.

Lemma append_subsection_names sub syllabus syllabus' :
  append_subsection sub syllabus = Some syllabus' →
  entry_name <$> syllabus' = entry_name <$> syllabus
  ∧ entry_date <$> syllabus' = entry_date <$> syllabus.
Proof.
  revert syllabus'. induction syllabus as [|e [|e' es] IH]; intros syl'.
  - done.
  - by intros [= <-].
  - change (append_subsection sub (e :: e' :: es))
      with (cons e <$> append_subsection sub (e' :: es)).
    destruct (append_subsection sub (e' :: es)) as [s|]; [|done].
    intros [= <-]. destruct (IH s eq_refl) as [H1 H2].
    rewrite !fmap_cons H1 H2. done.
Qed.

(** Every section line opens an entry, named after it and dated by the
    table; nothing else adds or removes entries. *)
Lemma parse_lines_entries lines syllabus syllabus' :
  parse_lines E lines syllabus = inr syllabus' →
  entry_name <$> syllabus'
    = (entry_name <$> syllabus) ++ omap match_section lines
  ∧ (Forall (λ e, entry_date e = release_dates E !! entry_name e) syllabus →
     Forall (λ e, entry_date e = release_dates E !! entry_name e) syllabus').
Proof.
  revert syllabus. induction lines as [|line lines IH]; intros syllabus.
  - simpl. intros [= <-]. by rewrite app_nil_r.
  - simpl. destruct (match_syllabus_line line) as [[name|title filename]|] eqn:Hm.
    + apply match_syllabus_line_section in Hm. rewrite Hm.
      intros [Hn Hd]%IH. split.
      * rewrite Hn fmap_app /= -assoc. done.
      * intros Hs. apply Hd. apply Forall_app. split; [done|].
        by constructor.
    + assert (match_section line = None) as ->.
      { destruct (match_section line) eqn:Hs; [|done].
        apply match_syllabus_line_section in Hs. congruence. }
      destruct (append_subsection _ syllabus) as [s|] eqn:Ha; [|done].
      intros [Hn Hd]%IH.
      destruct (append_subsection_names _ _ _ Ha) as [H1 H2].
      split; [by rewrite Hn H1|].
      intros Hs. apply Hd.
      apply Forall_lookup. intros k e Hk.
      assert (∃ e0, syllabus !! k = Some e0 ∧ entry_name e0 = entry_name e
                    ∧ entry_date e0 = entry_date e) as (e0 & Hk0 & Hn0 & Hd0).
      { apply (f_equal (λ l, l !! k)) in H1, H2.
        rewrite !list_lookup_fmap Hk /= in H1 H2.
        destruct (syllabus !! k) as [e0|]; [|done].
        exists e0. simplify_eq/=. done. }
      rewrite -Hn0 -Hd0. by eapply Forall_lookup_1 in Hs.
    + assert (match_section line = None) as ->.
      { destruct (match_section line) eqn:Hs; [|done].
        apply match_syllabus_line_section in Hs. congruence. }
      apply IH.
Qed.

Lemma make_chapters_all cf i syllabus :
  ch_name <$> make_chapters cf true i syllabus = entry_name <$> syllabus.
Proof.
  revert i. induction syllabus as [|e es IH]; intros i; [done|].
  cbn [make_chapters negb andb]. by rewrite fmap_cons IH.
Qed.

Lemma make_chapters_default cf i syllabus :
  Forall (λ e, entry_date e = release_dates E !! entry_name e) syllabus →
  make_chapters cf false i syllabus
  = filter (λ ch, dated E (ch_name ch)) (make_chapters cf true i syllabus).
Proof.
  revert i. induction syllabus as [|e es IH]; intros i; [done|].
  intros [He Hes]%Forall_cons. cbn [make_chapters negb andb].
  case_bool_decide as Hd.
  - rewrite filter_cons_False /=; [by apply IH|].
    unfold dated. rewrite -He Hd. by intros [??].
  - rewrite filter_cons_True /=; [f_equal; by apply IH|].
    unfold dated. rewrite -He. by destruct (entry_date e).
Qed.

Lemma make_chapters_urls cf pa i syllabus :
  Forall (λ ch, ∃ k, i ≤ k ∧ ch_url ch = "sec_" +:+ fmt02 k)
         (make_chapters cf pa i syllabus).
Proof.
  revert i. induction syllabus as [|e es IH]; intros i; [constructor|].
  simpl. assert (Forall (λ ch, ∃ k, i ≤ k ∧ ch_url ch = "sec_" +:+ fmt02 k)
                   (make_chapters cf pa (S i) es)) as Htl.
  { eapply Forall_impl; [apply IH|]. intros ch (k & ? & ?). exists k.
    split; [lia|done]. }
  destruct (negb pa && _); [done|]. constructor; [|done].
  exists i. done.
Qed.

Lemma parse_syllabus_run file cf pa w cell w1 syllabus :
  load_raw_syllabus E file w = (inr cell, w1) →
  parse_lines E (Str.split_lines (source cell)) [] = inr syllabus →
  parse_syllabus E file cf pa w = (inr (make_chapters cf pa 0 syllabus), w1).
Proof.
  intros Hl Hp. unfold parse_syllabus. rewrite (bind_run _ _ _ _ _ Hl) Hp //.
Qed.

End Syllabus.

(** C10: a subsection line that is matched while no section line has been
    matched yet makes [parse_syllabus] raise [IndexError] (the append to
    the last element of the empty list); nothing is returned. *)
Theorem parse_syllabus_orphan_subsection
    E file cf pa w cell w1 pre line post title filename :
  load_raw_syllabus E file w = (inr cell, w1) →
  Str.split_lines (source cell) = pre ++ line :: post →
  Forall (λ l, match_section l = None) pre →
  match_syllabus_line line = Some (SubsectionLine title filename) →
  parse_syllabus E file cf pa w = (inl IndexError, w1).
Proof.
  intros Hload Hlines Hpre Hline.
  unfold parse_syllabus. rewrite (bind_run _ _ _ _ _ Hload) Hlines.
  assert (parse_lines E (pre ++ line :: post) [] = inl IndexError) as ->; [|done].
  clear Hlines. induction Hpre as [|l pre Hl Hpre IH]; simpl.
  - by rewrite Hline.
  - destruct (match_syllabus_line l) as [[name|t f]|] eqn:Hm; [|done..].
    apply match_syllabus_line_section in Hm. congruence.
Qed.

Lemma parse_syllabus_orphan_subsection_witness :
  parse_syllabus
    (Sample.make_env
       [("s.ipynb", [Sample.md (Sample.unlines
                       ["# Syllabus"; "intro"; "  * [Welcome](w0/intro.ipynb)";
                        "* **Week 1**"])])] [] [])
    "s.ipynb" "course" false Sample.empty_world
  = (inl IndexError,
     {| heap := Sample.md <$> [Sample.unlines
                       ["# Syllabus"; "intro"; "  * [Welcome](w0/intro.ipynb)";
                        "* **Week 1**"]; ""; "# Syllabus";
                       Sample.unlines [""; "intro"; "  * [Welcome](w0/intro.ipynb)";
                        "* **Week 1**"]];
        trace := [] |}).
Proof.
  eapply (parse_syllabus_orphan_subsection _ _ _ _ _ _ _ [""; "intro"]).
  - reflexivity.
  - reflexivity.
  - repeat constructor.
  - reflexivity.
Defined.

(** C5: in default mode the chapters are exactly those of full-content
    mode whose section name has an entry in the release-date table, and
    full-content mode has one chapter per section line, dated or not. *)
Theorem parse_syllabus_release_filter E file cf w cell w1 syllabus :
  load_raw_syllabus E file w = (inr cell, w1) →
  parse_lines E (Str.split_lines (source cell)) [] = inr syllabus →
  ∃ full,
    parse_syllabus E file cf true w = (inr full, w1)
    ∧ ch_name <$> full = omap match_section (Str.split_lines (source cell))
    ∧ parse_syllabus E file cf false w
      = (inr (filter (λ ch, dated E (ch_name ch)) full), w1)
    ∧ Forall (λ ch, ¬ dated E (ch_name ch) → ch_date ch = None
                    ∧ ch ∉ filter (λ ch, dated E (ch_name ch)) full) full.
Proof.
  intros Hload Hparse. exists (make_chapters cf true 0 syllabus).
  destruct (parse_lines_entries E _ _ _ Hparse) as [Hnames Hdates].
  specialize (Hdates (Forall_nil_2 _)).
  split; [by eapply parse_syllabus_run|].
  split; [by rewrite make_chapters_all Hnames|].
  split.
  - rewrite -make_chapters_default //. by eapply parse_syllabus_run.
  - apply Forall_forall. intros ch Hch Hnd. split.
    + clear Hparse Hnames. revert Hch. generalize 0.
      induction Hdates as [|e es He Hes IH]; intros i; [by intros ?%elem_of_nil|].
      cbn [make_chapters negb andb]. intros [->|?]%elem_of_cons; [|by eapply IH].
      simpl in *. rewrite He. unfold dated in Hnd.
      by destruct (release_dates E !! entry_name e); [destruct Hnd|].
    + by intros [? _]%list_elem_of_filter.
Qed.

Lemma parse_syllabus_release_filter_witness :
  ch_name <$> filter (λ ch, dated Sample.course (ch_name ch))
                (make_chapters "course" true 0
                   [Entry "Introduction" None [("Welcome", "w0/intro.ipynb")];
                    Entry "Week 1" (Some "3 Sep 2018")
                      [("Topology", "w1/topology.ipynb");
                       ("Assignments", "w1/assignments.ipynb")]])
    = ["Week 1"]
  ∧ ch_name <$> make_chapters "course" true 0
                   [Entry "Introduction" None [("Welcome", "w0/intro.ipynb")];
                    Entry "Week 1" (Some "3 Sep 2018")
                      [("Topology", "w1/topology.ipynb");
                       ("Assignments", "w1/assignments.ipynb")]]
    = ["Introduction"; "Week 1"]
  ∧ ∃ full, parse_syllabus Sample.course "course/syllabus.ipynb" "course" true
              Sample.empty_world
            = (inr full, snd (load_raw_syllabus Sample.course
                                "course/syllabus.ipynb" Sample.empty_world))
      ∧ ch_name <$> full = ["Introduction"; "Week 1"]
      ∧ (λ r, match r with inr chs => ch_name <$> chs | inl _ => [] end)
          (fst (parse_syllabus Sample.course "course/syllabus.ipynb" "course"
                  false Sample.empty_world)) = ["Week 1"].
Proof.
  split; [reflexivity|]. split; [reflexivity|].
  destruct (parse_syllabus_release_filter Sample.course
              "course/syllabus.ipynb" "course" Sample.empty_world
              (Sample.md (Sample.unlines
                 [""; "";
                  "* **Introduction**";
                  "  * [Welcome](w0/intro.ipynb)";
                  "* **Week 1**";
                  "  * [Topology](w1/topology.ipynb)";
                  "  * [Assignments](w1/assignments.ipynb)" ]))
              (snd (load_raw_syllabus Sample.course
                      "course/syllabus.ipynb" Sample.empty_world))
              [Entry "Introduction" None [("Welcome", "w0/intro.ipynb")];
               Entry "Week 1" (Some "3 Sep 2018")
                 [("Topology", "w1/topology.ipynb");
                  ("Assignments", "w1/assignments.ipynb")]]
              eq_refl eq_refl) as (full & Hfull & Hnames & Hdefault & _).
  exists full. split; [exact Hfull|]. split; [exact Hnames|].
  rewrite Hdefault. cbn [fst].
  vm_compute in Hfull. injection Hfull as <-. reflexivity.
Defined.

(** ** Course tree builder *)

Section Builder.

Context (E : env).

Lemma sequential_attrib_display_name ch sq :
  sequential_attrib ch sq !! "display_name" = Some (seq_name sq).
Proof. unfold sequential_attrib. repeat case_decide; by simplify_map_eq. Qed.

Lemma sequential_attrib_url_name ch sq :
  sequential_attrib ch sq !! "url_name" = Some (seq_url sq).
Proof. unfold sequential_attrib. repeat case_decide; by simplify_map_eq. Qed.

Lemma sequential_attrib_graded ch sq :
  sequential_attrib ch sq !! "graded"
  = Some (if decide (ch_url ch = "sec_00") then "false" else "true").
Proof. unfold sequential_attrib. repeat case_decide; by simplify_map_eq. Qed.

Lemma sequential_attrib_format ch sq :
  sequential_attrib ch sq !! "format"
  = if decide (seq_name sq = "Assignments") then Some "Research"
    else if decide (ch_url ch = "sec_00") then None else Some "Self-check".
Proof. unfold sequential_attrib. repeat case_decide; by simplify_map_eq. Qed.

Lemma add_sequential_inr hf ch sq w el w' :
  add_sequential E hf ch sq w = (inr el, w') →
  tag el = "sequential" ∧ attrib el = sequential_attrib ch sq.
Proof.
  unfold add_sequential.
  intros (units & w1 & _ & (vs & w2 & _ & [= <- <-])%bind_inr)%bind_inr.
  done.
Qed.

Lemma add_chapter_inr hf ch w el w' :
  add_chapter E hf ch w = (inr el, w') →
  tag el = "chapter"
  ∧ attrib el !! "url_name" = Some (ch_url ch)
  ∧ attrib el !! "display_name" = Some (ch_name ch)
  ∧ Forall2 (λ sq sel, tag sel = "sequential"
                       ∧ attrib sel = sequential_attrib ch sq)
      (ch_sequentials ch) (children el).
Proof.
  unfold add_chapter.
  intros (start & w1 & _ & (sqs & w2 & Hsqs & [= <- <-])%bind_inr)%bind_inr.
  simpl. split; [done|]. split; [by simplify_map_eq|].
  split; [by simplify_map_eq|].
  apply for_each_inr in Hsqs. eapply Forall2_impl; [exact Hsqs|].
  intros sq sel (? & ? & H). by eapply add_sequential_inr.
Qed.

Lemma build_chapters_inr hf data w chapters w' :
  build_chapters E hf data w = (inr chapters, w') →
  Forall2 (λ ch el, tag el = "chapter"
                    ∧ attrib el !! "url_name" = Some (ch_url ch)
                    ∧ Forall2 (λ sq sel, tag sel = "sequential"
                                         ∧ attrib sel = sequential_attrib ch sq)
                        (ch_sequentials ch) (children el))
    data chapters.
Proof.
  intros H%for_each_inr. eapply Forall2_impl; [exact H|].
  intros ch el (? & ? & (? & ? & ? & ?)%add_chapter_inr). done.
Qed.

(** What a successful run of [converter] went through. *)
Lemma converter_inr mooc cf w root w' :
  converter E mooc cf w = (inr root, w') →
  let content_folder := default mooc cf in
  let target := path_join E mooc "generated" in
  ∃ data w1 course_text skeleton chapters w2,
    parse_syllabus E (path_join E content_folder "syllabus.ipynb")
      content_folder false w = (inr data, w1)
    ∧ course_xml E = Some course_text
    ∧ fromstring E course_text = Some skeleton
    ∧ build_chapters E (path_join E target "html/edx") data w1
      = (inr chapters, w2)
    ∧ root = {| tag := tag skeleton; attrib := attrib skeleton;
                text := text skeleton;
                children := children skeleton ++ chapters |}.
Proof.
  unfold converter.
  intros (data & w1 & Hdata & H)%bind_inr.
  apply bind_inr in H as (txt & w2 & [Htxt ->]%lift_option_inr & H).
  apply bind_inr in H as (sk & w3 & [Hsk ->]%lift_option_inr & H).
  apply bind_inr in H as (chs & w4 & Hchs & H).
  apply bind_inr in H as ([] & w5 & _ & H).
  apply bind_inr in H as ([] & w6 & _ & [= <- <-]).
  cbv zeta. by exists data, w1, txt, sk, chs, w4.
Qed.

End Builder.

(** C3: the sequentials of the chapter made for the section at index [i]
    carry [graded] "false" when [i] is 0 (the chapter named [sec_00]) and
    "true" otherwise; their [format] is "Research" exactly for the display
    name "Assignments", otherwise "Self-check" outside the first chapter
    and absent inside it. *)
Theorem sequential_grading E hf cf i section w el w' :
  add_chapter E hf (make_chapter cf i section) w = (inr el, w') →
  attrib el !! "url_name" = Some ("sec_" +:+ fmt02 i)
  ∧ ("sec_" +:+ fmt02 i = "sec_00" ↔ i = 0)
  ∧ Forall2 (λ sub sel,
       tag sel = "sequential"
       ∧ attrib sel !! "display_name" = Some sub.1
       ∧ attrib sel !! "graded" = Some (if decide (i = 0) then "false" else "true")
       ∧ (attrib sel !! "format" = Some "Research" ↔ sub.1 = "Assignments")
       ∧ (sub.1 ≠ "Assignments" →
          attrib sel !! "format"
          = if decide (i = 0) then None else Some "Self-check"))
      (entry_subsections section) (children el).
Proof.
  intros (_ & Hurl & _ & Hsq)%add_chapter_inr.
  split; [done|]. split; [apply sec_url_zero|].
  simpl in Hsq. apply Forall2_same_length_lookup. split.
  { apply Forall2_length in Hsq. by rewrite length_imap in Hsq. }
  intros j sub sel Hsub Hsel.
  assert (Hj : imap (make_sequential cf (entry_date section) i)
                 (entry_subsections section) !! j
               = Some (make_sequential cf (entry_date section) i j sub)).
  { by rewrite list_lookup_imap Hsub. }
  destruct (Forall2_lookup_l _ _ _ _ _ Hsq Hj) as (sel' & Hsel' & Htag & Hattr).
  assert (sel' = sel) as -> by congruence.
  split; [done|]. rewrite Hattr.
  rewrite sequential_attrib_display_name sequential_attrib_graded
    sequential_attrib_format /=.
  assert (Hz : "sec_" +:+ fmt02 i = "sec_00" ↔ i = 0) by apply sec_url_zero.
  split; [done|]. split.
  { repeat case_decide; try done; tauto. }
  split.
  { repeat case_decide; split; try done; tauto. }
  intros Hne. repeat case_decide; try done; tauto.
Qed.

Lemma sequential_grading_witness :
  ∃ el w',
    add_chapter Sample.dated_course "out" (make_chapter "course" 1
      (Entry "Week 1" (Some "3 Sep 2018")
         [("Topology", "w1/topology.ipynb");
          ("Assignments", "w1/assignments.ipynb")])) Sample.empty_world
    = (inr el, w')
    ∧ Forall2 (λ sub sel, attrib sel !! "display_name" = Some sub.1
                          ∧ attrib sel !! "graded" = Some "true")
        [("Topology", "w1/topology.ipynb");
         ("Assignments", "w1/assignments.ipynb")] (children el).
Proof.
  destruct (add_chapter Sample.dated_course "out" (make_chapter "course" 1
      (Entry "Week 1" (Some "3 Sep 2018")
         [("Topology", "w1/topology.ipynb");
          ("Assignments", "w1/assignments.ipynb")])) Sample.empty_world)
    as [[e|el] w'] eqn:H; [vm_compute in H; discriminate H|].
  exists el, w'. split; [reflexivity|].
  destruct (sequential_grading _ _ _ _ _ _ _ _ H) as (_ & _ & HF).
  eapply Forall2_impl; [exact HF|].
  intros sub sel (_ & Hd & Hg & _). split; [exact Hd|exact Hg].
Defined.

(** ** Regular-expression substitution *)

Lemma re_sub_go_fuel m n k s :
  consuming m → String.length s ≤ n → String.length s ≤ k →
  re_sub_go m n s = re_sub_go m k s.
Proof.
  intros Hm. revert k s. induction n as [|n IH]; intros k s Hn Hk.
  - destruct s; [|simpl in Hn; lia]. by destruct k.
  - destruct s as [|c s]; [by destruct k|].
    destruct k as [|k]; [simpl in Hk; lia|]. simpl in *.
    destruct (m (String c s)) as [[repl rest]|] eqn:Hs.
    + apply Hm in Hs. simpl in Hs. f_equal. apply IH; lia.
    + f_equal. apply IH; lia.
Qed.

Lemma re_sub_nil m : re_sub m "" = "".
Proof. reflexivity. Qed.

Lemma re_sub_match m s repl rest :
  consuming m → m s = Some (repl, rest) →
  re_sub m s = repl +:+ re_sub m rest.
Proof.
  intros Hm Hs. pose proof (Hm _ _ _ Hs) as Hlen. unfold re_sub.
  destruct s as [|c s]; [simpl in Hlen; lia|].
  cbn [String.length re_sub_go]. rewrite Hs. f_equal.
  simpl in Hlen. apply re_sub_go_fuel; [done|lia..].
Qed.

Lemma re_sub_skip m c s :
  m (String c s) = None → re_sub m (String c s) = String c (re_sub m s).
Proof. intros Hs. unfold re_sub. cbn [String.length re_sub_go]. by rewrite Hs. Qed.

Lemma strip_prefix_head_ne d p c s :
  c ≠ d → Str.strip_prefix (String d p) (String c s) = None.
Proof. intros ?. simpl. by rewrite decide_False. Qed.

Lemma find_close_Some close s g r :
  Str.find_close close s = Some (g, r) → s = g +:+ close +:+ r.
Proof.
  revert g. induction s as [|c s IH]; intros g; simpl.
  - destruct (Str.strip_prefix close "") as [r'|] eqn:Hp; [|done].
    intros [= <- <-]. by apply strip_prefix_Some in Hp.
  - destruct (Str.strip_prefix close (String c s)) as [r'|] eqn:Hp.
    { intros [= <- <-]. by apply strip_prefix_Some in Hp. }
    case_decide; [done|].
    destruct (Str.find_close close s) as [[g' r']|]; [|done].
    intros [= <- <-]. rewrite str_app_cons. f_equal. by apply IH.
Qed.

Lemma find_close_first d close x post :
  free_of d x → free_of Str.newline x →
  Str.find_close (String d close) (x +:+ String d close +:+ post)
  = Some (x, post).
Proof.
  induction x as [|c x IH]; intros Hd Hn.
  - rewrite str_app_nil_l. destruct post; simpl;
      by rewrite decide_True // strip_prefix_app.
  - destruct Hd as [Hc Hd], Hn as [Hc' Hn].
    rewrite str_app_cons. cbn [Str.find_close].
    rewrite strip_prefix_head_ne // decide_False // IH //.
Qed.

Lemma match_delim_consuming d delim opn cls : consuming (match_delim (String d delim) opn cls).
Proof.
  intros s repl rest. unfold match_delim.
  destruct (Str.strip_prefix _ s) as [s1|] eqn:H1; [|done]. simpl.
  destruct (Str.find_close _ s1) as [[g r]|] eqn:H2; [|done]. simpl.
  intros [= <- <-]. apply strip_prefix_Some in H1. apply find_close_Some in H2.
  subst. rewrite !str_app_length /=. lia.
Qed.

Lemma match_delim_head_ne d delim opn cls c s :
  c ≠ d → match_delim (String d delim) opn cls (String c s) = None.
Proof. intros ?. unfold match_delim. by rewrite strip_prefix_head_ne. Qed.

(** Text without the first character of the delimiter is copied. *)
Lemma re_sub_delim_free d delim opn cls p t :
  free_of d p →
  re_sub (match_delim (String d delim) opn cls) (p +:+ t)
  = p +:+ re_sub (match_delim (String d delim) opn cls) t.
Proof.
  induction p as [|c p IH]; intros Hp; [done|]. destruct Hp as [Hc Hp].
  rewrite !str_app_cons re_sub_skip; [by rewrite IH|].
  by apply match_delim_head_ne.
Qed.

Lemma re_sub_delim_free_id d delim opn cls p :
  free_of d p → re_sub (match_delim (String d delim) opn cls) p = p.
Proof.
  intros Hp. rewrite -{1}(str_app_nil_r p) re_sub_delim_free //.
  by rewrite re_sub_nil str_app_nil_r.
Qed.

Lemma free_of_app c s t : free_of c (s +:+ t) ↔ free_of c s ∧ free_of c t.
Proof.
  induction s as [|a s IH]; [simpl; tauto|].
  rewrite str_app_cons /= IH. tauto.
Qed.

Lemma sub_display_math_block x post :
  free_of "$" x → free_of Str.newline x →
  sub_display_math ("$$" +:+ x +:+ "$$" +:+ post)
  = "\[" +:+ x +:+ "\]" +:+ sub_display_math post.
Proof.
  intros Hx Hn. unfold sub_display_math.
  rewrite (re_sub_match _ _ ("\[" +:+ x +:+ "\]") post).
  - by rewrite !str_app_assoc.
  - apply match_delim_consuming.
  - unfold match_delim. rewrite strip_prefix_app /= find_close_first //.
Qed.

Lemma sub_inline_math_block x post :
  free_of "$" x → free_of Str.newline x →
  sub_inline_math ("$" +:+ x +:+ "$" +:+ post)
  = "\(" +:+ x +:+ "\)" +:+ sub_inline_math post.
Proof.
  intros Hx Hn. unfold sub_inline_math.
  rewrite (re_sub_match _ _ ("\(" +:+ x +:+ "\)") post).
  - by rewrite !str_app_assoc.
  - apply match_delim_consuming.
  - unfold match_delim. rewrite strip_prefix_app /= find_close_first //.
Qed.

(** A single-dollar pair is no display math: the first pass copies it. *)
Lemma sub_display_math_inline x post :
  free_of "$" x → x ≠ "" → Str.startswith "$" post = false →
  sub_display_math ("$" +:+ x +:+ "$" +:+ post)
  = "$" +:+ x +:+ "$" +:+ sub_display_math post.
Proof.
  intros Hx Hne Hpost. unfold sub_display_math.
  destruct x as [|c x]; [done|]. destruct Hx as [Hc Hx].
  rewrite !str_app_cons !str_app_nil_l re_sub_skip; last first.
  { unfold match_delim. simpl. case_decide; [by subst|done]. }
  f_equal. rewrite -str_app_cons (re_sub_delim_free "$" "$") //.
  rewrite !str_app_cons. do 2 f_equal. destruct post as [|c' post].
  - rewrite re_sub_skip //.
  - rewrite re_sub_skip //.
    unfold match_delim. simpl. case_decide; [|done]. subst.
    by vm_compute in Hpost.
Qed.

(** C4, as the code has it: a double-dollar block whose content has no
    dollar and no newline becomes a square-bracket block, a single-dollar
    block with such a non-empty content and no dollar right after it
    becomes a parenthesis block (in both cases after text without
    dollars, the rest of the text being rewritten in turn), and a text
    without dollars is left as it is, so rewriting it twice changes
    nothing either. *)
Theorem math_rewrite_delimiters :
  (∀ pre x post,
     free_of "$" pre → free_of "$" x → free_of Str.newline x →
     math_rewrite (pre +:+ "$$" +:+ x +:+ "$$" +:+ post)
     = pre +:+ "\[" +:+ x +:+ "\]" +:+ math_rewrite post)
  ∧ (∀ pre x post,
       free_of "$" pre → free_of "$" x → free_of Str.newline x →
       x ≠ "" → Str.startswith "$" post = false →
       math_rewrite (pre +:+ "$" +:+ x +:+ "$" +:+ post)
       = pre +:+ "\(" +:+ x +:+ "\)" +:+ math_rewrite post)
  ∧ (∀ t, free_of "$" t →
       math_rewrite t = t ∧ math_rewrite (math_rewrite t) = math_rewrite t).
Proof.
  split; [|split].
  - intros pre x post Hpre Hx Hn. unfold math_rewrite.
    rewrite /sub_display_math (re_sub_delim_free "$" "$") //.
    fold sub_display_math. rewrite sub_display_math_block //.
    rewrite -!str_app_assoc /sub_inline_math (re_sub_delim_free "$" "") //.
    rewrite !free_of_app. simpl. repeat split; done.
  - intros pre x post Hpre Hx Hn Hne Hpost. unfold math_rewrite.
    rewrite /sub_display_math (re_sub_delim_free "$" "$") //.
    fold sub_display_math. rewrite sub_display_math_inline //.
    rewrite /sub_inline_math (re_sub_delim_free "$" "") //.
    fold sub_inline_math. rewrite sub_inline_math_block //.
  - intros t Ht.
    assert (math_rewrite t = t) as Hid.
    { unfold math_rewrite, sub_display_math, sub_inline_math.
      by rewrite !re_sub_delim_free_id. }
    by rewrite !Hid.
Qed.

Lemma math_rewrite_delimiters_witness :
  math_rewrite "<p>$$E=mc^2$$ and $x$.</p>" = "<p>\[E=mc^2\] and \(x\).</p>"
  ∧ math_rewrite "<p>no math</p>" = "<p>no math</p>".
Proof.
  destruct math_rewrite_delimiters as (Hd & Hi & Hid). split.
  - rewrite (Hd "<p>" "E=mc^2" " and $x$.</p>"); [| |done|];
      [|vm_compute; repeat split; discriminate..].
    rewrite (Hi " and " "x" ".</p>"); [| | |done|done|];
      [|vm_compute; repeat split; discriminate..].
    rewrite (proj1 (Hid ".</p>" _)); [done|].
    vm_compute; repeat split; discriminate.
  - apply Hid. vm_compute; repeat split; discriminate.
Defined.

(** C4 as stated fails when the content spans a line break: the dot of
    the pattern does not match a newline, the double-dollar pass skips
    the block, and the single-dollar pass rewrites each dollar pair. *)
Lemma math_rewrite_multiline_counterexample :
  let x := "a" +:+ Sample.nl +:+ "b" in
  math_rewrite ("$$" +:+ x +:+ "$$") = "\(\)" +:+ x +:+ "\(\)"
  ∧ math_rewrite ("$$" +:+ x +:+ "$$") ≠ "\[" +:+ x +:+ "\]".
Proof. split; [reflexivity|discriminate]. Qed.

(** ** Cell classifier: what happens to the store *)

Lemma evolves_refl S w : evolves S w w.
Proof. repeat split. intros l c Hl. exists c. done. Qed.

Lemma evolves_trans S w1 w2 w3 :
  evolves S w1 w2 → evolves S w2 w3 → evolves S w1 w3.
Proof.
  intros (Ht1 & Hl1 & H1) (Ht2 & Hl2 & H2).
  split; [congruence|]. split; [congruence|].
  intros l c Hc. destruct (H1 l c Hc) as (c' & Hc' & Hty & Ho & Hm & Hs).
  destruct (H2 l c' Hc') as (c'' & Hc'' & Hty' & Ho' & Hm' & Hs').
  exists c''. split; [done|]. split; [congruence|]. split; [congruence|].
  split; [congruence|]. intros Hcond.
  assert (c' = c) as -> by (by apply Hs). by apply Hs'.
Qed.

Lemma evolves_mono S S' w w' : S ⊆ S' → evolves S w w' → evolves S' w w'.
Proof.
  intros Hsub (Ht & Hl & H). split; [done|]. split; [done|].
  intros l c Hc. destruct (H l c Hc) as (c' & ? & ? & ? & ? & Hs).
  exists c'. repeat split; try done. intros [?|Hn]; apply Hs; [by left|].
  right. intros ?. apply Hn. by apply Hsub.
Qed.

Section Classifier.

Context (E : env).

Lemma deref_run l w c : heap w !! l = Some c → deref l w = (inr c, w).
Proof. unfold deref. by intros ->. Qed.

Lemma deref_world l w r w' : deref l w = (r, w') → w' = w.
Proof. unfold deref. destruct (heap w !! l); by intros [= _ <-]. Qed.

Lemma deref_inr l w c w' :
  deref l w = (inr c, w') → heap w !! l = Some c ∧ w' = w.
Proof. unfold deref. destruct (heap w !! l); by intros [= <- <-]. Qed.

Lemma for_each_deref_snd ls w : (for_each deref ls w).2 = w.
Proof.
  induction ls as [|l ls IH]; [done|]. simpl. unfold mbind at 1, M_bind at 1.
  destruct (deref l w) as [[e|c] w1] eqn:Hd; apply deref_world in Hd as ->;
    [done|].
  unfold mbind, M_bind. by destruct (for_each deref ls w) as [[e|cs] w2].
Qed.

Lemma for_each_deref_world ls w r w' :
  for_each deref ls w = (r, w') → w' = w.
Proof. intros H. by rewrite -(for_each_deref_snd ls w) H. Qed.

Lemma export_unit_to_html_world ls w r w' :
  export_unit_to_html E ls w = (r, w') → w' = w.
Proof.
  unfold export_unit_to_html, mbind, M_bind.
  destruct (for_each deref ls w) as [[e|cs] w1] eqn:Hd;
    apply for_each_deref_world in Hd as ->; [by intros [= _ <-]|].
  destruct (export_html E cs); simpl; by intros [= _ <-].
Qed.

Lemma rewrite_source_evolves l w r w' :
  rewrite_source l w = (r, w') → evolves [l] w w'.
Proof.
  unfold rewrite_source, mbind, M_bind, deref.
  destruct (heap w !! l) as [c|] eqn:Hl; [|intros [= _ <-]; apply evolves_refl].
  case_decide as Hmd; [|intros [= _ <-]; apply evolves_refl].
  intros [= _ <-]. split; [done|]. split; [by rewrite /= length_insert|].
  intros k ck Hk. simpl. destruct (decide (k = l)) as [->|Hne].
  - rewrite list_lookup_insert_eq; last by eapply lookup_lt_Some.
    rewrite Hl in Hk. injection Hk as <-.
    eexists. split; [done|]. repeat split; try done.
    intros [?|Hn]; [done|]. destruct Hn. by apply list_elem_of_singleton.
  - rewrite list_lookup_insert_ne //. exists ck. done.
Qed.

Lemma bind_evolves {A B} S (m : M A) (f : A → M B) w r w' :
  (∀ r1 w1, m w = (r1, w1) → evolves S w w1) →
  (∀ a w1 r2 w2, f a w1 = (r2, w2) → evolves S w1 w2) →
  (m ≫= f) w = (r, w') → evolves S w w'.
Proof.
  intros Hm Hf. unfold mbind, M_bind.
  destruct (m w) as [[e|a] w1] eqn:H1; specialize (Hm _ _ eq_refl).
  - by intros [= _ <-].
  - intros H2%Hf. by eapply evolves_trans.
Qed.

Lemma ret_evolves {A} S (a : A) w r w' :
  mret (M := M) a w = (r, w') → evolves S w w'.
Proof. intros [= _ <-]. apply evolves_refl. Qed.

Lemma raise_evolves {A} S e w r w' :
  raise (A := A) e w = (r, w') → evolves S w w'.
Proof. intros [= _ <-]. apply evolves_refl. Qed.

Lemma lift_option_evolves {A} S e (o : option A) w r w' :
  lift_option e o w = (r, w') → evolves S w w'.
Proof. destruct o; [apply ret_evolves|apply raise_evolves]. Qed.

Lemma deref_evolves S l w r w' : deref l w = (r, w') → evolves S w w'.
Proof. intros ->%deref_world. apply evolves_refl. Qed.

Lemma for_each_rewrite_source_evolves ls w r w' :
  for_each rewrite_source ls w = (r, w') → evolves ls w w'.
Proof.
  revert w r w'. induction ls as [|l ls IH]; intros w r w'; simpl.
  - apply ret_evolves.
  - apply bind_evolves.
    { intros r1 w1 H%rewrite_source_evolves.
      eapply evolves_mono; [|done]. set_solver. }
    intros [] w1 r2 w2. apply bind_evolves; [|intros; by eapply ret_evolves].
    intros r1 w3 H%IH. eapply evolves_mono; [|done]. set_solver.
Qed.

Lemma convert_normal_cells_evolves ls w r w' :
  convert_normal_cells E ls w = (r, w') → evolves ls w w'.
Proof.
  apply bind_evolves; [apply for_each_rewrite_source_evolves|].
  intros us w1 r2 w2 ->%export_unit_to_html_world. apply evolves_refl.
Qed.

Lemma flush_evolves out nc w r w' :
  flush E out nc w = (r, w') → evolves nc w w'.
Proof.
  unfold flush. destruct nc as [|l nc]; [apply ret_evolves|].
  apply bind_evolves; [apply convert_normal_cells_evolves|].
  intros; by eapply ret_evolves.
Qed.

Lemma convert_cells_evolves cells out nc w r w' :
  convert_cells E cells out nc w = (r, w') → evolves (nc ++ cells) w w'.
Proof.
  revert out nc w r w'. induction cells as [|l cells IH]; intros out nc w r w'.
  - rewrite app_nil_r. apply flush_evolves.
  - cbn [convert_cells]. apply bind_evolves; [apply deref_evolves|].
    intros c w1 r2 w2. case_decide as Hmd.
    { intros H%IH. by rewrite -assoc in H. }
    destruct (outputs c) as [outs|]; last first.
    { intros H%IH. eapply evolves_mono; [|done]. set_solver. }
    destruct (omap xml_component outs) as [|x xs] eqn:Hx.
    { intros H%IH. by rewrite -assoc in H. }
    case_decide as Hlen; [apply raise_evolves|].
    apply bind_evolves; [apply lift_option_evolves|].
    intros xml w3 r3 w4. apply bind_evolves.
    { intros r1 w5 Hf%flush_evolves. eapply evolves_mono; [|done]. set_solver. }
    intros out' w5 r4 w6 Hr%IH. eapply evolves_mono; [|done]. set_solver.
Qed.

Lemma bind_ext_run {A B} (m : M A) (f g : A → M B) w :
  (∀ a w1, m w = (inr a, w1) → f a w1 = g a w1) →
  (m ≫= f) w = (m ≫= g) w.
Proof.
  intros H. unfold mbind, M_bind. destruct (m w) as [[e|a] w1]; [done|].
  by apply H.
Qed.

Lemma evolves_lookup_fixed S w w' l c :
  evolves S w w' → heap w !! l = Some c → cell_type c ≠ "markdown" →
  heap w' !! l = Some c.
Proof.
  intros (_ & _ & H) Hl Hmd. destruct (H l c Hl) as (c' & Hc' & _ & _ & _ & Heq).
  rewrite Hc' Heq //. by left.
Qed.

Lemma evolves_lookup_outside S w w' l c :
  evolves S w w' → heap w !! l = Some c → l ∉ S → heap w' !! l = Some c.
Proof.
  intros (_ & _ & H) Hl Hmd. destruct (H l c Hl) as (c' & Hc' & _ & _ & _ & Heq).
  rewrite Hc' Heq //. by right.
Qed.

Lemma rewrite_source_exact l w u w' c :
  rewrite_source l w = (inr u, w') → heap w !! l = Some c →
  cell_type c = "markdown" →
  heap w' !! l = Some (set_source c (sub_equation (source c))).
Proof.
  intros H Hl Hmd. unfold rewrite_source in H.
  rewrite (bind_run _ _ _ _ _ (deref_run _ _ _ Hl)) decide_True // in H.
  unfold store in H. injection H as _ <-. simpl.
  rewrite list_lookup_insert_eq //. by eapply lookup_lt_Some.
Qed.

Lemma for_each_rewrite_source_exact ls w us w' :
  for_each rewrite_source ls w = (inr us, w') → NoDup ls →
  ∀ l c, l ∈ ls → heap w !! l = Some c → cell_type c = "markdown" →
    heap w' !! l = Some (set_source c (sub_equation (source c))).
Proof.
  revert w us. induction ls as [|a ls IH]; intros w us H Hnd l c Hin Hl Hmd.
  { by apply elem_of_nil in Hin. }
  simpl in H. apply bind_inr in H as (u & w1 & Ha & H).
  apply bind_inr in H as (us' & w2 & Hls & [= <- <-]).
  apply NoDup_cons in Hnd as [Hna Hnd].
  pose proof (rewrite_source_evolves _ _ _ _ Ha) as Hev1.
  pose proof (for_each_rewrite_source_evolves _ _ _ _ Hls) as Hev2.
  apply elem_of_cons in Hin as [->|Hin].
  - eapply evolves_lookup_outside; [done| |done].
    by eapply rewrite_source_exact.
  - eapply IH; try done. eapply evolves_lookup_outside; [done..|].
    intros ->%list_elem_of_singleton. done.
Qed.

Lemma flush_exact out nc w r w' :
  flush E out nc w = (inr r, w') → NoDup nc →
  ∀ l c, l ∈ nc → heap w !! l = Some c → cell_type c = "markdown" →
    heap w' !! l = Some (set_source c (sub_equation (source c))).
Proof.
  unfold flush. destruct nc as [|a nc]; [by intros _ _ l c ?%elem_of_nil|].
  intros (html & w1 & H & [= <- <-])%bind_inr Hnd l c Hin Hl Hmd.
  unfold convert_normal_cells in H.
  apply bind_inr in H as (us & w2 & H & ->%export_unit_to_html_world).
  by eapply for_each_rewrite_source_exact.
Qed.

Lemma convert_cells_exact cells out nc w r w' :
  convert_cells E cells out nc w = (inr r, w') → NoDup (nc ++ cells) →
  ∀ l c, l ∈ nc ++ cells → heap w !! l = Some c → cell_type c = "markdown" →
    heap w' !! l = Some (set_source c (sub_equation (source c))).
Proof.
  revert out nc w. induction cells as [|a cells IH]; intros out nc w.
  { rewrite app_nil_r. apply flush_exact. }
  cbn [convert_cells].
  intros (ca & w1 & [Ha ->]%deref_inr & H)%bind_inr Hnd l c Hin Hl Hmd.
  case_decide as Hmda.
  { eapply IH; try done; by rewrite -assoc. }
  assert (l ≠ a) as Hla by (intros ->; congruence).
  assert (NoDup (nc ++ cells) ∧ l ∈ nc ++ cells) as [Hnd' Hin'].
  { apply NoDup_app in Hnd as (? & Hd & [? ?]%NoDup_cons). split.
    - apply NoDup_app. repeat split; [done| |done]. intros x ? ?.
      eapply Hd; [done|]. by right.
    - set_solver. }
  destruct (outputs ca) as [outs|]; last by eapply IH.
  destruct (omap xml_component outs) as [|x xs] eqn:Hx.
  { eapply IH; try done; [by rewrite -assoc|]. set_solver. }
  case_decide as Hlen; [done|].
  apply bind_inr in H as (xml & w2 & [_ ->]%lift_option_inr & H).
  apply bind_inr in H as (out' & w3 & Hf & H).
  pose proof (flush_evolves _ _ _ _ _ Hf) as Hev1.
  pose proof (convert_cells_evolves _ _ _ _ _ _ H) as Hev2.
  apply NoDup_app in Hnd' as (Hnc & Hdisj & Hcells).
  apply elem_of_app in Hin' as [Hin'|Hin'].
  - eapply evolves_lookup_outside; [done| |by apply Hdisj].
    by eapply flush_exact.
  - eapply (IH _ []); try done.
    eapply evolves_lookup_outside; [done..|]. intros ?. by eapply Hdisj.
Qed.

(** A block without an [outputs] attribute is passed over: the run is
    the run on the other blocks. *)
Lemma convert_cells_skip pre l post out nc w c :
  heap w !! l = Some c → cell_type c ≠ "markdown" → outputs c = None →
  convert_cells E (pre ++ l :: post) out nc w
  = convert_cells E (pre ++ post) out nc w.
Proof.
  intros Hl Hmd Ho. revert out nc w Hl.
  induction pre as [|a pre IH]; intros out nc w Hl.
  - cbn [app convert_cells]. rewrite (bind_run _ _ _ _ _ (deref_run _ _ _ Hl)).
    by rewrite decide_False // Ho.
  - cbn [app convert_cells]. apply bind_ext_run.
    intros ca w1 [_ ->]%deref_inr. case_decide; [by apply IH|].
    destruct (outputs ca) as [outs|]; [|by apply IH].
    destruct (omap xml_component outs) as [|x xs]; [by apply IH|].
    case_decide; [done|]. apply bind_ext_run. intros xml w2 [_ ->]%lift_option_inr.
    apply bind_ext_run. intros out' w3 Hf%flush_evolves. apply IH.
    by eapply evolves_lookup_fixed.
Qed.

Lemma bind_fails {A B} (m : M A) (f : A → M B) w :
  (∀ a w1, m w = (inr a, w1) → ∃ e w', f a w1 = (inl e, w')) →
  ∃ e w', (m ≫= f) w = (inl e, w').
Proof.
  intros H. unfold mbind, M_bind. destruct (m w) as [[e|a] w1]; [eauto|].
  by apply H.
Qed.

Lemma convert_cells_multiple_here l post out nc w c outs :
  heap w !! l = Some c → cell_type c ≠ "markdown" → outputs c = Some outs →
  1 < length (omap xml_component outs) →
  convert_cells E (l :: post) out nc w
  = (inl (RuntimeError "More than 1 xml component in a cell."), w).
Proof.
  intros Hl Hmd Ho Hlen. cbn [convert_cells].
  rewrite (bind_run _ _ _ _ _ (deref_run _ _ _ Hl)) decide_False // Ho.
  destruct (omap xml_component outs) as [|x xs]; [simpl in Hlen; lia|].
  by rewrite decide_True.
Qed.

(** A block with more than one component stops the run. *)
Lemma convert_cells_multiple_fails pre l post out nc w c outs :
  heap w !! l = Some c → cell_type c ≠ "markdown" → outputs c = Some outs →
  1 < length (omap xml_component outs) →
  ∃ e w', convert_cells E (pre ++ l :: post) out nc w = (inl e, w').
Proof.
  intros Hl Hmd Ho Hlen. revert out nc w Hl.
  induction pre as [|a pre IH]; intros out nc w Hl.
  { cbn [app]. erewrite convert_cells_multiple_here; eauto. }
  cbn [app convert_cells]. apply bind_fails.
  intros ca w1 [_ ->]%deref_inr. case_decide; [by apply IH|].
  destruct (outputs ca) as [os|]; [|by apply IH].
  destruct (omap xml_component os) as [|x xs]; [by apply IH|].
  case_decide; [by eexists _, _|]. apply bind_fails.
  intros xml w2 [_ ->]%lift_option_inr. apply bind_fails.
  intros out' w3 Hf%flush_evolves. apply IH. by eapply evolves_lookup_fixed.
Qed.

(** When the blocks before it are converted without error, the error is
    the one raised for the block. *)
Lemma convert_cells_multiple_error pre l post out nc w c outs r w1 :
  heap w !! l = Some c → cell_type c ≠ "markdown" → outputs c = Some outs →
  1 < length (omap xml_component outs) →
  convert_cells E pre out nc w = (inr r, w1) →
  ∃ w', convert_cells E (pre ++ l :: post) out nc w
        = (inl (RuntimeError "More than 1 xml component in a cell."), w').
Proof.
  intros Hl Hmd Ho Hlen. revert out nc w Hl.
  induction pre as [|a pre IH]; intros out nc w Hl.
  { intros _. cbn [app]. erewrite convert_cells_multiple_here; eauto. }
  cbn [app convert_cells].
  intros (ca & w2 & Ha & H)%bind_inr. rewrite (bind_run _ _ _ _ _ Ha).
  apply deref_inr in Ha as [_ ->]. case_decide; [by eapply IH|].
  destruct (outputs ca) as [os|]; [|by eapply IH].
  destruct (omap xml_component os) as [|x xs]; [by eapply IH|].
  case_decide; [done|].
  apply bind_inr in H as (xml & w3 & Hx & H). rewrite (bind_run _ _ _ _ _ Hx).
  apply lift_option_inr in Hx as [_ ->].
  apply bind_inr in H as (out' & w4 & Hf & H). rewrite (bind_run _ _ _ _ _ Hf).
  eapply IH; [|done]. apply flush_evolves in Hf.
  by eapply evolves_lookup_fixed.
Qed.

End Classifier.

(** ** Unit splitter *)

Lemma extends_refl w : extends w w.
Proof. split; [done|]. exists []. by rewrite app_nil_r. Qed.

Lemma extends_trans w1 w2 w3 : extends w1 w2 → extends w2 w3 → extends w1 w3.
Proof.
  intros [Ht1 [n1 H1]] [Ht2 [n2 H2]]. split; [congruence|].
  exists (n1 ++ n2). by rewrite H2 H1 -assoc.
Qed.

Lemma extends_lookup w w' l c :
  extends w w' → heap w !! l = Some c → heap w' !! l = Some c.
Proof. intros [_ [new ->]] Hl. by apply lookup_app_l_Some. Qed.

Lemma derefs_extends w w' ls cs : extends w w' → derefs w ls cs → derefs w' ls cs.
Proof.
  intros Hext H. eapply Forall2_impl; [exact H|].
  intros l c Hl. by eapply extends_lookup.
Qed.

Lemma derefs_app w ls1 ls2 cs1 cs2 :
  derefs w ls1 cs1 → derefs w ls2 cs2 → derefs w (ls1 ++ ls2) (cs1 ++ cs2).
Proof. apply Forall2_app. Qed.

Lemma bind_extends {A B} (m : M A) (f : A → M B) w r w' :
  (∀ r1 w1, m w = (r1, w1) → extends w w1) →
  (∀ a w1 r2 w2, f a w1 = (r2, w2) → extends w1 w2) →
  (m ≫= f) w = (r, w') → extends w w'.
Proof.
  intros Hm Hf. unfold mbind, M_bind.
  destruct (m w) as [[e|a] w1] eqn:H1; specialize (Hm _ _ eq_refl).
  - by intros [= _ <-].
  - intros H2%Hf. by eapply extends_trans.
Qed.

Lemma alloc_extends c w r w' : alloc c w = (r, w') → extends w w'.
Proof. intros [= _ <-]. split; [done|]. by exists [c]. Qed.

Lemma for_each_alloc_run {A} (f : A → cell) xs w :
  for_each (λ x, alloc (f x)) xs w
  = (inr (seq (length (heap w)) (length xs)),
     {| heap := heap w ++ (f <$> xs); trace := trace w |}).
Proof.
  revert w. induction xs as [|x xs IH]; intros w; simpl.
  - rewrite app_nil_r. by destruct w.
  - unfold mbind at 1, M_bind at 1. simpl. rewrite (bind_run _ _ _ _ _ (IH _)).
    simpl. rewrite length_app /= Nat.add_1_r -assoc //.
Qed.

Lemma derefs_seq h cs t :
  derefs {| heap := h ++ cs; trace := t |} (seq (length h) (length cs)) cs.
Proof.
  apply Forall2_same_length_lookup. split; [by rewrite length_seq|].
  intros i l c [-> Hi]%lookup_seq Hc. simpl.
  rewrite lookup_app_r; last lia.
  by replace (length h + i - length h) with i by lia.
Qed.

Section Splitter.

Context (E : env).

Lemma nbformat_read_run file cs w :
  read_cells E file = Some cs →
  nbformat_read E file w
  = (inr (seq (length (heap w)) (length cs)),
     {| heap := heap w ++ cs; trace := trace w |}).
Proof.
  intros H. unfold nbformat_read. rewrite H /=.
  rewrite (bind_run _ _ _ _ _ (ret_run _ _)).
  by rewrite (for_each_alloc_run id) list_fmap_id.
Qed.

Lemma nbformat_read_extends file w r w' :
  nbformat_read E file w = (r, w') → extends w w'.
Proof.
  unfold nbformat_read. destruct (read_cells E file) as [cs|] eqn:H.
  - rewrite /= (bind_run _ _ _ _ _ (ret_run _ _)) (for_each_alloc_run id).
    intros [= _ <-]. split; [done|]. by eexists.
  - intros [= _ <-]. apply extends_refl.
Qed.

Lemma dropwhile_not_markdown_run ls cs w :
  derefs w ls cs →
  ∃ ls', dropwhile_not_markdown ls w = (inr ls', w)
         ∧ derefs w ls' (skip_to_markdown cs).
Proof.
  induction 1 as [|l c ls cs Hl H IH]; simpl.
  - exists []. split; [done|constructor].
  - rewrite (bind_run _ _ _ _ _ (deref_run _ _ _ Hl)). case_decide.
    + exact IH.
    + exists (l :: ls). split; [done|]. by constructor.
Qed.

Lemma dropwhile_not_markdown_world ls w r w' :
  dropwhile_not_markdown ls w = (r, w') → w' = w.
Proof.
  revert r. induction ls as [|l ls IH]; intros r; simpl; [by intros [= _ <-]|].
  unfold mbind, M_bind. destruct (deref l w) as [[e|c] w1] eqn:Hd;
    apply deref_world in Hd as ->; [by intros [= _ <-]|].
  case_decide; [apply IH|by intros [= _ <-]].
Qed.

Lemma split_cell_run l c w :
  heap w !! l = Some c →
  ∃ ls' w', split_cell l w = (inr ls', w') ∧ extends w w'
            ∧ derefs w' ls' (pieces c).
Proof.
  intros Hl. unfold split_cell, pieces.
  rewrite (bind_run _ _ _ _ _ (deref_run _ _ _ Hl)). case_decide.
  - exists [l], w. split; [done|]. split; [apply extends_refl|].
    by repeat constructor.
  - rewrite for_each_alloc_run. eexists _, _. split; [done|]. split.
    + split; [done|]. by eexists.
    + rewrite -(length_fmap markdown_node). apply derefs_seq.
Qed.

Lemma split_cell_extends l w r w' : split_cell l w = (r, w') → extends w w'.
Proof.
  unfold split_cell. apply bind_extends.
  { intros r1 w1 ->%deref_world. apply extends_refl. }
  intros c w1 r2 w2. case_decide; [intros [= _ <-]; apply extends_refl|].
  rewrite for_each_alloc_run. intros [= _ <-]. split; [done|]. by eexists.
Qed.

Lemma for_each_split_cell_run ls cs w :
  derefs w ls cs →
  ∃ lss w', for_each split_cell ls w = (inr lss, w') ∧ extends w w'
            ∧ derefs w' (concat lss) (cs ≫= pieces).
Proof.
  intros H. revert cs w H. induction ls as [|l ls IH]; intros cs w H.
  - apply Forall2_nil_inv_l in H as ->. exists [], w.
    split; [done|]. split; [apply extends_refl|constructor].
  - apply Forall2_cons_inv_l in H as (c & cs' & Hl & H & ->).
    destruct (split_cell_run l c w Hl) as (ls1 & w1 & Hrun1 & Hext1 & Hd1).
    destruct (IH _ w1 (derefs_extends _ _ _ _ Hext1 H))
      as (lss & w2 & Hrun2 & Hext2 & Hd2).
    exists (ls1 :: lss), w2. split; [|split].
    + simpl. by rewrite (bind_run _ _ _ _ _ Hrun1) (bind_run _ _ _ _ _ Hrun2).
    + by eapply extends_trans.
    + simpl. apply derefs_app; [|done]. by eapply derefs_extends.
Qed.

Lemma for_each_split_cell_extends ls w r w' :
  for_each split_cell ls w = (r, w') → extends w w'.
Proof.
  revert w r w'. induction ls as [|l ls IH]; intros w r w'; simpl.
  - intros [= _ <-]. apply extends_refl.
  - apply bind_extends; [apply split_cell_extends|].
    intros ls1 w1 r2 w2. apply bind_extends; [apply IH|].
    intros lss w3 r3 w4 [= _ <-]. apply extends_refl.
Qed.

(** The generator yields references to the block stream of the
    document. *)
Lemma split_cells_run ls cs w :
  derefs w ls cs →
  ∃ stream w', split_cells ls w = (inr stream, w') ∧ extends w w'
               ∧ derefs w' stream (block_stream cs).
Proof.
  intros H. destruct (dropwhile_not_markdown_run _ _ _ H) as (ls' & Hrun1 & Hd1).
  destruct (for_each_split_cell_run _ _ _ Hd1) as (lss & w' & Hrun2 & Hext & Hd2).
  exists (concat lss), w'. split; [|done]. unfold split_cells.
  by rewrite (bind_run _ _ _ _ _ Hrun1) (bind_run _ _ _ _ _ Hrun2).
Qed.

Lemma split_cells_extends ls w r w' :
  split_cells ls w = (r, w') → extends w w'.
Proof.
  unfold split_cells. apply bind_extends.
  { intros r1 w1 ->%dropwhile_not_markdown_world. apply extends_refl. }
  intros ls' w1 r2 w2. apply bind_extends; [apply for_each_split_cell_extends|].
  intros lss w3 r3 w4 [= _ <-]. apply extends_refl.
Qed.

End Splitter.

(** *** Headings in the block stream *)

Lemma is_heading_two a b s t :
  is_heading (String a (String b s)) = is_heading (String a (String b t)).
Proof.
  unfold is_heading, Str.startswith. simpl.
  repeat case_decide; reflexivity.
Qed.

Lemma is_heading_app_newline cur t :
  is_heading cur = false → is_heading (cur +:+ String Str.newline t) = false.
Proof.
  destruct cur as [|a [|b cur]]; intros H.
  - reflexivity.
  - unfold is_heading, Str.startswith. simpl. by case_decide.
  - rewrite !str_app_cons. by rewrite (is_heading_two _ _ _ cur).
Qed.

Lemma filter_split_headings_go (cur : string) (first : bool) lines :
  (if first then cur = "" else is_heading cur = false) →
  filter (λ s : string, is_heading s = true) (split_headings_go cur first lines)
  = filter (λ s : string, is_heading s = true) lines.
Proof.
  revert cur first. induction lines as [|l lines IH]; intros cur first Hcur.
  - simpl. rewrite filter_cons_False //.
    destruct first; [by subst|]. by rewrite Hcur.
  - cbn [split_headings_go].
    assert (is_heading (if first then cur else cur +:+ String Str.newline "")
            = false) as Hcur'.
    { destruct first; [by subst|]. by apply is_heading_app_newline. }
    destruct (is_heading l) eqn:Hl.
    + rewrite filter_cons_False; last by rewrite Hcur'.
      rewrite !filter_cons_True //. f_equal. by apply IH.
    + rewrite (filter_cons_False _ l); last by rewrite Hl. apply IH.
      destruct first; [by subst|].
      rewrite str_app_assoc str_app_cons str_app_nil_l.
      by apply is_heading_app_newline.
Qed.

Lemma filter_re_split_headings s :
  filter (λ s : string, is_heading s = true) (re_split_headings s)
  = filter (λ s : string, is_heading s = true) (Str.split_lines s).
Proof. by apply filter_split_headings_go. Qed.

Lemma filter_markdown_nodes (ps : list string) :
  filter (λ c : cell, is_heading_block c = true) (markdown_node <$> ps)
  = markdown_node <$> filter (λ s : string, is_heading s = true) ps.
Proof.
  induction ps as [|p ps IH]; [done|]. rewrite fmap_cons.
  destruct (is_heading p) eqn:Hp.
  - rewrite !filter_cons_True //. by rewrite fmap_cons IH.
  - rewrite !filter_cons_False ?Hp //.
    unfold is_heading_block. simpl. fold (is_heading p). by rewrite Hp.
Qed.

Lemma filter_pieces (cs : list cell) :
  filter (λ c : cell, is_heading_block c = true) (cs ≫= pieces)
  = markdown_node <$> heading_lines cs.
Proof.
  unfold heading_lines. induction cs as [|c cs IH]; [done|].
  rewrite !bind_cons filter_app fmap_app IH. f_equal.
  unfold pieces. case_decide as Hmd.
  - rewrite decide_False // filter_cons_False //.
    unfold is_heading_block. by rewrite bool_decide_false.
  - rewrite decide_True; last by destruct (decide (cell_type c = "markdown")).
    by rewrite filter_markdown_nodes filter_re_split_headings.
Qed.

Lemma heading_lines_skip (cs : list cell) :
  heading_lines (skip_to_markdown cs) = heading_lines cs.
Proof.
  unfold heading_lines. induction cs as [|c cs IH]; [done|].
  cbn [skip_to_markdown]. case_decide; [|done].
  by rewrite IH bind_cons decide_False.
Qed.

(** The heading blocks of the stream are the heading lines of the
    document, in order. *)
Lemma filter_block_stream (cs : list cell) :
  filter (λ c : cell, is_heading_block c = true) (block_stream cs)
  = markdown_node <$> heading_lines cs.
Proof. by rewrite /block_stream filter_pieces heading_lines_skip. Qed.

Lemma filter_nil_Forall {A} (P : A → Prop) `{∀ x, Decision (P x)} (l : list A) :
  filter P l = [] → Forall (λ x, ¬ P x) l.
Proof.
  induction l as [|x l IH]; [constructor|].
  destruct (decide (P x)).
  - by rewrite filter_cons_True.
  - rewrite filter_cons_False //. intros ?%IH. by constructor.
Qed.

Lemma filter_cons_split {A} (P : A → Prop) `{∀ x, Decision (P x)}
    (l : list A) x t :
  filter P l = x :: t →
  ∃ pre rest, l = pre ++ x :: rest ∧ Forall (λ x, ¬ P x) pre ∧ filter P rest = t.
Proof.
  induction l as [|y l IH]; [done|].
  destruct (decide (P y)).
  - rewrite filter_cons_True //. intros [= -> <-]. by exists [], l.
  - rewrite filter_cons_False //. intros (pre & rest & -> & Hpre & Hrest)%IH.
    exists (y :: pre), rest. split; [done|]. split; [by constructor|done].
Qed.

(** *** Collecting the units *)

Section Collect.

Context (E : env).

Lemma append_to_last_snoc l us u :
  append_to_last l (us ++ [u])
  = us ++ [{| nb_name := nb_name u; nb_cells := nb_cells u ++ [l] |}].
Proof.
  induction us as [|u' us IH]; [done|]. simpl. rewrite IH.
  by destruct (us ++ [u]) eqn:Hus; [destruct us|].
Qed.

Lemma collect_units_world ih ls us w r w' :
  collect_units ih ls us w = (r, w') → w' = w.
Proof.
  revert us r. induction ls as [|l ls IH]; intros us r; simpl.
  { by intros [= _ <-]. }
  unfold mbind at 1, M_bind at 1.
  destruct (deref l w) as [[e|c] w1] eqn:Hd; apply deref_world in Hd as ->;
    [by intros [= _ <-]|].
  destruct (_ && _).
  - unfold mbind, M_bind. destruct (re_match_heading (source c)); simpl.
    + apply IH.
    + by intros [= _ <-].
  - destruct us; apply IH.
Qed.

Lemma collect_units_heading ih l rest us w c name :
  heap w !! l = Some c → is_heading_block c = true →
  re_match_heading (source c) = Some name →
  collect_units ih (l :: rest) us w
  = collect_units ih rest
      (us ++ [{| nb_name := name; nb_cells := if ih then [l] else [] |}]) w.
Proof.
  intros Hl Hh Hname. cbn [collect_units].
  rewrite (bind_run _ _ _ _ _ (deref_run _ _ _ Hl)).
  unfold is_heading_block in Hh. rewrite Hh Hname /=.
  rewrite (bind_run _ _ _ _ _ (ret_run _ _)).
  destruct ih; [|done]. by rewrite append_to_last_snoc.
Qed.

Lemma collect_units_block ih l rest us w c :
  heap w !! l = Some c → is_heading_block c = false →
  collect_units ih (l :: rest) us w
  = collect_units ih rest (append_to_last l us) w.
Proof.
  intros Hl Hh. cbn [collect_units].
  rewrite (bind_run _ _ _ _ _ (deref_run _ _ _ Hl)).
  unfold is_heading_block in Hh. rewrite Hh. by destruct us.
Qed.

(** Blocks met before any heading are dropped. *)
Lemma collect_units_preamble ih ls cs rest w :
  derefs w ls cs → Forall (λ c, is_heading_block c = false) cs →
  collect_units ih (ls ++ rest) [] w = collect_units ih rest [] w.
Proof.
  induction 1 as [|l c ls cs Hl H IH]; [done|].
  intros [Hc Hcs]%Forall_cons. cbn [app].
  erewrite collect_units_block; [|done..]. by apply IH.
Qed.

(** Blocks met after a heading join the unit it opened. *)
Lemma collect_units_body ih ls cs rest us u w :
  derefs w ls cs → Forall (λ c, is_heading_block c = false) cs →
  collect_units ih (ls ++ rest) (us ++ [u]) w
  = collect_units ih rest
      (us ++ [{| nb_name := nb_name u; nb_cells := nb_cells u ++ ls |}]) w.
Proof.
  intros H. revert u. induction H as [|l c ls cs Hl H IH]; intros u.
  { intros _. rewrite app_nil_r. by destruct u. }
  intros [Hc Hcs]%Forall_cons. cbn [app].
  erewrite collect_units_block; [|done..].
  rewrite append_to_last_snoc IH //=. by rewrite -assoc.
Qed.

End Collect.

Lemma split_into_units_extends E file ih w r w' :
  split_into_units E file ih w = (r, w') → extends w w'.
Proof.
  unfold split_into_units. apply bind_extends; [apply nbformat_read_extends|].
  intros nb w1 r2 w2. apply bind_extends; [apply split_cells_extends|].
  intros cells w3 r3 w4 ->%collect_units_world. apply extends_refl.
Qed.

(** C2: a document whose heading lines are exactly "# A" and "# B" is
    split into exactly two units, named A and B. The blocks walked over
    are some blocks before the first heading, the heading A, the blocks
    [a], the heading B and the blocks [b]; unit A holds [a], unit B holds
    [b] (each after its own heading block when headers are included), and
    the blocks before the first heading are in no unit. *)
Theorem split_two_headings E file ih w cs :
  read_cells E file = Some cs →
  heading_lines cs = ["# A"; "# B"] →
  ∃ ua ub w' pre a b,
    split_into_units E file ih w = (inr [ua; ub], w')
    ∧ nb_name ua = "A" ∧ nb_name ub = "B"
    ∧ block_stream cs
      = pre ++ markdown_node "# A" :: a ++ markdown_node "# B" :: b
    ∧ Forall (λ c, is_heading_block c = false) (pre ++ a ++ b)
    ∧ derefs w' (nb_cells ua)
        ((if ih then [markdown_node "# A"] else []) ++ a)
    ∧ derefs w' (nb_cells ub)
        ((if ih then [markdown_node "# B"] else []) ++ b).
Proof.
  intros Hread Hlines.
  pose proof (filter_block_stream cs) as Hf. rewrite Hlines in Hf.
  apply filter_cons_split in Hf as (pre & rest & Hstream & Hpre & Hf).
  apply filter_cons_split in Hf as (a & b & -> & Ha & Hb%filter_nil_Forall).
  assert (Hnot : ∀ l, Forall (λ c : cell, ¬ is_heading_block c = true) l →
                      Forall (λ c, is_heading_block c = false) l).
  { intros l Hl. eapply Forall_impl; [exact Hl|].
    intros c Hc. by apply not_true_is_false. }
  apply Hnot in Hpre, Ha, Hb.
  set (w1 := {| heap := heap w ++ cs; trace := trace w |}).
  destruct (split_cells_run (seq (length (heap w)) (length cs)) cs w1)
    as (stream & w2 & Hsplit & Hext & Hd); [apply derefs_seq|].
  rewrite Hstream in Hd.
  apply Forall2_app_inv_r in Hd as (spre & s1 & Hdpre & Hd & ->).
  apply Forall2_cons_inv_r in Hd as (la & s2 & Hla & Hd & ->).
  apply Forall2_app_inv_r in Hd as (sa & s3 & Hda & Hd & ->).
  apply Forall2_cons_inv_r in Hd as (lb & sb & Hlb & Hdb & ->).
  exists {| nb_name := "A"; nb_cells := (if ih then [la] else []) ++ sa |},
         {| nb_name := "B"; nb_cells := (if ih then [lb] else []) ++ sb |},
         w2, pre, a, b.
  split.
  { unfold split_into_units.
    rewrite (bind_run _ _ _ _ _ (nbformat_read_run E _ _ _ Hread)).
    fold w1. rewrite (bind_run _ _ _ _ _ Hsplit).
    rewrite (collect_units_preamble _ _ _ _ _ Hdpre Hpre).
    rewrite (collect_units_heading _ _ _ _ _ _ "A" Hla) //.
    rewrite (collect_units_body _ _ _ _ [] _ _ Hda Ha).
    rewrite (collect_units_heading _ _ _ _ _ _ "B" Hlb) //.
    rewrite -(app_nil_r sb).
    rewrite (collect_units_body _ _ _ _ [_] _ _ Hdb Hb). simpl.
    by rewrite !app_nil_r. }
  split; [done|]. split; [done|]. split; [done|].
  split; [by rewrite !Forall_app|].
  simpl. split; (apply derefs_app; [|done]); destruct ih; by repeat constructor.
Qed.

Lemma split_two_headings_witness :
  ∃ ua ub w',
    split_into_units
      (Sample.make_env
         [("doc.ipynb",
           [Sample.code [Sample.png];
            Sample.md (Sample.unlines ["preamble"; "# A"; "one"]);
            Sample.code [Sample.png];
            Sample.md (Sample.unlines ["# B"; "two"])])] [] [])
      "doc.ipynb" false Sample.empty_world
    = (inr [ua; ub], w')
    ∧ nb_name ua = "A" ∧ nb_name ub = "B".
Proof.
  destruct (split_two_headings
    (Sample.make_env
         [("doc.ipynb",
           [Sample.code [Sample.png];
            Sample.md (Sample.unlines ["preamble"; "# A"; "one"]);
            Sample.code [Sample.png];
            Sample.md (Sample.unlines ["# B"; "two"])])] [] [])
    "doc.ipynb" false Sample.empty_world _ eq_refl eq_refl)
    as (ua & ub & w' & pre & a & b & H & Ha & Hb & _).
  by exists ua, ub, w'.
Defined.

(** ** The equation pass on a text without markers *)

Lemma sub_equation_free s : free_of "\" s → sub_equation s = s.
Proof.
  assert (Hgen : ∀ kw repl, re_sub (match_env (String "\" kw) repl) s = s
                            ∨ ¬ free_of "\" s).
  { intros kw repl. induction s as [|c s IH]; [by left|].
    destruct (decide (c = "\"%char)) as [->|Hc]; [right; by intros [? _]|].
    destruct IH as [IH|IH]; [left|right; by intros [_ ?]].
    rewrite re_sub_skip ?IH //. unfold match_env. simpl.
    by rewrite decide_False. }
  intros Hs. unfold sub_equation, sub_begin_equation, sub_end_equation.
  destruct (Hgen "begin{" "\[") as [->|]; [|done].
  by destruct (Hgen "end{" "\]") as [->|].
Qed.

(** ** Whole runs *)

(** Loops keep whatever every round keeps. *)
Section Relation.

Context (R : world → world → Prop).
Context (R_refl : ∀ w, R w w) (R_trans : ∀ w1 w2 w3, R w1 w2 → R w2 w3 → R w1 w3).

Lemma bind_rel {A B} (m : M A) (f : A → M B) w r w' :
  (∀ r1 w1, m w = (r1, w1) → R w w1) →
  (∀ a w1 r2 w2, f a w1 = (r2, w2) → R w1 w2) →
  (m ≫= f) w = (r, w') → R w w'.
Proof using R_trans.
  intros Hm Hf. unfold mbind, M_bind.
  destruct (m w) as [[e|a] w1] eqn:H1; specialize (Hm _ _ eq_refl).
  - by intros [= _ <-].
  - intros H2%Hf. by eapply R_trans.
Qed.

Lemma ret_rel {A} (a : A) w r w' : mret (M := M) a w = (r, w') → R w w'.
Proof using R_refl. intros [= _ <-]. apply R_refl. Qed.

Lemma lift_option_rel {A} e (o : option A) w r w' :
  lift_option e o w = (r, w') → R w w'.
Proof using R_refl. destruct o; intros [= _ <-]; apply R_refl. Qed.

Lemma for_each_rel {A B} (f : A → M B) l w r w' :
  (∀ x w r w', f x w = (r, w') → R w w') →
  for_each f l w = (r, w') → R w w'.
Proof using R_refl R_trans.
  intros Hf. revert w r w'. induction l as [|x l IH]; intros w r w'; simpl.
  - apply ret_rel.
  - apply bind_rel; [apply Hf|]. intros y w1 r2 w2.
    apply bind_rel; [apply IH|]. intros; by eapply ret_rel.
Qed.

Lemma for_each_i_rel {A B} (f : nat → A → M B) i l w r w' :
  (∀ k x w r w', f k x w = (r, w') → R w w') →
  for_each_i f i l w = (r, w') → R w w'.
Proof using R_refl R_trans.
  intros Hf. revert i w r w'. induction l as [|x l IH]; intros i w r w'; simpl.
  - apply ret_rel.
  - apply bind_rel; [apply Hf|]. intros y w1 r2 w2.
    apply bind_rel; [apply IH|]. intros; by eapply ret_rel.
Qed.

End Relation.

(** A loop stops at a round that fails whatever the state it starts
    from, as long as the rounds before it keep [I]. *)
Lemma for_each_i_fails {A B} (I : world → Prop) (f : nat → A → M B) l x i w :
  x ∈ l → I w →
  (∀ k y w r w', f k y w = (r, w') → I w → I w') →
  (∀ k w, I w → ∃ e w', f k x w = (inl e, w')) →
  ∃ e w', for_each_i f i l w = (inl e, w').
Proof.
  intros Hin HI Hkeep Hfail. revert i w HI.
  induction l as [|y l IH]; intros i w HI; [by apply elem_of_nil in Hin|].
  simpl. apply bind_fails. intros b w1 Hy.
  apply elem_of_cons in Hin as [->|Hin].
  { destruct (Hfail i w HI) as (e & w' & He). congruence. }
  apply bind_fails. intros bs w2 Hl.
  destruct (IH Hin (S i) w1) as (e & w' & He); [by eapply Hkeep|congruence].
Qed.

Lemma for_each_fails {A B} (f : A → M B) l x w :
  x ∈ l → (∀ w, ∃ e w', f x w = (inl e, w')) →
  ∃ e w', for_each f l w = (inl e, w').
Proof.
  intros Hin Hfail. revert w.
  induction l as [|y l IH]; intros w; [by apply elem_of_nil in Hin|].
  simpl. apply bind_fails. intros b w1 Hy.
  apply elem_of_cons in Hin as [->|Hin].
  { destruct (Hfail w) as (e & w' & He). congruence. }
  apply bind_fails. intros bs w2 Hl.
  destruct (IH Hin w1) as (e & w' & He). congruence.
Qed.

Lemma writes_only_refl w : writes_only w w.
Proof. exists []. by rewrite app_nil_r. Qed.

Lemma writes_only_trans w1 w2 w3 :
  writes_only w1 w2 → writes_only w2 w3 → writes_only w1 w3.
Proof.
  intros (e1 & H1 & F1) (e2 & H2 & F2). exists (e1 ++ e2).
  split; [by rewrite H2 H1 -assoc|]. by apply Forall_app.
Qed.

Lemma writes_only_same w w' : trace w' = trace w → writes_only w w'.
Proof. intros H. exists []. by rewrite app_nil_r. Qed.

Section Runs.

Context (E : env).

Lemma save_html_writes body path w r w' :
  save_html body path w = (r, w') → writes_only w w' ∧ heap w' = heap w.
Proof.
  intros [= _ <-]. split; [|done]. exists [WriteFile path body].
  split; [done|]. repeat constructor. by eexists _, _.
Qed.

Lemma add_output_writes hf vurl name j out w r w' :
  add_output E hf vurl name j out w = (r, w') →
  writes_only w w' ∧ heap w' = heap w.
Proof.
  unfold add_output. destruct out as [body|xml].
  - unfold mbind, M_bind.
    destruct (save_html body _ w) as [[e|[]] w1] eqn:H1;
      apply save_html_writes in H1 as [H1 Hh1]; [by intros [= _ <-]|].
    destruct (save_html _ _ w1) as [[e|[]] w2] eqn:H2;
      apply save_html_writes in H2 as [H2 Hh2]; intros [= _ <-];
      (split; [by eapply writes_only_trans|congruence]).
  - intros [= _ <-]. split; [apply writes_only_refl|done].
Qed.

Lemma for_each_i_add_output_writes hf vurl name i outs w r w' :
  for_each_i (add_output E hf vurl name) i outs w = (r, w') →
  writes_only w w' ∧ heap w' = heap w.
Proof.
  apply (for_each_i_rel (λ w w', writes_only w w' ∧ heap w' = heap w)).
  - intros ?. split; [apply writes_only_refl|done].
  - intros w1 w2 w3 [? ?] [? ?].
    split; [by eapply writes_only_trans|congruence].
  - intros. by eapply add_output_writes.
Qed.

Lemma convert_unit_evolves unit w r w' :
  convert_unit E unit w = (r, w') → evolves (nb_cells unit) w w'.
Proof. apply convert_cells_evolves. Qed.

Lemma add_vertical_writes hf sq i unit w r w' :
  add_vertical E hf sq i unit w = (r, w') → writes_only w w'.
Proof.
  unfold add_vertical.
  apply (bind_rel _ writes_only_trans).
  { intros r1 w1 (Ht & _)%convert_unit_evolves. by apply writes_only_same. }
  intros outs w1 r2 w2.
  apply (bind_rel _ writes_only_trans).
  { intros r1 w3 H. by eapply for_each_i_add_output_writes. }
  intros. by eapply (ret_rel _ writes_only_refl).
Qed.

(** A cell that is not markdown stays as it is while verticals are
    built. *)
Lemma add_vertical_keeps hf sq i unit w r w' l c :
  add_vertical E hf sq i unit w = (r, w') →
  heap w !! l = Some c → cell_type c ≠ "markdown" → heap w' !! l = Some c.
Proof.
  intros H Hl Hmd. revert H. unfold add_vertical, mbind, M_bind.
  destruct (convert_unit E unit w) as [[e|outs] w1] eqn:H1;
    apply convert_unit_evolves in H1;
    pose proof (evolves_lookup_fixed _ _ _ _ _ H1 Hl Hmd) as Hl1;
    [by intros [= _ <-]|].
  destruct (for_each_i _ 0 outs w1) as [[e|els] w2] eqn:H2;
    apply for_each_i_add_output_writes in H2 as [_ Hh];
    intros [= _ <-]; by rewrite Hh.
Qed.

Lemma add_sequential_writes hf ch sq w r w' :
  add_sequential E hf ch sq w = (r, w') → writes_only w w'.
Proof.
  unfold add_sequential. apply (bind_rel _ writes_only_trans).
  { intros r1 w1 [Ht _]%split_into_units_extends. by apply writes_only_same. }
  intros units w1 r2 w2. apply (bind_rel _ writes_only_trans).
  { intros r1 w3. apply (for_each_i_rel _ writes_only_refl writes_only_trans).
    intros. by eapply add_vertical_writes. }
  intros. by eapply (ret_rel _ writes_only_refl).
Qed.

Lemma build_chapters_writes hf data w r w' :
  build_chapters E hf data w = (r, w') → writes_only w w'.
Proof.
  apply (for_each_rel _ writes_only_refl writes_only_trans).
  intros ch w1 r1 w1'. unfold add_chapter.
  apply (bind_rel _ writes_only_trans).
  { unfold date_to_edx. destruct (ch_date ch).
    - intros ??. apply (lift_option_rel _ writes_only_refl).
    - intros ?? [= _ <-]. apply writes_only_refl. }
  intros start w2 r2 w3. apply (bind_rel _ writes_only_trans).
  { intros ??. apply (for_each_rel _ writes_only_refl writes_only_trans).
    intros. by eapply add_sequential_writes. }
  intros. by eapply (ret_rel _ writes_only_refl).
Qed.

Lemma parse_syllabus_writes file cf pa w r w' :
  parse_syllabus E file cf pa w = (r, w') → writes_only w w'.
Proof.
  unfold parse_syllabus. apply (bind_rel _ writes_only_trans).
  { intros r0 w0. unfold load_raw_syllabus.
    apply (bind_rel _ writes_only_trans).
    { intros r1 w1 [Ht _]%split_into_units_extends. by apply writes_only_same. }
    intros units w1 r2 w2. apply (bind_rel _ writes_only_trans).
    { intros ??. apply (lift_option_rel _ writes_only_refl). }
    intros syll w3 r3 w4. apply (bind_rel _ writes_only_trans).
    { intros ??. apply (lift_option_rel _ writes_only_refl). }
    intros l w5 r5 w6 ->%deref_world. apply writes_only_refl. }
  intros cell w1 r2 w2. destruct (parse_lines _ _ _); intros [= _ <-];
    apply writes_only_refl.
Qed.

End Runs.

(** *** A block after a heading lands in a unit *)

Lemma append_to_last_cells l us :
  (∀ l', l' ∈ us ≫= nb_cells → l' ∈ append_to_last l us ≫= nb_cells)
  ∧ (us ≠ [] → l ∈ append_to_last l us ≫= nb_cells).
Proof.
  destruct us as [|u us _] using rev_ind; [done|].
  rewrite append_to_last_snoc !bind_app. split.
  - intros l'. rewrite !elem_of_app. intros [?|H]; [by left|right].
    simpl in *. set_solver.
  - intros _. rewrite elem_of_app. right. simpl. set_solver.
Qed.

Lemma filter_Exists {A} (P : A → Prop) `{∀ x, Decision (P x)} (l : list A) :
  filter P l ≠ [] → Exists P l.
Proof.
  induction l as [|x l IH]; [done|]. destruct (decide (P x)).
  - intros _. by left.
  - rewrite filter_cons_False //. intros ?%IH. by right.
Qed.

Lemma skip_to_markdown_app cs1 rest :
  heading_lines cs1 ≠ [] →
  skip_to_markdown (cs1 ++ rest) = skip_to_markdown cs1 ++ rest.
Proof.
  induction cs1 as [|c cs1 IH]; [done|]. cbn [app skip_to_markdown].
  case_decide as Hmd; [|done]. intros H. apply IH.
  unfold heading_lines in *. rewrite bind_cons decide_False // in H.
Qed.

Section Landing.

Context (E : env).

Lemma collect_units_mono ih ls us w units w' :
  collect_units ih ls us w = (inr units, w') →
  ∀ l, l ∈ us ≫= nb_cells → l ∈ units ≫= nb_cells.
Proof.
  revert us. induction ls as [|a ls IH]; intros us; simpl.
  { by intros [= <- <-]. }
  intros (c & w1 & [_ ->]%deref_inr & H)%bind_inr l Hl.
  destruct (_ && _).
  - apply bind_inr in H as (name & w2 & [_ ->]%lift_option_inr & H).
    eapply IH; [done|]. destruct ih.
    + apply append_to_last_cells. rewrite bind_app. set_solver.
    + rewrite bind_app. set_solver.
  - destruct us as [|u us]; [by apply elem_of_nil in Hl|].
    eapply IH; [done|]. by apply append_to_last_cells.
Qed.

Lemma collect_units_holds ih s1 vs1 l c s2 us w units w' :
  derefs w s1 vs1 → heap w !! l = Some c → is_heading_block c = false →
  us ≠ [] ∨ Exists (λ c, is_heading_block c = true) vs1 →
  collect_units ih (s1 ++ l :: s2) us w = (inr units, w') →
  l ∈ units ≫= nb_cells.
Proof.
  intros Hd Hl Hc. revert us.
  induction Hd as [|a ca s1 vs1 Ha Hd IH]; intros us Hus.
  - destruct Hus as [Hus|Hus]; [|by apply Exists_nil in Hus].
    cbn [app]. erewrite collect_units_block; [|done..].
    intros H. eapply collect_units_mono; [done|].
    by apply append_to_last_cells.
  - cbn [app]. destruct (is_heading_block ca) eqn:Hca.
    + cbn [collect_units]. rewrite (bind_run _ _ _ _ _ (deref_run _ _ _ Ha)).
      unfold is_heading_block in Hca. rewrite Hca.
      intros (name & w2 & [_ ->]%lift_option_inr & H)%bind_inr.
      eapply IH; [|done]. left. destruct ih.
      * rewrite append_to_last_snoc. by destruct us.
      * by destruct us.
    + erewrite collect_units_block; [|done..]. apply IH.
      destruct Hus as [Hus|Hus].
      * left. destruct us as [|u us _] using rev_ind; [done|].
        rewrite append_to_last_snoc. by destruct us.
      * right. apply Exists_cons in Hus as [Hus|Hus]; [congruence|done].
Qed.

(** A sequential whose document has a block with several components
    after a heading cannot be built, whatever the state. *)
Lemma add_sequential_multiple_fails hf ch sq cs1 c cs2 w :
  read_cells E (seq_source_notebook sq) = Some (cs1 ++ c :: cs2) →
  heading_lines cs1 ≠ [] → multiple_components c →
  ∃ e w', add_sequential E hf ch sq w = (inl e, w').
Proof.
  intros Hread Hhead [Hmd (outs & Ho & Hlen)].
  unfold add_sequential. apply bind_fails. intros units w2 Hsplit.
  unfold split_into_units in Hsplit.
  rewrite (bind_run _ _ _ _ _ (nbformat_read_run E _ _ _ Hread)) in Hsplit.
  set (w1 := {| heap := heap w ++ cs1 ++ c :: cs2; trace := trace w |}) in *.
  destruct (split_cells_run
              (seq (length (heap w)) (length (cs1 ++ c :: cs2)))
              (cs1 ++ c :: cs2) w1)
    as (stream & w3 & Hcells & Hext & Hd); [apply derefs_seq|].
  rewrite (bind_run _ _ _ _ _ Hcells) in Hsplit.
  pose proof (collect_units_world _ _ _ _ _ _ Hsplit) as ->.
  assert (Hstream : block_stream (cs1 ++ c :: cs2)
                    = block_stream cs1 ++ c :: (cs2 ≫= pieces)).
  { unfold block_stream. rewrite skip_to_markdown_app // bind_app bind_cons.
    unfold pieces at 2. by rewrite decide_True. }
  rewrite Hstream in Hd.
  apply Forall2_app_inv_r in Hd as (s1 & s' & Hd1 & Hd & ->).
  apply Forall2_cons_inv_r in Hd as (l & s2 & Hl & Hd2 & ->).
  assert (Hin : l ∈ units ≫= nb_cells).
  { eapply collect_units_holds; [exact Hd1|exact Hl| | |exact Hsplit].
    - unfold is_heading_block. by rewrite bool_decide_false.
    - right. apply (filter_Exists (λ c : cell, is_heading_block c = true)).
      rewrite filter_block_stream.
      by destruct (heading_lines cs1). }
  apply list_elem_of_bind in Hin as (u & Hlu & Hu).
  apply bind_fails. intros els w4 Hels.
  destruct (for_each_i_fails (λ w, heap w !! l = Some c)
              (add_vertical E hf sq) units u 0 w3 Hu Hl) as (e & w' & He).
  - intros k y w5 r w6 H ?. by eapply add_vertical_keeps.
  - intros k w5 Hl5. unfold add_vertical. apply bind_fails.
    intros outs' w6 Hconv.
    apply list_elem_of_split in Hlu as (pre & post & Hcells').
    unfold convert_unit in Hconv. rewrite Hcells' in Hconv.
    destruct (convert_cells_multiple_fails E pre l post [] [] w5 c outs)
      as (e & w' & He); [done..|congruence].
  - congruence.
Qed.

End Landing.

Lemma bind_cases {A B} (m : M A) (f : A → M B) w r w' :
  (m ≫= f) w = (r, w') →
  (∃ e, m w = (inl e, w') ∧ r = inl e)
  ∨ (∃ a w1, m w = (inr a, w1) ∧ f a w1 = (r, w')).
Proof.
  unfold mbind, M_bind. destruct (m w) as [[e|a] w1].
  - intros [= <- <-]. left. eauto.
  - intros H. right. eauto.
Qed.

(** A run that fails has created no archive; a run that succeeds has
    created it last. *)
Lemma converter_archive E mooc cf w r w' :
  converter E mooc cf w = (r, w') →
  match r with
  | inl _ => writes_only w w'
  | inr _ => ∃ w0 tar, writes_only w w0
                       ∧ trace w' = trace w0 ++ [CreateArchive tar (dirpath E)]
  end.
Proof.
  unfold converter.
  intros [(e & H1 & ->)|(data & w1 & H1 & H)]%bind_cases;
    apply parse_syllabus_writes in H1; [done|].
  apply bind_cases in H as [(e & H2 & ->)|(txt & w2 & H2 & H)];
    apply (lift_option_rel _ writes_only_refl) in H2;
    pose proof (writes_only_trans _ _ _ H1 H2) as Hw2; [done|].
  apply bind_cases in H as [(e & H3 & ->)|(sk & w3 & H3 & H)];
    apply (lift_option_rel _ writes_only_refl) in H3;
    pose proof (writes_only_trans _ _ _ Hw2 H3) as Hw3; [done|].
  apply bind_cases in H as [(e & H4 & ->)|(chs & w4 & H4 & H)];
    apply build_chapters_writes in H4;
    pose proof (writes_only_trans _ _ _ Hw3 H4) as Hw4; [done|].
  apply bind_cases in H as [(e & H5 & ->)|([] & w5 & H5 & H)]; [done|].
  assert (Hw5 : writes_only w w5).
  { eapply writes_only_trans; [done|]. injection H5 as <-.
    eexists [_]. split; [done|]. repeat constructor. by eexists _, _. }
  apply bind_cases in H as [(e & H6 & ->)|([] & w6 & H6 & H)]; [done|].
  injection H as <- <-. injection H6 as <-. by eexists _, _.
Qed.

(** C1: a block that is not markdown and whose outputs carry more than
    one component makes [convert_unit] fail, with the error raised for
    the block when the blocks before it convert without error; and a run
    of [converter] over a course that has such a block after a heading
    in the document of one of its sequentials fails without creating the
    archive. *)
Theorem multiple_components_abort E :
  (∀ name pre l post w c,
     heap w !! l = Some c → multiple_components c →
     (∃ e w', convert_unit E {| nb_name := name;
                                nb_cells := pre ++ l :: post |} w = (inl e, w')
              ∧ trace w' = trace w)
     ∧ ∀ out w1,
         convert_unit E {| nb_name := name; nb_cells := pre |} w
           = (inr out, w1) →
         ∃ w', convert_unit E {| nb_name := name;
                                 nb_cells := pre ++ l :: post |} w
               = (inl (RuntimeError "More than 1 xml component in a cell."),
                  w'))
  ∧ (∀ mooc cf w data w1 ch sq cs1 c cs2,
       parse_syllabus E (path_join E (default mooc cf) "syllabus.ipynb")
         (default mooc cf) false w = (inr data, w1) →
       ch ∈ data → sq ∈ ch_sequentials ch →
       read_cells E (seq_source_notebook sq) = Some (cs1 ++ c :: cs2) →
       heading_lines cs1 ≠ [] → multiple_components c →
       ∃ e w', converter E mooc cf w = (inl e, w') ∧ writes_only w w').
Proof.
  split.
  - intros name pre l post w c Hl [Hmd (outs & Ho & Hlen)]. split.
    + destruct (convert_cells_multiple_fails E pre l post [] [] w c outs)
        as (e & w' & He); [done..|].
      exists e, w'. split; [done|].
      by apply convert_cells_evolves in He as [? _].
    + intros out w1 H. by eapply convert_cells_multiple_error.
  - intros mooc cf w data w1 ch sq cs1 c cs2 Hparse Hch Hsq Hread Hhead Hc.
    assert (∃ e w', converter E mooc cf w = (inl e, w')) as (e & w' & He).
    { unfold converter. rewrite (bind_run _ _ _ _ _ Hparse).
      apply bind_fails. intros txt w2 _. apply bind_fails. intros sk w3 _.
      apply bind_fails. intros chs w4 Hchs. exfalso.
      destruct (for_each_fails (add_chapter E
                  (path_join E (path_join E mooc "generated") "html/edx"))
                  data ch w3 Hch) as (e & w' & He); [|unfold build_chapters in Hchs; congruence].
      intros w5. unfold add_chapter. apply bind_fails. intros start w6 _.
      apply bind_fails. intros sqs w7 Hsqs. exfalso.
      destruct (for_each_fails (add_sequential E
                  (path_join E (path_join E mooc "generated") "html/edx") ch)
                  (ch_sequentials ch) sq w6 Hsq) as (e & w' & He);
        [|congruence].
      intros w8. by eapply add_sequential_multiple_fails. }
    exists e, w'. split; [done|]. by apply converter_archive in He.
Qed.

Lemma multiple_components_abort_witness :
  ∃ e w',
    converter Sample.broken_course "." (Some "course") Sample.empty_world
      = (inl e, w')
    ∧ writes_only Sample.empty_world w'.
Proof.
  destruct (multiple_components_abort Sample.broken_course) as [_ Hrun].
  destruct (parse_syllabus Sample.broken_course "course/syllabus.ipynb"
              "course" false Sample.empty_world) as [[e|data] w1] eqn:Hparse;
    [vm_compute in Hparse; discriminate Hparse|].
  pose proof Hparse as Hdata. vm_compute in Hdata. injection Hdata as <- <-.
  eapply (Hrun "." (Some "course") _ _ _ _ _ [Sample.md "# Bands"]
            Sample.two_components [] Hparse).
  - apply list_elem_of_here.
  - apply list_elem_of_here.
  - reflexivity.
  - vm_compute. discriminate.
  - split; [vm_compute; discriminate|].
    eexists. split; [reflexivity|]. vm_compute. lia.
Defined.

(** ** Positions and their identifiers *)

Lemma free_of_decimal n : free_of "_" (decimal n).
Proof.
  unfold decimal. induction (Nat.to_uint n); simpl; try done; by split.
Qed.

Lemma free_of_fmt02 n : free_of "_" (fmt02 n).
Proof.
  unfold fmt02. case_decide; [|apply free_of_decimal].
  rewrite str_app_cons str_app_nil_l /=. split; [done|apply free_of_decimal].
Qed.

Lemma split_on_free sep s : free_of sep s → Str.split_on sep s = [s].
Proof.
  induction s as [|c s IH]; [done|]. intros [Hc Hs]. simpl.
  by rewrite decide_False // IH.
Qed.

Lemma split_on_app sep a b :
  free_of sep a →
  Str.split_on sep (a +:+ String sep b) = a :: Str.split_on sep b.
Proof.
  induction a as [|c a IH].
  - intros _. rewrite str_app_nil_l /=. by rewrite decide_True.
  - intros [Hc Ha]. rewrite str_app_cons /=. by rewrite decide_False // IH.
Qed.

Lemma position_id_fields p :
  Str.split_on "_" (position_id p)
  = match p with
    | PChapter i => ["sec"; fmt02 i]
    | PSequential i j => ["subsec"; fmt02 i; fmt02 j]
    | PVertical i j k => ["subsec"; fmt02 i; fmt02 j; fmt02 k]
    | POutput i j k m => ["subsec"; fmt02 i; fmt02 j; fmt02 k; "out"; fmt02 m]
    end.
Proof.
  assert (Hsec : ∀ s, Str.split_on "_" ("sec_" +:+ s)
                      = "sec" :: Str.split_on "_" s).
  { intros s. by apply (split_on_app "_" "sec"). }
  assert (Hsub : ∀ s, Str.split_on "_" ("subsec_" +:+ s)
                      = "subsec" :: Str.split_on "_" s).
  { intros s. by apply (split_on_app "_" "subsec"). }
  assert (Hfmt : ∀ n s, Str.split_on "_" (fmt02 n +:+ String "_" s)
                        = fmt02 n :: Str.split_on "_" s).
  { intros n s. apply split_on_app, free_of_fmt02. }
  assert (Hlast : ∀ n, Str.split_on "_" (fmt02 n) = [fmt02 n]).
  { intros n. apply split_on_free, free_of_fmt02. }
  destruct p as [i|i j|i j k|i j k m]; cbn [position_id];
    rewrite ?str_app_assoc.
  - by rewrite Hsec Hlast.
  - change ("_" +:+ fmt02 j) with (String "_" (fmt02 j)).
    by rewrite Hsub Hfmt Hlast.
  - change ("_" +:+ fmt02 j +:+ "_" +:+ fmt02 k)
      with (String "_" (fmt02 j +:+ String "_" (fmt02 k))).
    by rewrite Hsub !Hfmt Hlast.
  - change ("_" +:+ fmt02 j +:+ "_" +:+ fmt02 k +:+ "_out_" +:+ fmt02 m)
      with (String "_" (fmt02 j +:+ String "_"
                          (fmt02 k +:+ String "_" ("out_" +:+ fmt02 m)))).
    rewrite Hsub !Hfmt. do 4 f_equal.
    change ("out_" +:+ fmt02 m) with ("out" +:+ String "_" (fmt02 m)).
    by rewrite split_on_app // Hlast.
Qed.

Global Instance position_id_inj : Inj (=) (=) position_id.
Proof.
  intros p q H. apply (f_equal (Str.split_on "_")) in H.
  rewrite !position_id_fields in H.
  destruct p, q; simplify_eq; try done;
    repeat match goal with H : fmt02 _ = fmt02 _ |- _ => apply (inj fmt02) in H end;
    by subst.
Qed.










(** * Further properties *)

(** ** Syllabus parser *)

Section SyllabusMore.

Context (E : env).

Lemma append_subsection_snoc sub syllabus e :
  append_subsection sub (syllabus ++ [e])
  = Some (syllabus ++ [{| entry_name := entry_name e;
                          entry_date := entry_date e;
                          entry_subsections := entry_subsections e ++ [sub] |}]).
Proof.
  induction syllabus as [|e' syllabus IH]; [done|].
  change (append_subsection sub ((e' :: syllabus) ++ [e]))
    with (match syllabus ++ [e] with
          | [] => Some [{| entry_name := entry_name e';
                           entry_date := entry_date e';
                           entry_subsections := entry_subsections e' ++ [sub] |}]
          | _ => cons e' <$> append_subsection sub (syllabus ++ [e])
          end).
  rewrite IH. by destruct syllabus.
Qed.

(** Once an entry is open the loop runs to its end, and the last entry
    collects the subsections that follow. *)
Lemma parse_lines_open lines syllabus e :
  parse_lines E lines (syllabus ++ [e])
  = inr (syllabus
         ++ {| entry_name := entry_name e; entry_date := entry_date e;
               entry_subsections :=
                 entry_subsections e ++ leading_subsections lines |}
         :: sections_of E lines).
Proof.
  revert syllabus e. induction lines as [|line lines IH]; intros syllabus e.
  { simpl. rewrite app_nil_r. by destruct e. }
  cbn [parse_lines leading_subsections sections_of].
  destruct (match_syllabus_line line) as [[name|title filename]|].
  - rewrite -assoc. cbn [app].
    change (syllabus ++ e :: ?x) with (syllabus ++ [e] ++ x).
    rewrite assoc IH /= app_nil_r -assoc /=. by destruct e.
  - rewrite append_subsection_snoc IH /=. by rewrite -assoc.
  - apply IH.
Qed.

Lemma parse_lines_start lines :
  match head (omap match_syllabus_line lines) with
  | Some (SubsectionLine _ _) => parse_lines E lines [] = inl IndexError
  | _ => parse_lines E lines [] = inr (sections_of E lines)
  end.
Proof.
  induction lines as [|line lines IH]; [done|].
  cbn [omap list_omap parse_lines sections_of].
  destruct (match_syllabus_line line) as [[name|title filename]|]; simpl.
  - by rewrite (parse_lines_open lines []).
  - done.
  - exact IH.
Qed.

End SyllabusMore.

(** X1: the loop over the syllabus lines fails exactly when the first
    line that matches one of the two patterns is a subsection line, and
    then with [IndexError]; it raises nothing else. *)
Theorem parse_lines_fails_iff_orphan E lines :
  (parse_lines E lines [] = inl IndexError
   ↔ ∃ title filename,
       head (omap match_syllabus_line lines)
       = Some (SubsectionLine title filename))
  ∧ ∀ e, parse_lines E lines [] = inl e → e = IndexError.
Proof.
  pose proof (parse_lines_start E lines) as H.
  destruct (head (omap match_syllabus_line lines)) as [[name|title filename]|];
    rewrite H; (split; [split|]); try done.
  - by intros (? & ? & ?).
  - intros _. eauto.
  - by intros e [= <-].
  - by intros (? & ? & ?).
Qed.

(** X2: when the loop succeeds, the entries are the sections as the text
    presents them: one entry per section line, in order, dated by the
    table, each holding exactly the subsection lines between its section
    line and the next one, in order. *)
Theorem parse_lines_sections E lines syllabus :
  parse_lines E lines [] = inr syllabus →
  syllabus = sections_of E lines
  ∧ syllabus ≫= entry_subsections = omap subsection_of lines.
Proof.
  intros H. pose proof (parse_lines_start E lines) as Hs.
  assert (Hsec : syllabus = sections_of E lines).
  { destruct (head (omap match_syllabus_line lines)) as [[?|??]|];
      rewrite H in Hs; by simplify_eq. }
  split; [done|]. subst syllabus. clear Hs.
  assert (Hlead : ∀ ls,
    leading_subsections ls ++ (sections_of E ls ≫= entry_subsections)
    = omap subsection_of ls).
  { intros ls. induction ls as [|l ls IH]; [done|].
    cbn [leading_subsections sections_of omap list_omap]. unfold subsection_of at 1.
    destruct (match_syllabus_line l) as [[name|title filename]|]; simpl.
    - exact IH.
    - by rewrite IH.
    - exact IH. }
  revert H. induction lines as [|l lines IH]; [done|].
  cbn [parse_lines sections_of omap list_omap]. unfold subsection_of at 1.
  destruct (match_syllabus_line l) as [[name|title filename]|]; simpl.
  - intros _. apply Hlead.
  - done.
  - exact IH.
Qed.

Lemma parse_lines_sections_witness :
  parse_lines Sample.course
    ["intro"; "* **Introduction**"; "  * [Welcome](w0/intro.ipynb)"; "";
     "* **Week 1**"; "  * [Topology](w1/topology.ipynb)"] []
  = inr [ {| entry_name := "Introduction"; entry_date := None;
             entry_subsections := [("Welcome", "w0/intro.ipynb")] |};
          {| entry_name := "Week 1"; entry_date := Some "3 Sep 2018";
             entry_subsections := [("Topology", "w1/topology.ipynb")] |} ].
Proof.
  destruct (parse_lines Sample.course
    ["intro"; "* **Introduction**"; "  * [Welcome](w0/intro.ipynb)"; "";
     "* **Week 1**"; "  * [Topology](w1/topology.ipynb)"] []) as [e|syllabus] eqn:H;
    [vm_compute in H; discriminate H|].
  destruct (parse_lines_sections _ _ _ H) as [-> _]. reflexivity.
Defined.

(** X3: in default mode every chapter that is returned has the release
    date of the table for its name, and each of its sequentials carries
    that same date, so no date is missing when chapters are built. *)
Theorem default_mode_chapters_dated E cf lines syllabus :
  parse_lines E lines [] = inr syllabus →
  Forall (λ ch, ∃ date,
            release_dates E !! ch_name ch = Some date
            ∧ ch_date ch = Some date
            ∧ Forall (λ sq, seq_date sq = Some date) (ch_sequentials ch))
    (make_chapters cf false 0 syllabus).
Proof.
  intros [_ Hd]%parse_lines_entries. specialize (Hd (Forall_nil_2 _)).
  generalize 0. induction Hd as [|e es He Hes IH]; intros i; [constructor|].
  cbn [make_chapters negb andb]. case_bool_decide as Hnone; [apply IH|].
  constructor; [|apply IH].
  destruct (entry_date e) as [date|] eqn:Hdate; [|done].
  exists date. simpl. split; [by rewrite -He|]. split; [done|].
  apply Forall_forall. intros sq (j & sub & -> & _)%elem_of_lookup_imap.
  by rewrite /= Hdate.
Qed.

Lemma default_mode_chapters_dated_witness :
  Forall (λ ch, ∃ date,
            release_dates Sample.course !! ch_name ch = Some date
            ∧ ch_date ch = Some date
            ∧ Forall (λ sq, seq_date sq = Some date) (ch_sequentials ch))
    (make_chapters "course" false 0
       [ {| entry_name := "Introduction"; entry_date := None;
            entry_subsections := [("Welcome", "w0/intro.ipynb")] |};
         {| entry_name := "Week 1"; entry_date := Some "3 Sep 2018";
            entry_subsections := [("Topology", "w1/topology.ipynb")] |} ]).
Proof.
  apply (default_mode_chapters_dated Sample.course "course"
    ["intro"; "* **Introduction**"; "  * [Welcome](w0/intro.ipynb)"; "";
     "* **Week 1**"; "  * [Topology](w1/topology.ipynb)"]).
  vm_compute. reflexivity.
Defined.

(** ** Unit splitter *)

Lemma split_on_free_of sep s : Forall (free_of sep) (Str.split_on sep s).
Proof.
  induction s as [|c s IH]; [by repeat constructor|]. simpl.
  case_decide as Hc; [by constructor|].
  destruct (Str.split_on sep s) as [|l ls]; [by repeat constructor|].
  apply Forall_cons in IH as [Hl Hls]. by repeat constructor.
Qed.

Lemma until_newline_free s : free_of Str.newline s → until_newline s = (s, "").
Proof.
  induction s as [|c s IH]; [done|]. intros [Hc Hs]. simpl.
  by rewrite decide_False // IH.
Qed.

Lemma re_match_heading_line line :
  is_heading line = true → free_of Str.newline line →
  re_match_heading line = Some (heading_title line).
Proof.
  unfold is_heading, Str.startswith, re_match_heading, heading_title.
  destruct (Str.strip_prefix "# " line) as [r|] eqn:Hr; [|done].
  intros _ Hfree. apply strip_prefix_Some in Hr as ->.
  apply free_of_app in Hfree as [_ Hfree].
  rewrite /= until_newline_free //.
Qed.

Lemma heading_lines_spec (cs : list cell) line :
  line ∈ heading_lines cs → is_heading line = true ∧ free_of Str.newline line.
Proof.
  unfold heading_lines. intros (c & Hline & _)%list_elem_of_bind.
  case_decide; [|by apply elem_of_nil in Hline].
  apply list_elem_of_filter in Hline as [? Hin]. split; [done|].
  eapply Forall_forall in Hin; [exact Hin|]. apply split_on_free_of.
Qed.

(** Every heading block of the stream is a heading line, so its name can
    be read. *)
Lemma block_stream_headings (cs : list cell) c :
  c ∈ block_stream cs → is_heading_block c = true →
  re_match_heading (source c) = Some (heading_title (source c)).
Proof.
  intros Hin Hh.
  assert (c ∈ filter (λ c : cell, is_heading_block c = true) (block_stream cs))
    as Hf by by apply list_elem_of_filter.
  rewrite filter_block_stream in Hf.
  apply list_elem_of_fmap in Hf as (line & -> & [? ?]%heading_lines_spec).
  by apply re_match_heading_line.
Qed.

Section CollectSpec.

Context (E : env).

Lemma collect_units_open ih ls cs us u w :
  derefs w ls cs →
  Forall (λ c, is_heading_block c = true →
               re_match_heading (source c) = Some (heading_title (source c))) cs →
  collect_units ih ls (us ++ [u]) w
  = (inr (us ++ {| nb_name := nb_name u;
                   nb_cells := nb_cells u ++ body_blocks (zip ls cs) |}
             :: units_of ih (zip ls cs)), w).
Proof.
  intros Hd. revert us u. induction Hd as [|l c ls cs Hl Hd IH]; intros us u Hp.
  { simpl. rewrite app_nil_r. by destruct u. }
  apply Forall_cons in Hp as [Hc Hp]. cbn [zip zip_with body_blocks units_of].
  destruct (is_heading_block c) eqn:Hh.
  - erewrite collect_units_heading; [|done|done|by apply Hc].
    rewrite (IH (us ++ [u])) // app_nil_r -assoc /=. by destruct u.
  - erewrite collect_units_block; [|done..].
    rewrite append_to_last_snoc IH //=. by rewrite -assoc.
Qed.

Lemma collect_units_spec ih ls cs w :
  derefs w ls cs →
  Forall (λ c, is_heading_block c = true →
               re_match_heading (source c) = Some (heading_title (source c))) cs →
  collect_units ih ls [] w = (inr (units_of ih (zip ls cs)), w).
Proof.
  induction 1 as [|l c ls cs Hl Hd IH]; [done|].
  intros [Hc Hp]%Forall_cons. cbn [zip zip_with units_of].
  destruct (is_heading_block c) eqn:Hh.
  - erewrite collect_units_heading; [|done|done|by apply Hc].
    by rewrite (collect_units_open _ _ _ [] _ _ Hd Hp).
  - erewrite collect_units_block; [|done..]. by apply IH.
Qed.

(** Fresh nodes are new references and a cell that is passed through
    keeps its own: the stream has no reference twice. *)
Lemma for_each_split_cell_NoDup ls w lss w' :
  for_each split_cell ls w = (inr lss, w') →
  NoDup ls → Forall (λ l, l < length (heap w)) ls →
  NoDup (concat lss)
  ∧ Forall (λ l, l ∈ ls ∨ length (heap w) ≤ l) (concat lss).
Proof.
  revert w lss. induction ls as [|l ls IH]; intros w lss.
  { intros [= <- <-] _ _. split; constructor. }
  simpl.
  intros (ls1 & w1 & H1 & (lss' & w2 & H2 & [= <- <-])%bind_inr)%bind_inr.
  intros [Hl Hnd]%NoDup_cons [Hlt Hlts]%Forall_cons.
  pose proof (split_cell_extends _ _ _ _ H1) as [_ [new Hnew]].
  assert (Hls1 : NoDup ls1
                 ∧ Forall (λ k, k = l ∨ length (heap w) ≤ k) ls1).
  { unfold split_cell in H1.
    apply bind_inr in H1 as (c & w0 & [_ ->]%deref_inr & H1).
    case_decide.
    - injection H1 as <- <-. split; [apply NoDup_singleton|].
      apply Forall_singleton. by left.
    - rewrite for_each_alloc_run in H1. injection H1 as <- <-.
      split; [apply NoDup_seq|]. apply Forall_forall.
      intros k [? ?]%elem_of_seq. by right. }
  destruct Hls1 as [Hnd1 Hin1].
  assert (Hlts1 : Forall (λ k, k < length (heap w1)) ls).
  { eapply Forall_impl; [exact Hlts|]. intros k Hk. cbn beta in Hk.
    rewrite Hnew length_app. lia. }
  destruct (IH _ _ H2 Hnd Hlts1) as [Hnd2 Hin2].
  assert (Hle : length (heap w) ≤ length (heap w1))
    by (rewrite Hnew length_app; lia).
  cbn [concat]. split.
  - apply NoDup_app. split; [done|]. split; [|done].
    intros k Hk1 Hk2.
    pose proof (proj1 (Forall_forall _ _) Hin1 k Hk1) as Hk1'.
    pose proof (proj1 (Forall_forall _ _) Hin2 k Hk2) as Hk2'.
    cbn beta in Hk1', Hk2'.
    assert (Hk2'' : k ∈ ls).
    { unfold split_cell in H1.
      apply bind_inr in H1 as (c & w0 & [_ ->]%deref_inr & H1).
      case_decide.
      - injection H1 as <- <-. destruct Hk2' as [?|?]; [done|].
        apply list_elem_of_singleton in Hk1 as ->. lia.
      - rewrite for_each_alloc_run in H1. injection H1 as <- <-.
        apply elem_of_seq in Hk1 as [? Hk1]. destruct Hk2' as [?|Hk2']; [done|].
        cbn [heap] in Hk2'. rewrite length_app length_fmap in Hk2'. lia. }
    pose proof (proj1 (Forall_forall _ _) Hlts k Hk2'') as Hk3. cbn beta in Hk3.
    destruct Hk1' as [->|?]; [done|lia].
  - apply Forall_app. split.
    + eapply Forall_impl; [exact Hin1|].
      intros k [->|?]; [left; by left|by right].
    + eapply Forall_impl; [exact Hin2|].
      intros k [?|?]; [left; by right|right; lia].
Qed.

Lemma dropwhile_not_markdown_suffix ls w ls' w' :
  dropwhile_not_markdown ls w = (inr ls', w') → ls' `suffix_of` ls.
Proof.
  induction ls as [|l ls IH]; simpl.
  { by intros [= <- _]. }
  intros (c & w1 & [_ ->]%deref_inr & H)%bind_inr. case_decide.
  - by apply suffix_cons_r, IH.
  - by injection H as <- _.
Qed.

Lemma for_each_split_cell_fresh n ls w lss w' :
  for_each split_cell ls w = (inr lss, w') →
  Forall (λ l, n ≤ l) ls → n ≤ length (heap w) →
  Forall (λ l, n ≤ l) (concat lss).
Proof.
  revert w lss. induction ls as [|l ls IH]; intros w lss.
  { intros [= <- _] _ _. constructor. }
  simpl.
  intros (ls1 & w1 & H1 & (lss' & w2 & H2 & [= <- <-])%bind_inr)%bind_inr.
  intros [Hl Hls]%Forall_cons Hn. cbn [concat]. apply Forall_app.
  pose proof (split_cell_extends _ _ _ _ H1) as [_ [new Hnew]].
  split.
  - unfold split_cell in H1.
    apply bind_inr in H1 as (c & w0 & [_ ->]%deref_inr & H1). revert H1.
    case_decide as Hmd; [by intros [= <- _]; constructor|].
    rewrite for_each_alloc_run. intros [= <- _].
    apply Forall_forall. intros k [? _]%elem_of_seq. lia.
  - eapply IH; [exact H2|done|]. rewrite Hnew length_app. lia.
Qed.

Lemma split_cells_fresh n ls w stream w' :
  split_cells ls w = (inr stream, w') →
  Forall (λ l, n ≤ l) ls → n ≤ length (heap w) →
  Forall (λ l, n ≤ l) stream.
Proof.
  unfold split_cells.
  intros (ls' & w1 & H1 & (lss & w2 & H2 & [= <- <-])%bind_inr)%bind_inr.
  pose proof (dropwhile_not_markdown_world _ _ _ _ H1) as ->.
  apply dropwhile_not_markdown_suffix in H1 as [k ->].
  intros [_ Hls]%Forall_app Hn.
  by eapply for_each_split_cell_fresh.
Qed.

Lemma split_cells_NoDup ls w stream w' :
  split_cells ls w = (inr stream, w') →
  NoDup ls → Forall (λ l, l < length (heap w)) ls → NoDup stream.
Proof.
  unfold split_cells.
  intros (ls' & w1 & H1 & (lss & w2 & H2 & [= <- <-])%bind_inr)%bind_inr.
  pose proof (dropwhile_not_markdown_world _ _ _ _ H1) as ->.
  apply dropwhile_not_markdown_suffix in H1 as [k ->].
  intros [_ [_ Hnd]]%NoDup_app [_ Hlt]%Forall_app.
  by destruct (for_each_split_cell_NoDup _ _ _ _ H2 Hnd Hlt).
Qed.

(** The units of a readable document, with the stream of block references
    they were collected from. *)
Lemma split_into_units_run file ih cs w :
  read_cells E file = Some cs →
  ∃ stream w',
    split_into_units E file ih w
    = (inr (units_of ih (zip stream (block_stream cs))), w')
    ∧ extends w w' ∧ derefs w' stream (block_stream cs) ∧ NoDup stream
    ∧ Forall (λ l, length (heap w) ≤ l) stream.
Proof.
  intros Hread. unfold split_into_units.
  rewrite (bind_run _ _ _ _ _ (nbformat_read_run E _ _ w Hread)).
  set (w0 := {| heap := heap w ++ cs; trace := trace w |}).
  assert (Hd0 : derefs w0 (seq (length (heap w)) (length cs)) cs)
    by apply derefs_seq.
  destruct (split_cells_run _ _ _ Hd0) as (stream & w' & Hrun & Hext & Hd).
  exists stream, w'. rewrite (bind_run _ _ _ _ _ Hrun).
  split; [|split; [|split; [|split]]].
  - apply collect_units_spec; [done|]. apply Forall_forall.
    intros c Hc. by apply (block_stream_headings cs).
  - eapply extends_trans; [|exact Hext]. split; [done|]. by exists cs.
  - done.
  - eapply split_cells_NoDup; [exact Hrun|apply NoDup_seq|].
    apply Forall_forall. intros l [_ Hl]%elem_of_seq.
    rewrite /w0 /= length_app. lia.
  - eapply split_cells_fresh; [exact Hrun| |].
    + apply Forall_forall. by intros l [? _]%elem_of_seq.
    + rewrite /w0 /= length_app. lia.
Qed.

End CollectSpec.

(** *** The units as a function of the stream *)

Lemma units_of_names ih ls (cs : list cell) :
  length ls = length cs →
  nb_name <$> units_of ih (zip ls cs)
  = (λ c, heading_title (source c))
      <$> filter (λ c : cell, is_heading_block c = true) cs.
Proof.
  revert cs. induction ls as [|l ls IH]; intros [|c cs] [=]; [done|].
  cbn [zip zip_with units_of]. destruct (is_heading_block c) eqn:Hc.
  - rewrite filter_cons_True // !fmap_cons IH //.
  - rewrite filter_cons_False ?Hc // IH //.
Qed.

Lemma units_of_nil ih ls (cs : list cell) :
  from_first_heading is_heading_block cs = [] → units_of ih (zip ls cs) = [].
Proof.
  revert ls. induction cs as [|c cs IH]; intros [|l ls]; try done.
  cbn [zip zip_with units_of from_first_heading].
  destruct (is_heading_block c); [done|apply IH].
Qed.

Lemma filter_Forall_id {A} (P : A → Prop) `{∀ x, Decision (P x)} (l : list A) :
  Forall P l → filter P l = l.
Proof.
  induction 1 as [|x l Hx Hl IH]; [done|]. by rewrite filter_cons_True // IH.
Qed.

(** The cells of the units, read in order: the blocks before the first
    heading are left out, and the heading blocks too unless headers are
    kept. *)
Lemma units_of_cells ih ls cs w :
  derefs w ls cs →
  ∃ bs, derefs w (body_blocks (zip ls cs)) bs
        ∧ Forall (λ c, is_heading_block c = false) bs
        ∧ bs ++ from_first_heading is_heading_block cs = cs
        ∧ derefs w (units_of ih (zip ls cs) ≫= nb_cells)
            (if ih then from_first_heading is_heading_block cs
             else filter (λ c : cell, is_heading_block c = false)
                    (from_first_heading is_heading_block cs)).
Proof.
  induction 1 as [|l c ls cs Hl Hd (bs & Hbs & Hnh & Heq & IH)].
  { exists []. repeat split; try constructor. destruct ih; constructor. }
  cbn [zip zip_with body_blocks units_of from_first_heading].
  destruct (is_heading_block c) eqn:Hc.
  - exists []. split; [constructor|]. split; [constructor|]. split; [done|].
    rewrite bind_cons. cbn [nb_cells].
    assert (Hall : derefs w
      (body_blocks (zip ls cs) ++ (units_of ih (zip ls cs) ≫= nb_cells))
      (bs ++ (if ih then from_first_heading is_heading_block cs
              else filter (λ c : cell, is_heading_block c = false)
                     (from_first_heading is_heading_block cs))))
      by by apply derefs_app.
    destruct ih.
    + rewrite Heq in Hall. by constructor.
    + rewrite filter_cons_False ?Hc //. cbn [app].
      replace (filter (λ c : cell, is_heading_block c = false) cs)
        with (bs ++ filter (λ c : cell, is_heading_block c = false)
                      (from_first_heading is_heading_block cs)); [done|].
      by rewrite -{2}Heq filter_app (filter_Forall_id _ bs).
  - exists (c :: bs). split; [by constructor|]. split; [by constructor|].
    split; [by rewrite /= Heq|done].
Qed.

Lemma units_of_sublist ih ls (cs : list cell) :
  body_blocks (zip ls cs) ++ (units_of ih (zip ls cs) ≫= nb_cells)
  `sublist_of` ls.
Proof.
  revert cs. induction ls as [|l ls IH]; intros [|c cs]; try done.
  { apply sublist_nil_l. }
  cbn [zip zip_with body_blocks units_of].
  destruct (is_heading_block c).
  - rewrite bind_cons. cbn [nb_cells app]. rewrite -assoc.
    destruct ih; [apply sublist_skip|apply sublist_cons]; apply IH.
  - cbn [app]. apply sublist_skip, IH.
Qed.

Lemma units_of_NoDup ih ls (cs : list cell) :
  NoDup ls → NoDup (units_of ih (zip ls cs) ≫= nb_cells).
Proof.
  intros Hnd. eapply sublist_NoDup; [exact Hnd|].
  etrans; [|apply (units_of_sublist ih ls cs)]. by apply sublist_inserts_l.
Qed.

Lemma units_of_shape (ih : bool) ls cs w :
  derefs w ls cs →
  Forall (λ c, is_heading_block c = true →
               c = markdown_node ("# " +:+ heading_title (source c))) cs →
  Forall (λ u, ∃ bs : list cell,
            derefs w (nb_cells u)
              ((if ih then [markdown_node ("# " +:+ nb_name u)] else [])
               ++ bs)
            ∧ Forall (λ c, is_heading_block c = false) bs)
    (units_of ih (zip ls cs)).
Proof.
  induction 1 as [|l c ls cs Hl Hd IH]; [constructor|].
  intros [Hc Hcs]%Forall_cons. cbn [zip zip_with units_of].
  destruct (is_heading_block c) eqn:Hh; [|by apply IH].
  constructor; [|by apply IH].
  destruct (units_of_cells ih _ _ _ Hd) as (bs & Hbs & Hnh & _).
  exists bs. split; [|done]. cbn [nb_cells nb_name].
  apply derefs_app; [|done]. destruct ih; [|constructor].
  repeat constructor. by rewrite -Hc.
Qed.

Lemma block_stream_heading_nodes (cs : list cell) c :
  c ∈ block_stream cs → is_heading_block c = true →
  c = markdown_node ("# " +:+ heading_title (source c)).
Proof.
  intros Hin Hh.
  assert (c ∈ filter (λ c : cell, is_heading_block c = true) (block_stream cs))
    as Hf by by apply list_elem_of_filter.
  rewrite filter_block_stream in Hf.
  apply list_elem_of_fmap in Hf as (line & -> & [Hline _]%heading_lines_spec).
  cbn [source markdown_node]. f_equal.
  unfold is_heading, Str.startswith, heading_title in *.
  destruct (Str.strip_prefix "# " line) as [r|] eqn:Hr; [|done].
  by apply strip_prefix_Some in Hr.
Qed.

(** *** The block after the first heading *)

Lemma from_first_heading_app_nil {A} (h : A → bool) xs ys :
  from_first_heading h xs = [] →
  from_first_heading h (xs ++ ys) = from_first_heading h ys.
Proof.
  induction xs as [|x xs IH]; [done|]. simpl. by destruct (h x).
Qed.

Lemma from_first_heading_app_cons {A} (h : A → bool) xs ys a r :
  from_first_heading h xs = a :: r →
  from_first_heading h (xs ++ ys) = a :: r ++ ys.
Proof.
  induction xs as [|x xs IH]; [done|]. simpl. destruct (h x); [|done].
  by intros [= -> ->].
Qed.

Lemma split_headings_go_head (cur : string) (first : bool) lines :
  (if first then cur = "" else is_heading cur = false) →
  ∃ p rest, split_headings_go cur first lines = p :: rest
            ∧ is_heading p = false.
Proof.
  revert cur first. induction lines as [|l lines IH]; intros cur first Hcur.
  { exists cur, []. split; [done|]. destruct first; by subst. }
  cbn [split_headings_go].
  assert (is_heading (if first then cur else cur +:+ String Str.newline "")
          = false) as Hcur'.
  { destruct first; [by subst|]. by apply is_heading_app_newline. }
  destruct (is_heading l) eqn:Hl; [by eauto|].
  apply IH. destruct first; [by subst|].
  rewrite str_app_assoc str_app_cons str_app_nil_l.
  by apply is_heading_app_newline.
Qed.

Lemma from_first_heading_go (cur : string) (first : bool) lines :
  (if first then cur = "" else is_heading cur = false) →
  match filter (λ s : string, is_heading s = true) lines with
  | [] => from_first_heading is_heading (split_headings_go cur first lines) = []
  | h :: _ =>
      ∃ p rest,
        from_first_heading is_heading (split_headings_go cur first lines)
        = h :: p :: rest ∧ is_heading p = false
  end.
Proof.
  revert cur first. induction lines as [|l lines IH]; intros cur first Hcur.
  { rewrite filter_nil. simpl. destruct first; [by subst|]. by rewrite Hcur. }
  cbn [split_headings_go].
  assert (is_heading (if first then cur else cur +:+ String Str.newline "")
          = false) as Hcur'.
  { destruct first; [by subst|]. by apply is_heading_app_newline. }
  destruct (is_heading l) eqn:Hl.
  - rewrite filter_cons_True //. cbn [from_first_heading]. rewrite Hcur' Hl.
    destruct (split_headings_go_head "" false lines eq_refl)
      as (p & rest & -> & Hp). eauto.
  - rewrite filter_cons_False ?Hl //. apply IH. destruct first; [by subst|].
    rewrite str_app_assoc str_app_cons str_app_nil_l.
    by apply is_heading_app_newline.
Qed.

Lemma from_first_heading_nodes (ps : list string) :
  from_first_heading is_heading_block (markdown_node <$> ps)
  = markdown_node <$> from_first_heading is_heading ps.
Proof.
  induction ps as [|p ps IH]; [done|]. rewrite fmap_cons.
  cbn [from_first_heading].
  replace (is_heading_block (markdown_node p)) with (is_heading p) by done.
  destruct (is_heading p); [done|apply IH].
Qed.

Lemma from_first_heading_pieces (cs : list cell) :
  match heading_lines cs with
  | [] => from_first_heading is_heading_block (cs ≫= pieces) = []
  | h :: _ =>
      ∃ p rest,
        from_first_heading is_heading_block (cs ≫= pieces)
        = markdown_node h :: p :: rest
        ∧ is_heading_block p = false ∧ cell_type p = "markdown"
  end.
Proof.
  unfold heading_lines. induction cs as [|c cs IH]; [done|].
  rewrite !bind_cons. unfold pieces at 1 3.
  destruct (decide (cell_type c = "markdown")) as [Hmd|Hmd].
  - rewrite decide_False; last by intros ?.
    pose proof (from_first_heading_go "" true (Str.split_lines (source c))
                  eq_refl) as Hgo.
    fold (re_split_headings (source c)) in Hgo.
    destruct (filter _ (Str.split_lines (source c))) as [|h hs].
    + cbn [app]. rewrite from_first_heading_app_nil //.
      by rewrite from_first_heading_nodes Hgo.
    + destruct Hgo as (p & rest & Hgo & Hp). cbn [app].
      exists (markdown_node p), ((markdown_node <$> rest) ++ (cs ≫= pieces)).
      split; [|done].
      rewrite (from_first_heading_app_cons _ _ _ (markdown_node h)
                 (markdown_node p :: (markdown_node <$> rest))) //.
      by rewrite from_first_heading_nodes Hgo.
  - rewrite decide_True //. cbn [app].
    assert (Hc : from_first_heading is_heading_block [c] = []).
    { cbn [from_first_heading]. unfold is_heading_block.
      by rewrite bool_decide_false. }
    by rewrite (from_first_heading_app_nil _ [c] _ Hc).
Qed.

Lemma from_first_heading_stream (cs : list cell) :
  match heading_lines cs with
  | [] => from_first_heading is_heading_block (block_stream cs) = []
  | h :: _ =>
      ∃ p rest,
        from_first_heading is_heading_block (block_stream cs)
        = markdown_node h :: p :: rest
        ∧ is_heading_block p = false ∧ cell_type p = "markdown"
  end.
Proof.
  rewrite -heading_lines_skip. apply from_first_heading_pieces.
Qed.

Lemma units_of_second ls cs w h p rest :
  derefs w ls cs →
  from_first_heading is_heading_block cs = h :: p :: rest →
  is_heading_block p = false →
  ∃ u us l0 l1 ls', units_of true (zip ls cs) = u :: us
                    ∧ nb_cells u = l0 :: l1 :: ls'
                    ∧ heap w !! l1 = Some p.
Proof.
  induction 1 as [|l c ls cs Hl Hd IH]; [done|].
  cbn [from_first_heading zip zip_with units_of].
  destruct (is_heading_block c); [|done].
  intros [= -> ->] Hp.
  apply Forall2_cons_inv_r in Hd as (l1 & ls' & Hl1 & Hd & ->).
  eexists _, _, l, l1, _. split; [done|]. split; [|done].
  cbn [nb_cells zip zip_with body_blocks]. by rewrite Hp.
Qed.

(** *** The unit splitter on a whole document *)

Lemma split_into_units_failure E file ih w e w' :
  split_into_units E file ih w = (inl e, w') →
  e = OSError file ∧ read_cells E file = None ∧ w' = w.
Proof.
  intros Hrun. destruct (read_cells E file) as [cs|] eqn:Hread.
  - destruct (split_into_units_run E file ih cs w Hread)
      as (stream & w1 & Hrun1 & _).
    congruence.
  - unfold split_into_units, nbformat_read in Hrun. rewrite Hread in Hrun.
    by injection Hrun as <- <-.
Qed.

(** The cells of the units exist. *)
Lemma split_into_units_live E file ih w units w' :
  split_into_units E file ih w = (inr units, w') →
  live w' (units ≫= nb_cells).
Proof.
  intros Hrun. destruct (read_cells E file) as [cs|] eqn:Hread.
  - destruct (split_into_units_run E file ih cs w Hread)
      as (stream & w1 & Hrun1 & _ & Hd & _).
    rewrite Hrun1 in Hrun. injection Hrun as <- <-.
    destruct (units_of_cells ih _ _ _ Hd) as (bs & _ & _ & _ & H).
    eapply Forall2_Forall_l; [exact H|]. apply Forall_forall.
    intros c _ l Hl. by exists c.
  - unfold split_into_units, nbformat_read in Hrun. by rewrite Hread in Hrun.
Qed.

(** The syllabus cell of a readable document. *)
Lemma load_raw_syllabus_run E file cs w :
  read_cells E file = Some cs →
  match heading_lines cs with
  | [] => ∃ w', load_raw_syllabus E file w = (inl IndexError, w')
  | _ :: _ =>
      ∃ c w', load_raw_syllabus E file w = (inr c, w')
              ∧ from_first_heading is_heading_block (block_stream cs) !! 1
                = Some c
              ∧ is_heading_block c = false ∧ cell_type c = "markdown"
  end.
Proof.
  intros Hread. unfold load_raw_syllabus.
  destruct (split_into_units_run E file true cs w Hread)
    as (stream & w' & Hrun & _ & Hd & _).
  rewrite (bind_run _ _ _ _ _ Hrun).
  pose proof (from_first_heading_stream cs) as Hs.
  destruct (heading_lines cs) as [|h hs].
  - exists w'. by rewrite units_of_nil.
  - destruct Hs as (p & rest & Hs & Hp & Hmd).
    destruct (units_of_second _ _ _ _ _ _ Hd Hs Hp)
      as (u & us & l0 & l1 & ls' & -> & Hu & Hl1).
    exists p, w'. rewrite Hs. split; [|done]. cbn [lookup list_lookup].
    rewrite (bind_run _ _ _ _ _ (ret_run _ _)) Hu /=.
    rewrite (bind_run _ _ _ _ _ (ret_run _ _)). by apply deref_run.
Qed.

(** X4: [split_into_units] returns for every document that can be read,
    creating blocks only: the name of a heading block can always be read,
    so the attribute error of a failed match never occurs. The only
    failure is the one of reading the document, and it leaves the state
    as it was. *)
Theorem split_into_units_fails_only_unreadable E file ih w :
  (∀ cs, read_cells E file = Some cs →
         ∃ units w', split_into_units E file ih w = (inr units, w')
                     ∧ extends w w')
  ∧ (∀ e w', split_into_units E file ih w = (inl e, w') →
             e = OSError file ∧ read_cells E file = None ∧ w' = w).
Proof.
  split; [|apply split_into_units_failure].
  intros cs Hread.
  destruct (split_into_units_run E file ih cs w Hread)
    as (stream & w' & Hrun & Hext & _).
  by eexists _, w'.
Qed.

(** X5: the units of a document are named after its top-level heading
    lines, one unit per line and in the order of the lines, whether
    headers are kept or not. *)
Theorem split_into_units_names E file ih cs w :
  read_cells E file = Some cs →
  ∃ units w', split_into_units E file ih w = (inr units, w')
              ∧ nb_name <$> units = heading_title <$> heading_lines cs.
Proof.
  intros Hread.
  destruct (split_into_units_run E file ih cs w Hread)
    as (stream & w' & Hrun & _ & Hd & _).
  eexists _, w'. split; [exact Hrun|].
  rewrite units_of_names; last by eapply Forall2_length.
  by rewrite filter_block_stream -list_fmap_compose.
Qed.

Lemma split_into_units_names_witness :
  ∃ units w',
    split_into_units two_unit_env "doc.ipynb" false Sample.empty_world
    = (inr units, w')
    ∧ nb_name <$> units = ["A"; "B"].
Proof.
  exact (split_into_units_names two_unit_env "doc.ipynb" false two_unit_doc
           Sample.empty_world eq_refl).
Defined.

(** X6: read in order, the cells of the units are the block stream from
    its first heading block on when headers are kept, and the same
    without the heading blocks when they are not; no block is placed
    twice. *)
Theorem split_into_units_partition E file (ih : bool) cs w :
  read_cells E file = Some cs →
  ∃ units w',
    split_into_units E file ih w = (inr units, w')
    ∧ derefs w' (units ≫= nb_cells)
        (if ih then from_first_heading is_heading_block (block_stream cs)
         else filter (λ c : cell, is_heading_block c = false)
                (from_first_heading is_heading_block (block_stream cs)))
    ∧ NoDup (units ≫= nb_cells).
Proof.
  intros Hread.
  destruct (split_into_units_run E file ih cs w Hread)
    as (stream & w' & Hrun & _ & Hd & Hnd & _).
  eexists _, w'. split; [exact Hrun|]. split.
  - by destruct (units_of_cells ih _ _ _ Hd) as (bs & _ & _ & _ & H).
  - by apply units_of_NoDup.
Qed.

Lemma split_into_units_partition_witness :
  ∃ units w',
    split_into_units two_unit_env "doc.ipynb" false Sample.empty_world
    = (inr units, w')
    ∧ derefs w' (units ≫= nb_cells)
        [ Sample.md (Sample.nl +:+ "one"); Sample.code [Sample.png];
          Sample.md ""; Sample.md (Sample.nl +:+ "two") ]
    ∧ NoDup (units ≫= nb_cells).
Proof.
  exact (split_into_units_partition two_unit_env "doc.ipynb" false
           two_unit_doc Sample.empty_world eq_refl).
Defined.

(** X7: with headers kept, every unit starts with the block of its own
    heading line, a hash, a space and the name of the unit, and has no
    other heading block; without headers no unit has a heading block. *)
Theorem split_into_units_unit_shape E file (ih : bool) cs w :
  read_cells E file = Some cs →
  ∃ units w',
    split_into_units E file ih w = (inr units, w')
    ∧ Forall (λ u, ∃ bs : list cell,
                derefs w' (nb_cells u)
                  ((if ih then [markdown_node ("# " +:+ nb_name u)] else [])
                   ++ bs)
                ∧ Forall (λ c, is_heading_block c = false) bs) units.
Proof.
  intros Hread.
  destruct (split_into_units_run E file ih cs w Hread)
    as (stream & w' & Hrun & _ & Hd & _).
  eexists _, w'. split; [exact Hrun|].
  apply units_of_shape; [done|]. apply Forall_forall.
  intros c Hc. by apply (block_stream_heading_nodes cs).
Qed.

Lemma split_into_units_unit_shape_witness :
  ∃ units w',
    split_into_units two_unit_env "doc.ipynb" true Sample.empty_world
    = (inr units, w')
    ∧ Forall (λ u, ∃ bs : list cell,
                derefs w' (nb_cells u)
                  (markdown_node ("# " +:+ nb_name u) :: bs)
                ∧ Forall (λ c, is_heading_block c = false) bs) units.
Proof.
  exact (split_into_units_unit_shape two_unit_env "doc.ipynb" true
           two_unit_doc Sample.empty_world eq_refl).
Defined.

(** X8: the syllabus cell is the block that follows the first top-level
    heading line of the document, a markdown block that is no heading;
    reading it fails, with an index error, exactly when the document has
    no top-level heading line. *)
Theorem load_raw_syllabus_first_heading E file cs w :
  read_cells E file = Some cs →
  match heading_lines cs with
  | [] => ∃ w', load_raw_syllabus E file w = (inl IndexError, w')
  | _ :: _ =>
      ∃ c w', load_raw_syllabus E file w = (inr c, w')
              ∧ from_first_heading is_heading_block (block_stream cs) !! 1
                = Some c
              ∧ is_heading_block c = false ∧ cell_type c = "markdown"
  end.
Proof. apply load_raw_syllabus_run. Qed.

Lemma load_raw_syllabus_first_heading_witness :
  ∃ c w',
    load_raw_syllabus Sample.course "course/syllabus.ipynb" Sample.empty_world
    = (inr c, w')
    ∧ from_first_heading is_heading_block
        (block_stream [Sample.md Sample.syllabus_text]) !! 1 = Some c
    ∧ is_heading_block c = false ∧ cell_type c = "markdown".
Proof.
  exact (load_raw_syllabus_first_heading Sample.course "course/syllabus.ipynb"
           [Sample.md Sample.syllabus_text] Sample.empty_world eq_refl).
Defined.

(** ** Cell classifier *)

Lemma pages_apart_snoc_component out xml :
  pages_apart out = true → pages_apart (out ++ [Component xml]) = true.
Proof.
  induction out as [|a out IH]; [done|]. cbn [app pages_apart].
  intros [Ha Hout]%andb_prop. rewrite IH // andb_true_r.
  destruct out as [|b out]; [by rewrite andb_false_r|done].
Qed.

Lemma pages_apart_snoc_html out body :
  pages_apart out = true → is_html <$> last out ≠ Some true →
  pages_apart (out ++ [Html body]) = true.
Proof.
  induction out as [|a out IH]; [done|]. cbn [app pages_apart].
  intros [Ha Hout]%andb_prop Hlast. destruct out as [|b out].
  - simpl in *. destruct a; [done|reflexivity].
  - rewrite IH //. by rewrite andb_true_r.
Qed.

Lemma last_snoc_component (out : list artifact) xml :
  is_html <$> last (out ++ [Component xml]) ≠ Some true.
Proof. by rewrite last_snoc. Qed.

Section ClassifierMore.

Context (E : env).

Lemma derefs_resembles w ls cs : derefs w ls cs → resembles w ls cs.
Proof.
  intros H. eapply Forall2_impl; [exact H|]. intros l c Hl. by exists c.
Qed.

Lemma resembles_evolves S w w' ls cs :
  evolves S w w' → resembles w ls cs → resembles w' ls cs.
Proof.
  intros (_ & _ & H) Hr. eapply Forall2_impl; [exact Hr|].
  intros l c (c1 & Hl & Ht & Ho).
  destruct (H l c1 Hl) as (c2 & Hc2 & Ht2 & Ho2 & _).
  exists c2. split; [done|]. split; congruence.
Qed.

Lemma live_evolves S w w' ls : evolves S w w' → live w ls → live w' ls.
Proof.
  intros (_ & _ & H) Hl. eapply Forall_impl; [exact Hl|].
  intros l [c Hc]. destruct (H l c Hc) as (c' & Hc' & _). by exists c'.
Qed.

Lemma flush_pages out nc w out' w' :
  flush E out nc w = (inr out', w') →
  pages_apart out = true → is_html <$> last out ≠ Some true →
  pages_apart out' = true.
Proof.
  unfold flush. destruct nc as [|l nc]; [by intros [= <- _]|].
  intros (html & w1 & _ & [= <- _])%bind_inr. apply pages_apart_snoc_html.
Qed.

Lemma convert_cells_pages cells out nc w out' w' :
  convert_cells E cells out nc w = (inr out', w') →
  pages_apart out = true → is_html <$> last out ≠ Some true →
  pages_apart out' = true.
Proof.
  revert out nc w. induction cells as [|l cells IH]; intros out nc w.
  { apply flush_pages. }
  cbn [convert_cells]. intros (c & w1 & _ & H)%bind_inr. revert H.
  case_decide as Hmd; [by apply IH|].
  destruct (outputs c) as [outs|]; [|by apply IH].
  destruct (omap xml_component outs) as [|x xs]; [by apply IH|].
  case_decide as Hlen; [done|].
  intros (xml & w2 & _ & (out1 & w3 & Hf & H)%bind_inr)%bind_inr Hout Hlast.
  eapply IH; [exact H| |apply last_snoc_component].
  apply pages_apart_snoc_component. by eapply flush_pages.
Qed.

Lemma flush_components out nc w out' w' :
  flush E out nc w = (inr out', w') →
  omap component_of out' = omap component_of out.
Proof.
  unfold flush. destruct nc as [|l nc]; [by intros [= <- _]|].
  intros (html & w1 & _ & [= <- _])%bind_inr.
  by rewrite omap_app /= app_nil_r.
Qed.

Lemma convert_cells_components cells cs out nc w out' w' :
  resembles w cells cs →
  convert_cells E cells out nc w = (inr out', w') →
  ∃ xmls, omap component_of out' = omap component_of out ++ xmls
          ∧ Forall2 (λ xml p, fromstring E p = Some xml)
              xmls (cs ≫= cell_components).
Proof.
  revert cs out nc w. induction cells as [|l ls IH]; intros cs out nc w Hr.
  { apply Forall2_nil_inv_l in Hr as ->.
    intros ->%flush_components. exists []. by rewrite app_nil_r. }
  apply Forall2_cons_inv_l in Hr as (c & cs' & (c1 & Hl & Ht & Ho) & Hr & ->).
  cbn [convert_cells]. rewrite (bind_run _ _ _ _ _ (deref_run _ _ _ Hl)).
  rewrite bind_cons. unfold cell_components at 1. rewrite Ht Ho.
  case_decide as Hmd; [by apply IH|].
  destruct (outputs c) as [outs|]; [|by apply IH].
  destruct (omap xml_component outs) as [|x xs] eqn:Hx; [by apply IH|].
  case_decide as Hlen; [done|].
  assert (xs = []) as -> by (destruct xs; [done|simpl in Hlen; lia]).
  intros (xml & w2 & [Hx' ->]%lift_option_inr
          & (out1 & w3 & Hf & H)%bind_inr)%bind_inr.
  pose proof (flush_evolves _ _ _ _ _ _ Hf) as Hev.
  destruct (IH cs' _ _ _ (resembles_evolves _ _ _ _ _ Hev Hr) H)
    as (xmls & Hout & Hxmls).
  exists (xml :: xmls). split; [|by constructor].
  rewrite Hout omap_app (flush_components _ _ _ _ _ Hf) /=.
  by rewrite -assoc.
Qed.

(** *** How a conversion can fail *)

Lemma for_each_rewrite_source_live ls w r w' :
  live w ls → for_each rewrite_source ls w = (r, w') → ∃ us, r = inr us.
Proof.
  revert w r. induction ls as [|l ls IH]; intros w r Hlive; simpl.
  { intros [= <- _]. by eexists. }
  apply Forall_cons in Hlive as [[c Hc] Hlive].
  intros [(e & H1 & ->)|(u & w1 & H1 & H)]%bind_cases.
  { unfold rewrite_source in H1.
    rewrite (bind_run _ _ _ _ _ (deref_run _ _ _ Hc)) in H1.
    by case_decide. }
  apply bind_cases in H as [(e & H2 & ->)|(us & w2 & H2 & [= <- _])];
    [|by eexists].
  apply rewrite_source_evolves in H1.
  destruct (IH _ _ (live_evolves _ _ _ _ H1 Hlive) H2) as [? [=]].
Qed.

Lemma for_each_deref_live ls w r w' :
  live w ls → for_each deref ls w = (r, w') → ∃ cs, r = inr cs.
Proof.
  revert r. induction ls as [|l ls IH]; intros r Hlive; simpl.
  { intros [= <- _]. by eexists. }
  apply Forall_cons in Hlive as [[c Hc] Hlive].
  rewrite (bind_run _ _ _ _ _ (deref_run _ _ _ Hc)).
  intros [(e & H2 & ->)|(us & w2 & H2 & [= <- _])]%bind_cases; [|by eexists].
  destruct (IH _ Hlive H2) as [? [=]].
Qed.

Lemma flush_failure out nc w e w' :
  live w nc → flush E out nc w = (inl e, w') →
  e = ExportError ∧ ∃ cs, export_html E cs = None.
Proof.
  unfold flush. destruct nc as [|l nc]; [done|]. intros Hlive.
  intros [(e' & H & [= ->])|(html & w1 & _ & [=])]%bind_cases.
  unfold convert_normal_cells in H.
  apply bind_cases in H as [(e1 & H1 & [= ->])|(us & w1 & H1 & H)].
  { by destruct (for_each_rewrite_source_live _ _ _ _ Hlive H1). }
  apply for_each_rewrite_source_evolves in H1.
  pose proof (live_evolves _ _ _ _ H1 Hlive) as Hlive1.
  unfold export_unit_to_html in H.
  apply bind_cases in H as [(e2 & H2 & [= ->])|(cs & w2 & H2 & H)].
  { by destruct (for_each_deref_live _ _ _ _ Hlive1 H2). }
  destruct (export_html E cs) eqn:Hex; [done|].
  injection H as <- _. eauto.
Qed.

Lemma resembles_live w ls cs : resembles w ls cs → live w ls.
Proof.
  induction 1 as [|l c ls cs (c' & Hl & _) _ IH]; constructor; [by eexists|done].
Qed.

Lemma convert_cells_failure cells cs out nc w e w' :
  resembles w cells cs → live w nc →
  convert_cells E cells out nc w = (inl e, w') →
  (e = RuntimeError "More than 1 xml component in a cell."
   ∧ Exists multiple_components cs)
  ∨ (e = XMLParseError
     ∧ Exists (λ p, fromstring E p = None) (cs ≫= cell_components))
  ∨ (e = ExportError ∧ ∃ cs', export_html E cs' = None).
Proof.
  revert cs out nc w. induction cells as [|l ls IH]; intros cs out nc w Hr Hlive.
  { intros H%flush_failure; [|done]. by right; right. }
  apply Forall2_cons_inv_l in Hr as (c & cs' & (c1 & Hl & Ht & Ho) & Hr & ->).
  cbn [convert_cells]. rewrite (bind_run _ _ _ _ _ (deref_run _ _ _ Hl)).
  assert (Hlive' : live w (nc ++ [l])).
  { apply Forall_app. split; [done|]. repeat constructor. by eexists. }
  assert (Hlater : ∀ out1 nc1 w1,
    live w1 nc1 → resembles w1 ls cs' →
    convert_cells E ls out1 nc1 w1 = (inl e, w') →
    (e = RuntimeError "More than 1 xml component in a cell."
     ∧ Exists multiple_components (c :: cs'))
    ∨ (e = XMLParseError
       ∧ Exists (λ p, fromstring E p = None)
           ((c :: cs') ≫= cell_components))
    ∨ (e = ExportError ∧ ∃ cs', export_html E cs' = None)).
  { intros out1 nc1 w1 Hl1 Hr1 H.
    destruct (IH _ _ _ _ Hr1 Hl1 H) as [[-> Hm]|[[-> Hx]|Hex]].
    - left. split; [done|]. by right.
    - right; left. split; [done|]. rewrite bind_cons Exists_app. by right.
    - by right; right. }
  case_decide as Hmd; [by apply Hlater|].
  destruct (outputs c1) as [outs|] eqn:Ho1; [|by apply Hlater].
  destruct (omap xml_component outs) as [|x xs] eqn:Hx; [by apply Hlater|].
  case_decide as Hlen.
  { intros [= <- _]. left. split; [done|]. left. split; [congruence|].
    exists outs. split; [congruence|]. by rewrite Hx. }
  assert (xs = []) as -> by (destruct xs; [done|simpl in Hlen; lia]).
  intros [(e' & H1 & [= ->])|(xml & w2 & [_ ->]%lift_option_inr & H)]%bind_cases.
  { destruct (fromstring E x) eqn:Hfs; [done|]. injection H1 as <- _.
    right; left. split; [done|]. rewrite bind_cons Exists_app. left.
    unfold cell_components. rewrite decide_False; last congruence.
    rewrite -Ho Hx. by left. }
  apply bind_cases in H as [(e1 & H1 & [= ->])|(out1 & w3 & Hf & H)].
  { apply flush_failure in H1; [|done]. by right; right. }
  apply flush_evolves in Hf.
  refine (Hlater _ [] w3 _ _ H); [constructor|].
  by eapply resembles_evolves.
Qed.

End ClassifierMore.

(** X9: in the output of [convert_unit] no two HTML texts follow each
    other, and its components are, in the order of the blocks, the
    parsed component texts of the blocks that are not markdown. *)
Theorem convert_unit_output_structure E unit cs w out w' :
  derefs w (nb_cells unit) cs →
  convert_unit E unit w = (inr out, w') →
  pages_apart out = true
  ∧ Forall2 (λ xml p, fromstring E p = Some xml)
      (omap component_of out) (cs ≫= cell_components).
Proof.
  intros Hd Hrun. split.
  - by eapply convert_cells_pages.
  - destruct (convert_cells_components E _ _ _ _ _ _ _
                (derefs_resembles _ _ _ Hd) Hrun) as (xmls & Hout & Hx).
    by rewrite Hout.
Qed.

Lemma convert_unit_output_structure_witness :
  ∃ out w',
    convert_unit Sample.course sample_unit unit_world = (inr out, w')
    ∧ pages_apart out = true
    ∧ Forall2 (λ xml p, fromstring Sample.course p = Some xml)
        (omap component_of out) ["<video youtube='abc'/>"].
Proof.
  destruct (convert_unit Sample.course sample_unit unit_world)
    as [[e|out] w'] eqn:H; [vm_compute in H; discriminate H|].
  exists out, w'. split; [reflexivity|].
  apply (convert_unit_output_structure Sample.course sample_unit unit_cells
           unit_world out w'); [|exact H].
  repeat constructor.
Defined.

(** X10: over cells that exist, [convert_unit] fails in three ways only:
    with the runtime error, and then a block has more than one component;
    with the parser's error, and then the parser refuses a component
    text of the unit; or with the exporter's error. *)
Theorem convert_unit_failure_kinds E unit cs w e w' :
  derefs w (nb_cells unit) cs →
  convert_unit E unit w = (inl e, w') →
  (e = RuntimeError "More than 1 xml component in a cell."
   ∧ Exists multiple_components cs)
  ∨ (e = XMLParseError
     ∧ Exists (λ p, fromstring E p = None) (cs ≫= cell_components))
  ∨ (e = ExportError ∧ ∃ cs', export_html E cs' = None).
Proof.
  intros Hd Hrun.
  eapply convert_cells_failure; [by apply derefs_resembles| |exact Hrun].
  constructor.
Qed.

Lemma convert_unit_failure_kinds_witness :
  ∃ e w',
    convert_unit Sample.course bad_unit bad_unit_world = (inl e, w')
    ∧ ((e = RuntimeError "More than 1 xml component in a cell."
        ∧ Exists multiple_components bad_unit_cells)
       ∨ (e = XMLParseError
          ∧ Exists (λ p, fromstring Sample.course p = None)
              (bad_unit_cells ≫= cell_components))
       ∨ (e = ExportError ∧ ∃ cs', export_html Sample.course cs' = None)).
Proof.
  destruct (convert_unit Sample.course bad_unit bad_unit_world)
    as [[e|out] w'] eqn:H; [|vm_compute in H; discriminate H].
  exists e, w'. split; [reflexivity|].
  apply (convert_unit_failure_kinds Sample.course bad_unit bad_unit_cells
           bad_unit_world e w'); [|exact H].
  repeat constructor.
Defined.

(** ** The math pass of the serializer *)

Lemma find_close_free d s g r :
  Str.find_close (String d "") s = Some (g, r) → free_of d g.
Proof.
  revert g. induction s as [|c s IH]; intros g; [done|].
  cbn [Str.find_close].
  destruct (Str.strip_prefix (String d "") (String c s)) as [r'|] eqn:Hp.
  { by intros [= <- _]. }
  case_decide; [done|].
  destruct (Str.find_close (String d "") s) as [[g' r']|]; [|done].
  intros [= <- <-]. split; [|by apply IH].
  intros ->. simpl in Hp. by rewrite decide_True // in Hp.
Qed.

Lemma find_close_re_sub opn cls s :
  Str.find_close "$" s = None →
  Str.find_close "$" (re_sub (match_delim "$" opn cls) s) = None.
Proof.
  induction s as [|c s IH]; [done|]. cbn [Str.find_close].
  destruct (Str.strip_prefix "$" (String c s)) as [r'|] eqn:Hp; [done|].
  assert (c ≠ "$"%char) as Hc.
  { intros ->. by simpl in Hp. }
  rewrite re_sub_skip; last by apply match_delim_head_ne.
  cbn [Str.find_close]. rewrite strip_prefix_head_ne //.
  case_decide; [done|].
  destruct (Str.find_close "$" s) as [[g' r']|]; [done|]. by rewrite IH.
Qed.

Lemma dollars_unpaired_app p t :
  free_of "$" p → dollars_unpaired t → dollars_unpaired (p +:+ t).
Proof.
  induction p as [|c p IH]; [done|]. intros [Hc Hp] Ht.
  rewrite str_app_cons. split; [done|by apply IH].
Qed.

Lemma dollars_unpaired_re_sub opn cls s :
  free_of "$" opn → free_of "$" cls →
  dollars_unpaired (re_sub (match_delim "$" opn cls) s).
Proof.
  intros Hopn Hcls. remember (String.length s) as n eqn:Hn.
  revert s Hn. induction (lt_wf n) as [n _ IH]. intros s ->.
  destruct s as [|c s]; [done|].
  destruct (match_delim "$" opn cls (String c s)) as [[repl rest]|] eqn:Hm.
  - rewrite (re_sub_match _ _ _ _ (match_delim_consuming _ _ _ _) Hm).
    pose proof (match_delim_consuming _ _ _ _ _ _ _ Hm) as Hlen.
    apply dollars_unpaired_app; [|by eapply IH].
    unfold match_delim in Hm.
    destruct (Str.strip_prefix "$" (String c s)) as [s1|]; [|done].
    simpl in Hm.
    destruct (Str.find_close "$" s1) as [[g r]|] eqn:Hg; [|done].
    injection Hm as <- <-. rewrite !free_of_app.
    split; [done|]. split; [by eapply find_close_free|done].
  - rewrite re_sub_skip //. split; [|eapply IH; [|done]; simpl; lia].
    intros ->. apply find_close_re_sub.
    unfold match_delim in Hm. simpl in Hm.
    by destruct (Str.find_close "$" s) as [[g r]|].
Qed.

Lemma dollars_unpaired_inline opn cls s :
  dollars_unpaired s → re_sub (match_delim "$" opn cls) s = s.
Proof.
  induction s as [|c s IH]; [done|]. intros [Hc Hs].
  rewrite re_sub_skip; [by rewrite IH|].
  destruct (decide (c = "$"%char)) as [->|Hne];
    [|by apply match_delim_head_ne].
  unfold match_delim. simpl. by rewrite Hc.
Qed.

Lemma dollars_unpaired_display opn cls s :
  dollars_unpaired s → re_sub (match_delim "$$" opn cls) s = s.
Proof.
  induction s as [|c s IH]; [done|]. intros [Hc Hs].
  rewrite re_sub_skip; [by rewrite IH|].
  destruct (decide (c = "$"%char)) as [->|Hne];
    [|by apply match_delim_head_ne].
  specialize (Hc eq_refl). unfold match_delim.
  destruct s as [|c' s]; [done|].
  destruct (decide (c' = "$"%char)) as [->|Hne].
  - by simpl in Hc.
  - simpl. by rewrite decide_False; [|congruence].
Qed.

Lemma find_close_reachable x b :
  free_of Str.newline x → Str.find_close "$" (x +:+ "$" +:+ b) ≠ None.
Proof.
  induction x as [|c x IH]; intros Hx.
  { rewrite str_app_nil_l. simpl. by destruct b. }
  destruct Hx as [Hc Hx]. rewrite str_app_cons. cbn [Str.find_close].
  destruct (Str.strip_prefix "$" _); [done|]. rewrite decide_False //.
  specialize (IH Hx). by destruct (Str.find_close "$" _) as [[g r]|].
Qed.

Lemma dollars_unpaired_no_pair a x b :
  free_of Str.newline x →
  ¬ dollars_unpaired (a +:+ "$" +:+ x +:+ "$" +:+ b).
Proof.
  intros Hx. induction a as [|c a IH].
  - rewrite str_app_nil_l. intros [Hc _]. specialize (Hc eq_refl).
    rewrite str_app_nil_l in Hc. by eapply find_close_reachable.
  - rewrite str_app_cons. intros [_ H]. by apply IH.
Qed.

(** X11: the math pass of [save_xml] leaves no two dollars with only
    text of one line between them, and applying it a second time changes
    nothing, whatever the text. *)
Theorem math_rewrite_idempotent t :
  math_rewrite (math_rewrite t) = math_rewrite t
  ∧ ∀ a x b, free_of Str.newline x →
             math_rewrite t ≠ a +:+ "$" +:+ x +:+ "$" +:+ b.
Proof.
  assert (Hu : dollars_unpaired (math_rewrite t))
    by by apply dollars_unpaired_re_sub.
  split.
  - unfold math_rewrite at 1. unfold sub_display_math, sub_inline_math.
    by rewrite dollars_unpaired_display // dollars_unpaired_inline.
  - intros a x b Hx Heq. rewrite Heq in Hu.
    by eapply dollars_unpaired_no_pair.
Qed.

(** ** How a run of the converter can end *)

(** A loop fails with the failure of one of its rounds. *)
Lemma for_each_i_failure {A B} (I : world → Prop) (P : exn → Prop)
    (f : nat → A → M B) l i w e w' :
  I w →
  (∀ k x w r w', x ∈ l → I w → f k x w = (r, w') →
                 I w' ∧ ∀ e, r = inl e → P e) →
  for_each_i f i l w = (inl e, w') → P e.
Proof.
  revert i w. induction l as [|x l IH]; intros i w HI Hf; [done|]. simpl.
  intros [(e1 & H1 & [= ->])|(y & w1 & H1 & H)]%bind_cases.
  { by eapply (Hf i x w _ _ (list_elem_of_here _ _) HI H1). }
  destruct (Hf i x w _ _ (list_elem_of_here _ _) HI H1) as [HI1 _].
  apply bind_cases in H as [(e1 & H2 & [= ->])|(ys & w2 & _ & [=])].
  eapply (IH (S i) w1); [done| |exact H2].
  intros k z w3 r w4 Hz. apply Hf. by right.
Qed.

Lemma for_each_failure {A B} (P : exn → Prop) (f : A → M B) l w e w' :
  (∀ x w e w', x ∈ l → f x w = (inl e, w') → P e) →
  for_each f l w = (inl e, w') → P e.
Proof.
  revert w. induction l as [|x l IH]; intros w Hf; [done|]. simpl.
  intros [(e1 & H1 & [= ->])|(y & w1 & H1 & H)]%bind_cases.
  { by eapply (Hf x w _ _ (list_elem_of_here _ _) H1). }
  apply bind_cases in H as [(e1 & H2 & [= ->])|(ys & w2 & _ & [=])].
  eapply (IH w1); [|exact H2]. intros z w3 e3 w4 Hz. apply Hf. by right.
Qed.

Section Outcome.

Context (E : env).

Lemma live_derefs w ls : live w ls → ∃ cs, derefs w ls cs.
Proof.
  unfold live. induction 1 as [|l ls [c Hc] _ [cs IH]].
  - exists []. constructor.
  - exists (c :: cs). by constructor.
Qed.

Lemma convert_unit_failure unit w e w' :
  live w (nb_cells unit) → convert_unit E unit w = (inl e, w') →
  run_failure e.
Proof.
  intros [cs Hd]%live_derefs Hrun.
  destruct (convert_cells_failure E _ _ _ _ _ _ _
              (derefs_resembles _ _ _ Hd) (Forall_nil_2 _) Hrun)
    as [[-> _]|[[-> _]|[-> _]]]; done.
Qed.

Lemma add_output_returns hf vurl name j out w :
  ∃ el w', add_output E hf vurl name j out w = (inr el, w').
Proof. destruct out; by eexists _, _. Qed.

Lemma for_each_i_add_output_returns hf vurl name i outs w :
  ∃ els w', for_each_i (add_output E hf vurl name) i outs w = (inr els, w').
Proof.
  revert i w. induction outs as [|out outs IH]; intros i w; [by eexists _, _|].
  simpl. destruct (add_output_returns hf vurl name i out w) as (el & w1 & H1).
  rewrite (bind_run _ _ _ _ _ H1).
  destruct (IH (S i) w1) as (els & w2 & H2).
  rewrite (bind_run _ _ _ _ _ H2). by eexists _, _.
Qed.

Lemma add_vertical_live hf sq i unit w r w' ls :
  add_vertical E hf sq i unit w = (r, w') → live w ls → live w' ls.
Proof.
  unfold add_vertical.
  intros [(e & H1 & _)|(outs & w1 & H1 & H)]%bind_cases Hlive;
    apply convert_unit_evolves in H1;
    pose proof (live_evolves _ _ _ _ H1 Hlive) as Hlive1; [done|].
  apply bind_cases in H as [(e & H2 & _)|(els & w2 & H2 & [= _ <-])];
    apply for_each_i_add_output_writes in H2 as [_ Hh];
    unfold live; by rewrite Hh.
Qed.

Lemma add_vertical_failure hf sq i unit w e w' :
  live w (nb_cells unit) →
  add_vertical E hf sq i unit w = (inl e, w') → run_failure e.
Proof.
  intros Hlive. unfold add_vertical.
  intros [(e1 & H1 & [= ->])|(outs & w1 & _ & H)]%bind_cases.
  { by eapply convert_unit_failure. }
  destruct (for_each_i_add_output_returns hf
              (seq_url sq +:+ "_" +:+ fmt02 i) (nb_name unit) 0 outs w1)
    as (els & w2 & H2).
  by rewrite (bind_run _ _ _ _ _ H2) in H.
Qed.

Lemma add_sequential_failure hf ch sq w e w' :
  add_sequential E hf ch sq w = (inl e, w') → run_failure e.
Proof.
  unfold add_sequential.
  intros [(e1 & H1 & [= ->])|(units & w1 & H1 & H)]%bind_cases.
  { by apply split_into_units_failure in H1 as (-> & _). }
  apply split_into_units_live in H1.
  apply bind_cases in H as [(e1 & H2 & [= ->])|(vs & w2 & _ & [=])].
  eapply (for_each_i_failure (λ w, live w (units ≫= nb_cells)));
    [exact H1| |exact H2].
  intros k u w3 r w4 Hu Hlive Hrun. split.
  - by eapply add_vertical_live.
  - intros e2 ->. eapply add_vertical_failure; [|exact Hrun].
    eapply Forall_forall. intros l Hl.
    eapply Forall_forall in Hlive; [exact Hlive|].
    apply list_elem_of_bind. by exists u.
Qed.

Lemma add_chapter_failure hf ch w e w' :
  is_Some (ch_date ch) →
  add_chapter E hf ch w = (inl e, w') → run_failure e.
Proof.
  intros [d Hd]. unfold add_chapter. rewrite Hd.
  intros [(e1 & H1 & [= ->])|(start & w1 & _ & H)]%bind_cases.
  { cbn [date_to_edx] in H1. destruct (reformat_date E d 10 0); [done|].
    by injection H1 as <- _. }
  apply bind_cases in H as [(e1 & H2 & [= ->])|(sqs & w2 & _ & [=])].
  eapply for_each_failure; [|exact H2].
  intros sq w3 e3 w4 _. apply add_sequential_failure.
Qed.

Lemma make_chapters_dated cf i syllabus :
  Forall (λ ch, is_Some (ch_date ch)) (make_chapters cf false i syllabus).
Proof.
  revert i. induction syllabus as [|s syllabus IH]; intros i; [constructor|].
  cbn [make_chapters negb andb]. case_bool_decide as Hnone; [apply IH|].
  constructor; [|apply IH]. simpl. by destruct (entry_date s).
Qed.

Lemma load_raw_syllabus_failure file w e w' :
  load_raw_syllabus E file w = (inl e, w') → run_failure e.
Proof.
  intros Hrun. destruct (read_cells E file) as [cs|] eqn:Hread.
  - pose proof (load_raw_syllabus_run E file cs w Hread) as H.
    destruct (heading_lines cs).
    + destruct H as (w1 & H). rewrite H in Hrun. by injection Hrun as <- _.
    + destruct H as (c & w1 & H & _). by rewrite H in Hrun.
  - unfold load_raw_syllabus in Hrun.
    apply bind_cases in Hrun as [(e1 & H1 & [= ->])|(units & w1 & H1 & _)].
    + by apply split_into_units_failure in H1 as (-> & _).
    + unfold split_into_units, nbformat_read in H1. by rewrite Hread in H1.
Qed.

Lemma parse_syllabus_outcome file cf w r w' :
  parse_syllabus E file cf false w = (r, w') →
  match r with
  | inl e => run_failure e
  | inr data => Forall (λ ch, is_Some (ch_date ch)) data
  end.
Proof.
  unfold parse_syllabus.
  intros [(e1 & H1 & ->)|(c & w1 & _ & H)]%bind_cases.
  { by eapply load_raw_syllabus_failure. }
  pose proof (parse_lines_start E (Str.split_lines (source c))) as Hs.
  destruct (parse_lines E (Str.split_lines (source c)) []) as [e|syllabus].
  - injection H as <- _.
    by destruct (head (omap match_syllabus_line _)) as [[?|??]|];
      simplify_eq.
  - injection H as <- _. apply make_chapters_dated.
Qed.

Lemma converter_failure mooc cf w e w' :
  converter E mooc cf w = (inl e, w') → run_failure e.
Proof.
  unfold converter.
  intros [(e1 & H1 & [= ->])|(data & w1 & H1 & H)]%bind_cases;
    apply parse_syllabus_outcome in H1; [done|].
  apply bind_cases in H as [(e1 & H2 & [= ->])|(txt & w2 & _ & H)].
  { destruct (course_xml E); [done|]. by injection H2 as <- _. }
  apply bind_cases in H as [(e1 & H3 & [= ->])|(sk & w3 & _ & H)].
  { destruct (fromstring E txt); [done|]. by injection H3 as <- _. }
  apply bind_cases in H as [(e1 & H4 & [= ->])|(chs & w4 & _ & H)].
  { eapply for_each_failure; [|exact H4].
    intros ch w5 e5 w6 Hch. apply add_chapter_failure.
    by eapply Forall_forall in H1. }
  done.
Qed.

End Outcome.

(** X12: in a run of the converter no chapter is built without a date,
    and every heading block gives its unit a name: a run that fails does
    not fail with the type error of [date_to_edx] on a missing date, nor
    with the attribute error of a heading that does not match. *)
Theorem converter_dates_and_headings_present E mooc cf w e w' :
  converter E mooc cf w = (inl e, w') →
  e ≠ TypeError ∧ e ≠ AttributeError.
Proof.
  intros H%converter_failure. by destruct e.
Qed.

Lemma converter_dates_and_headings_present_witness :
  ∃ e w',
    converter Sample.broken_course "." (Some "course") Sample.empty_world
    = (inl e, w')
    ∧ e ≠ TypeError ∧ e ≠ AttributeError.
Proof.
  destruct (converter Sample.broken_course "." (Some "course")
              Sample.empty_world) as [[e|root] w'] eqn:H;
    [|vm_compute in H; discriminate H].
  exists e, w'. split; [reflexivity|].
  exact (converter_dates_and_headings_present _ _ _ _ _ _ H).
Defined.

(** ** Course tree builder *)

Lemma for_each_i_inr {A B} (f : nat → A → M B) i l w ys w' :
  for_each_i f i l w = (inr ys, w') →
  Forall2 (λ x y, ∃ k w1 w2, f k x w1 = (inr y, w2)) l ys.
Proof.
  revert i w ys. induction l as [|x l IH]; intros i w ys; simpl.
  - intros [= <- <-]. constructor.
  - intros (y & w1 & Hy & (ys' & w2 & Hys & [= <- <-])%bind_inr)%bind_inr.
    constructor; eauto.
Qed.

Section BuilderMore.

Context (E : env).

Lemma add_output_trace hf vurl name j out w el w' :
  add_output E hf vurl name j out w = (inr el, w') →
  trace w' = trace w ++ output_files E hf vurl j out ∧ heap w' = heap w.
Proof.
  unfold add_output. destruct out as [body|xml].
  - intros [= _ <-]. simpl. by rewrite -assoc.
  - intros [= _ <-]. simpl. by rewrite app_nil_r.
Qed.

Lemma for_each_i_add_output_trace hf vurl name i outs w els w' :
  for_each_i (add_output E hf vurl name) i outs w = (inr els, w') →
  trace w' = trace w ++ concat (imap (λ d, output_files E hf vurl (i + d)) outs)
  ∧ heap w' = heap w ∧ length els = length outs.
Proof.
  revert i w els. induction outs as [|out outs IH]; intros i w els; simpl.
  { intros [= <- <-]. by rewrite app_nil_r. }
  intros (el & w1 & [Ht1 Hh1]%add_output_trace
          & (els' & w2 & H2 & [= <- <-])%bind_inr)%bind_inr.
  apply IH in H2 as (Ht2 & Hh2 & Hlen).
  rewrite Ht2 Ht1 Hh2 Hh1 Nat.add_0_r -assoc /= Hlen. split; [|done].
  do 3 f_equal. apply imap_ext. intros d a _. simpl. f_equal. lia.
Qed.

Lemma add_vertical_inr hf sq i unit w v w' :
  add_vertical E hf sq i unit w = (inr v, w') →
  tag v = "vertical" ∧ attrib v !! "display_name" = Some (nb_name unit).
Proof.
  unfold add_vertical.
  intros (outs & w1 & _ & (els & w2 & _ & [= <- <-])%bind_inr)%bind_inr.
  split; [done|]. by simplify_map_eq.
Qed.

Lemma split_into_units_inr_names file ih cs w units w' :
  read_cells E file = Some cs →
  split_into_units E file ih w = (inr units, w') →
  nb_name <$> units = heading_title <$> heading_lines cs.
Proof.
  intros Hread Hrun.
  destruct (split_into_units_run E file ih cs w Hread)
    as (stream & w1 & Hrun1 & _ & Hd & _).
  rewrite Hrun1 in Hrun. injection Hrun as <- <-.
  rewrite units_of_names; last by eapply Forall2_length.
  by rewrite filter_block_stream -list_fmap_compose.
Qed.

End BuilderMore.

(** X13: building a vertical writes, for each HTML text of the converted
    unit and in their order, the body into the HTML folder and then an
    iframe page into the working copy, both named after the position of
    the text in the vertical; a component writes no file. Nothing else
    is written, and the vertical has one child per artifact. *)
Theorem add_vertical_files E hf sq i unit w v w' :
  add_vertical E hf sq i unit w = (inr v, w') →
  ∃ out w1,
    convert_unit E unit w = (inr out, w1)
    ∧ trace w' = trace w
                 ++ concat (imap (output_files E hf
                                    (seq_url sq +:+ "_" +:+ fmt02 i)) out)
    ∧ heap w' = heap w1
    ∧ length (children v) = length out.
Proof.
  unfold add_vertical.
  intros (out & w1 & Hconv & (els & w2 & H & [= <- <-])%bind_inr)%bind_inr.
  exists out, w1. split; [done|].
  apply for_each_i_add_output_trace in H as (Ht & Hh & Hlen).
  apply convert_unit_evolves in Hconv as (Ht1 & _).
  by rewrite Ht Ht1.
Qed.

Lemma add_vertical_files_witness :
  ∃ v w',
    add_vertical Sample.course "out"
      (make_sequential "course" None 0 0 ("Bands", "w1/bands.ipynb"))
      0 sample_unit unit_world = (inr v, w')
    ∧ length (trace w') = 4 ∧ length (children v) = 3.
Proof.
  destruct (add_vertical Sample.course "out"
      (make_sequential "course" None 0 0 ("Bands", "w1/bands.ipynb"))
      0 sample_unit unit_world) as [[e|v] w'] eqn:H;
    [vm_compute in H; discriminate H|].
  exists v, w'. split; [reflexivity|].
  destruct (add_vertical_files _ _ _ _ _ _ _ _ H)
    as (out & w1 & Hout & Ht & _ & Hlen).
  pose proof Hout as Hout'. vm_compute in Hout'. injection Hout' as <- <-.
  rewrite Ht Hlen. split; reflexivity.
Defined.

(** X14: a sequential gets one vertical for each top-level heading line
    of its document, in the order of the lines, displayed under the title
    of the line. *)
Theorem sequential_verticals E hf ch sq cs w el w' :
  read_cells E (seq_source_notebook sq) = Some cs →
  add_sequential E hf ch sq w = (inr el, w') →
  Forall2 (λ title v, tag v = "vertical"
                      ∧ attrib v !! "display_name" = Some title)
    (heading_title <$> heading_lines cs) (children el).
Proof.
  intros Hread. unfold add_sequential.
  intros (units & w1 & Hunits
          & (vs & w2 & Hvs & [= <- <-])%bind_inr)%bind_inr.
  rewrite -(split_into_units_inr_names E _ _ _ _ _ _ Hread Hunits).
  apply Forall2_fmap_l. apply for_each_i_inr in Hvs. cbn [children].
  eapply Forall2_impl; [exact Hvs|].
  intros u v (k & w3 & w4 & H). by eapply add_vertical_inr.
Qed.

Lemma sequential_verticals_witness :
  ∃ el w',
    add_sequential Sample.course "out"
      (make_chapter "course" 1
         (Entry "Week 1" (Some "3 Sep 2018")
            [("Topology", "w1/topology.ipynb")]))
      (make_sequential "course" (Some "3 Sep 2018") 1 0
         ("Topology", "w1/topology.ipynb")) Sample.empty_world
    = (inr el, w')
    ∧ Forall2 (λ title v, tag v = "vertical"
                          ∧ attrib v !! "display_name" = Some title)
        ["Bands"; "Gaps"] (children el).
Proof.
  destruct (add_sequential Sample.course "out"
      (make_chapter "course" 1
         (Entry "Week 1" (Some "3 Sep 2018")
            [("Topology", "w1/topology.ipynb")]))
      (make_sequential "course" (Some "3 Sep 2018") 1 0
         ("Topology", "w1/topology.ipynb")) Sample.empty_world)
    as [[e|el] w'] eqn:H; [vm_compute in H; discriminate H|].
  exists el, w'. split; [reflexivity|].
  apply (sequential_verticals Sample.course "out"
      (make_chapter "course" 1
         (Entry "Week 1" (Some "3 Sep 2018")
            [("Topology", "w1/topology.ipynb")]))
      (make_sequential "course" (Some "3 Sep 2018") 1 0
         ("Topology", "w1/topology.ipynb"))
      [Sample.md (Sample.unlines ["# Bands"; "Text $E$"; "# Gaps"]);
       Sample.code [Sample.png]] Sample.empty_world el w');
    [vm_compute; reflexivity|exact H].
Defined.

(** X15: a run of the converter that succeeds returns the skeleton with
    the chapters added after its own children; after the files of the
    chapters it writes [course.xml] in the working copy, holding that
    tree after the math pass, and right after that it creates the
    archive from the working copy. *)
Theorem converter_success E mooc cf w root w' :
  converter E mooc cf w = (inr root, w') →
  ∃ course_text skeleton chapters files,
    course_xml E = Some course_text
    ∧ fromstring E course_text = Some skeleton
    ∧ root = {| tag := tag skeleton; attrib := attrib skeleton;
                text := text skeleton;
                children := children skeleton ++ chapters |}
    ∧ Forall (λ ev, ∃ path body, ev = WriteFile path body) files
    ∧ (trace w ++ files
       ++ [ WriteFile (path_join E (dirpath E) "course.xml")
              (math_rewrite (prettify E root));
            CreateArchive
              (path_join E (path_join E mooc "generated")
                 "import_to_edx.tar.gz")
              (dirpath E) ])
      `prefix_of` trace w'.
Proof.
  unfold converter.
  intros (data & w1 & Hdata & H)%bind_inr.
  apply bind_inr in H as (txt & w2 & [Htxt ->]%lift_option_inr & H).
  apply bind_inr in H as (sk & w3 & [Hsk ->]%lift_option_inr & H).
  apply bind_inr in H as (chs & w4 & Hchs & H).
  apply bind_inr in H as ([] & w5 & H5 & H).
  apply bind_inr in H as ([] & w6 & H6 & [= <- <-]).
  apply parse_syllabus_writes in Hdata as (ev1 & Ht1 & Hev1).
  apply build_chapters_writes in Hchs as (ev2 & Ht2 & Hev2).
  injection H5 as <-. injection H6 as <-.
  exists txt, sk, chs, (ev1 ++ ev2). split; [done|]. split; [done|].
  split; [done|]. split; [by apply Forall_app|].
  exists []. cbn [trace]. rewrite Ht2 Ht1 -!assoc app_nil_r. done.
Qed.

Lemma converter_success_witness :
  ∃ root w',
    converter Sample.dated_course "." (Some "course") Sample.empty_world
    = (inr root, w')
    ∧ CreateArchive "./generated/import_to_edx.tar.gz" "tmp/course"
      ∈ trace w'.
Proof.
  destruct (converter Sample.dated_course "." (Some "course")
              Sample.empty_world) as [[e|root] w'] eqn:H;
    [vm_compute in H; discriminate H|].
  exists root, w'. split; [reflexivity|].
  destruct (converter_success _ _ _ _ _ _ H)
    as (txt & sk & chs & files & _ & _ & _ & _ & [later ->]).
  rewrite !elem_of_app. left. right. right.
  apply elem_of_cons. right. apply list_elem_of_here.
Defined.

(** ** The two patterns of the syllabus *)

Lemma strip_suffix_app suf s : Str.strip_suffix suf (s +:+ suf) = Some s.
Proof.
  induction s as [|c s IH].
  { rewrite str_app_nil_l.
    destruct suf; cbn [Str.strip_suffix]; by case_decide. }
  rewrite str_app_cons. cbn [Str.strip_suffix]. rewrite decide_False.
  - by rewrite IH.
  - intros H%(f_equal String.length). rewrite /= str_app_length in H. lia.
Qed.

Lemma strip_suffix_Some suf s r :
  Str.strip_suffix suf s = Some r → s = r +:+ suf.
Proof.
  revert r. induction s as [|c s IH]; intros r.
  - simpl. case_decide as Hs; [|done]. by intros [= <-].
  - cbn [Str.strip_suffix]. case_decide as Hs; [by intros [= <-]|].
    destruct (Str.strip_suffix suf s) as [r'|]; [|done].
    intros [= <-]. by rewrite str_app_cons -IH.
Qed.

Lemma rsplit_Some sep s a b :
  Str.rsplit sep s = Some (a, b) → s = a +:+ sep +:+ b.
Proof.
  revert a. induction s as [|c s IH]; intros a; [done|].
  cbn [Str.rsplit]. destruct (Str.rsplit sep s) as [[a' b']|].
  - intros [= <- <-]. by rewrite str_app_cons -IH.
  - destruct (Str.strip_prefix sep (String c s)) as [b'|] eqn:Hp; [|done].
    intros [= <- <-]. by apply strip_prefix_Some in Hp.
Qed.

Lemma rsplit_free d sep s : free_of d s → Str.rsplit (String d sep) s = None.
Proof.
  induction s as [|c s IH]; [done|]. intros [Hc Hs].
  cbn [Str.rsplit]. by rewrite IH // strip_prefix_head_ne.
Qed.

Lemma rsplit_last a b :
  free_of "]" b → Str.rsplit "](" (a +:+ "](" +:+ b) = Some (a, b).
Proof.
  intros Hb. induction a as [|c a IH].
  - rewrite str_app_nil_l. change ("](" +:+ b) with (String "]" (String "(" b)).
    cbn [Str.rsplit]. by rewrite rsplit_free.
  - rewrite str_app_cons. cbn [Str.rsplit]. by rewrite IH.
Qed.

(** X16: a line is a section line exactly when it is a star, a space and
    a name between two pairs of stars, whatever the name; what a
    subsection line gives back is the title and the file name it was
    written with, and a line written with a title and a file name without
    closing bracket is read back as these two. *)
Theorem syllabus_lines_round_trip :
  (∀ line name,
     match_section line = Some name ↔ line = "* **" +:+ name +:+ "**")
  ∧ (∀ line title filename,
       match_subsection line = Some (title, filename) →
       line = "  * [" +:+ title +:+ "](" +:+ filename +:+ ")")
  ∧ (∀ title filename,
       free_of "]" filename →
       match_subsection ("  * [" +:+ title +:+ "](" +:+ filename +:+ ")")
       = Some (title, filename)).
Proof.
  split; [|split].
  - intros line name. unfold match_section. split.
    + destruct (Str.strip_prefix "* **" line) as [r|] eqn:Hr; [|done].
      intros ->%strip_suffix_Some. by apply strip_prefix_Some in Hr.
    + intros ->. by rewrite strip_prefix_app /= strip_suffix_app.
  - intros line title filename. unfold match_subsection.
    destruct (Str.strip_prefix "  * [" line) as [r|] eqn:Hr; [|done]. simpl.
    destruct (Str.strip_suffix ")" r) as [inner|] eqn:Hi; [|done]. simpl.
    intros ->%rsplit_Some. apply strip_suffix_Some in Hi as ->.
    apply strip_prefix_Some in Hr as ->. by rewrite !str_app_assoc.
  - intros title filename Hf. unfold match_subsection.
    rewrite strip_prefix_app /=.
    rewrite -!str_app_assoc strip_suffix_app /= str_app_assoc.
    by apply rsplit_last.
Qed.

(** ** Splitting loses no text *)

Lemma concat_cons_cons sep (a b : string) r :
  String.concat sep (a :: b :: r) = a +:+ sep +:+ String.concat sep (b :: r).
Proof. reflexivity. Qed.

Lemma split_on_nonempty sep s : Str.split_on sep s ≠ [].
Proof.
  destruct s as [|c s]; [done|]. simpl. case_decide; [done|].
  by destruct (Str.split_on sep s).
Qed.

Lemma concat_split_on sep s :
  String.concat (String sep "") (Str.split_on sep s) = s.
Proof.
  induction s as [|c s IH]; [done|]. cbn [Str.split_on].
  case_decide as Hc.
  - subst c. pose proof (split_on_nonempty sep s) as Hne.
    destruct (Str.split_on sep s) as [|l ls] eqn:Hs; [done|].
    by rewrite concat_cons_cons IH.
  - destruct (Str.split_on sep s) as [|l ls]; [by subst|].
    rewrite -IH. destruct ls; [done|]. by rewrite !concat_cons_cons.
Qed.

Lemma concat_split_headings_go (cur : string) lines :
  String.concat "" (split_headings_go cur false lines)
  = cur +:+ foldr (λ l acc, String Str.newline l +:+ acc) "" lines.
Proof.
  revert cur. induction lines as [|l lines IH]; intros cur.
  { simpl. by rewrite str_app_nil_r. }
  cbn [split_headings_go foldr]. destruct (is_heading l).
  - rewrite concat_cons_cons.
    destruct (split_headings_go_head "" false lines eq_refl)
      as (p & ps & Hgo & _).
    rewrite {1}Hgo concat_cons_cons -Hgo IH !str_app_nil_l !str_app_assoc.
    done.
  - rewrite IH !str_app_assoc. done.
Qed.

Lemma concat_re_split_headings s :
  String.concat "" (re_split_headings s) = s.
Proof.
  unfold re_split_headings, Str.split_lines.
  rewrite -{2}(concat_split_on Str.newline s).
  destruct (Str.split_on Str.newline s) as [|l lines]; [done|].
  assert (Hjoin : String.concat (String Str.newline "") (l :: lines)
                  = l +:+ foldr (λ l acc, String Str.newline l +:+ acc) ""
                            lines).
  { clear. revert l. induction lines as [|l' lines IH]; intros l.
    - by rewrite /= str_app_nil_r.
    - by rewrite concat_cons_cons IH. }
  rewrite Hjoin. cbn [split_headings_go]. destruct (is_heading l).
  - rewrite concat_cons_cons.
    destruct (split_headings_go_head "" false lines eq_refl)
      as (p & ps & Hgo & _).
    rewrite {1}Hgo concat_cons_cons -Hgo concat_split_headings_go.
    by rewrite !str_app_nil_l.
  - by rewrite concat_split_headings_go str_app_nil_l.
Qed.

(** X17: splitting a cell loses no text: the sources of the blocks that
    [split_cell] yields, put together, are the source of the cell. The
    blocks of a markdown cell are fresh markdown cells without outputs
    and without the metadata of the cell. *)
Theorem split_cell_keeps_text l c w :
  heap w !! l = Some c →
  ∃ ls' w' blocks,
    split_cell l w = (inr ls', w') ∧ derefs w' ls' blocks
    ∧ String.concat "" (source <$> blocks) = source c
    ∧ (cell_type c = "markdown" →
       Forall (λ b, b = markdown_node (source b)) blocks).
Proof.
  intros Hl. destruct (split_cell_run l c w Hl) as (ls' & w' & Hrun & _ & Hd).
  exists ls', w', (pieces c). split; [done|]. split; [done|].
  unfold pieces. case_decide as Hmd.
  - split; [done|done].
  - split.
    + rewrite -list_fmap_compose.
      change (source ∘ markdown_node) with (@id string).
      by rewrite list_fmap_id concat_re_split_headings.
    + intros _. apply Forall_fmap, Forall_forall. by intros p _.
Qed.

Lemma split_cell_keeps_text_witness :
  ∃ ls' w' blocks,
    split_cell 1 {| heap := two_unit_doc; trace := [] |} = (inr ls', w')
    ∧ derefs w' ls' blocks
    ∧ String.concat "" (source <$> blocks)
      = Sample.unlines ["preamble"; "# A"; "one"]
    ∧ Forall (λ b, b = markdown_node (source b)) blocks.
Proof.
  destruct (split_cell_keeps_text 1
              (Sample.md (Sample.unlines ["preamble"; "# A"; "one"]))
              {| heap := two_unit_doc; trace := [] |} eq_refl)
    as (ls' & w' & blocks & Hrun & Hd & Hc & Hm).
  exists ls', w', blocks. split; [exact Hrun|]. split; [exact Hd|].
  split; [exact Hc|]. apply Hm. reflexivity.
Defined.

(** ** The equation pass *)

Lemma strip_prefix_stops k p x :
  free_of "\" k → stops x →
  Str.strip_prefix k (p +:+ x) = (λ p', p' +:+ x) <$> Str.strip_prefix k p.
Proof.
  intros Hk Hx. revert p. induction k as [|a k IH]; intros p; [done|].
  destruct Hk as [Ha Hk]. destruct p as [|b p].
  - rewrite str_app_nil_l. destruct x as [|c x]; [done|].
    simpl in Hx. subst c. simpl. by rewrite decide_False.
  - rewrite str_app_cons. simpl. case_decide; [by apply IH|done].
Qed.

Lemma skip_spaces_head c s : c ≠ " "%char → Str.skip_spaces (String c s) = String c s.
Proof.
  intros Hc. destruct c as [[] [] [] [] [] [] [] []]; try done.
Qed.

Lemma skip_spaces_stops p x :
  stops x → Str.skip_spaces (p +:+ x) = Str.skip_spaces p +:+ x.
Proof.
  intros Hx. induction p as [|c p IH].
  - rewrite !str_app_nil_l. destruct x as [|c x]; [done|].
    simpl in Hx. subst c. done.
  - rewrite str_app_cons. destruct (decide (c = " "%char)) as [->|Hc].
    + exact IH.
    + by rewrite !skip_spaces_head // str_app_cons.
Qed.

Lemma match_env_stops k repl p x :
  free_of "\" k → stops x →
  match_env (String "\" k) repl (String "\" (p +:+ x))
  = (λ '(r, rest), (r, rest +:+ x))
      <$> match_env (String "\" k) repl (String "\" p).
Proof.
  intros Hk Hx. unfold match_env.
  change (Str.strip_prefix (String "\" k) (String "\" ?s))
    with (Str.strip_prefix k s).
  rewrite strip_prefix_stops //.
  destruct (Str.strip_prefix k p) as [s1|]; [|done].
  cbn [fmap option_fmap option_map mbind option_bind].
  rewrite skip_spaces_stops // strip_prefix_stops //.
  destruct (Str.strip_prefix "equation" (Str.skip_spaces s1)) as [s2|]; [|done].
  cbn [fmap option_fmap option_map mbind option_bind].
  rewrite skip_spaces_stops // strip_prefix_stops //.
  by destruct (Str.strip_prefix "}" (Str.skip_spaces s2)).
Qed.

Lemma match_env_head_ne k repl c s :
  c ≠ "\"%char → match_env (String "\" k) repl (String c s) = None.
Proof. intros ?. unfold match_env. by rewrite strip_prefix_head_ne. Qed.

Lemma match_env_repl kw repl s r rest :
  match_env kw repl s = Some (r, rest) → r = repl.
Proof.
  unfold match_env. destruct (Str.strip_prefix kw s) as [s1|]; [|done].
  cbn [mbind option_bind].
  destruct (Str.strip_prefix "equation" _) as [s2|]; [|done].
  cbn [mbind option_bind].
  destruct (Str.strip_prefix "}" _) as [s3|]; [|done]. by intros [= <- _].
Qed.

Lemma skip_spaces_suffix s : ∃ sp, s = sp +:+ Str.skip_spaces s.
Proof.
  induction s as [|c s [sp IH]]; [by exists ""|].
  destruct (decide (c = " "%char)) as [->|Hc].
  - exists (String " " sp). by rewrite str_app_cons {1}IH.
  - exists "". by rewrite skip_spaces_head.
Qed.

Lemma match_env_suffix kw repl s r rest :
  match_env kw repl s = Some (r, rest) → ∃ matched, s = kw +:+ matched +:+ rest.
Proof.
  unfold match_env.
  destruct (Str.strip_prefix kw s) as [s1|] eqn:H1; [|done].
  cbn [mbind option_bind].
  destruct (Str.strip_prefix "equation" _) as [s2|] eqn:H2; [|done].
  cbn [mbind option_bind].
  destruct (Str.strip_prefix "}" _) as [s3|] eqn:H3; [|done].
  intros [= _ <-]. apply strip_prefix_Some in H1, H2, H3.
  destruct (skip_spaces_suffix s1) as [sp1 Hs1].
  destruct (skip_spaces_suffix s2) as [sp2 Hs2].
  exists (sp1 +:+ "equation" +:+ sp2 +:+ "}").
  rewrite H1 Hs1 H2 Hs2 H3 !str_app_assoc. done.
Qed.

Lemma match_env_consuming k repl : consuming (match_env (String "\" k) repl).
Proof.
  intros s r rest (matched & ->)%match_env_suffix.
  rewrite !str_app_length /=. lia.
Qed.

Lemma re_sub_env_free k repl p t :
  free_of "\" p →
  re_sub (match_env (String "\" k) repl) (p +:+ t)
  = p +:+ re_sub (match_env (String "\" k) repl) t.
Proof.
  induction p as [|c p IH]; intros Hp; [done|]. destruct Hp as [Hc Hp].
  rewrite !str_app_cons re_sub_skip; [by rewrite IH|].
  by apply match_env_head_ne.
Qed.

Lemma re_sub_env_stops k r t :
  stops t → stops (re_sub (match_env (String "\" k) (String "\" r)) t).
Proof.
  destruct t as [|c t]; [done|]. simpl. intros ->.
  destruct (match_env (String "\" k) (String "\" r) (String "\" t))
    as [[repl rest]|] eqn:Hm.
  - rewrite (re_sub_match _ _ _ _ (match_env_consuming _ _) Hm).
    by apply match_env_repl in Hm as ->.
  - by rewrite re_sub_skip.
Qed.

Lemma split_at_backslash t : ∃ p x, t = p +:+ x ∧ free_of "\" p ∧ stops x.
Proof.
  induction t as [|c t (p & x & -> & Hp & Hx)]; [by exists "", ""|].
  destruct (decide (c = "\"%char)) as [->|Hc].
  - by exists "", (String "\" (p +:+ x)).
  - by exists (String c p), x.
Qed.

(** Rewriting what follows a backslash does not make the pattern match
    at the backslash. *)
Lemma match_env_after_sub k1 repl1 k2 r2 c t :
  free_of "\" k1 →
  match_env (String "\" k1) repl1 (String c t) = None →
  match_env (String "\" k1) repl1
    (String c (re_sub (match_env (String "\" k2) (String "\" r2)) t)) = None.
Proof.
  intros Hk1 Hm. destruct (decide (c = "\"%char)) as [->|Hc];
    [|by apply match_env_head_ne].
  destruct (split_at_backslash t) as (p & x & -> & Hp & Hx).
  rewrite re_sub_env_free //.
  rewrite match_env_stops // in Hm.
  rewrite match_env_stops //; [|by apply re_sub_env_stops].
  by destruct (match_env (String "\" k1) repl1 (String "\" p)) as [[??]|].
Qed.

Lemma unmatched_app_free k repl p u :
  free_of "\" p →
  unmatched (match_env (String "\" k) repl) u →
  unmatched (match_env (String "\" k) repl) (p +:+ u).
Proof.
  induction p as [|c p IH]; [done|]. intros [Hc Hp] Hu.
  rewrite str_app_cons. split; [by apply match_env_head_ne|by apply IH].
Qed.

Lemma unmatched_suffix m a b : unmatched m (a +:+ b) → unmatched m b.
Proof.
  induction a as [|c a IH]; [done|]. rewrite str_app_cons. intros [_ H].
  by apply IH.
Qed.

Lemma unmatched_re_sub_other k1 repl1 k2 r2 t :
  free_of "\" k1 → free_of "\" r2 →
  (∀ x, Str.strip_prefix k1 (r2 +:+ x) = None) →
  unmatched (match_env (String "\" k1) repl1) t →
  unmatched (match_env (String "\" k1) repl1)
    (re_sub (match_env (String "\" k2) (String "\" r2)) t).
Proof.
  intros Hk1 Hr2 Hkr. remember (String.length t) as n eqn:Hn.
  revert t Hn. induction (lt_wf n) as [n _ IH]. intros t -> Ht.
  destruct t as [|c t]; [done|]. destruct Ht as [Hc Ht].
  destruct (match_env (String "\" k2) (String "\" r2) (String c t))
    as [[repl rest]|] eqn:Hm.
  - rewrite (re_sub_match _ _ _ _ (match_env_consuming _ _) Hm).
    pose proof (match_env_consuming _ _ _ _ _ Hm) as Hlen.
    pose proof (match_env_repl _ _ _ _ _ Hm) as ->.
    apply match_env_suffix in Hm as (matched & Hm).
    rewrite str_app_cons. split.
    + unfold match_env.
      change (Str.strip_prefix (String "\" k1) (String "\" ?s))
        with (Str.strip_prefix k1 s).
      by rewrite Hkr.
    + apply unmatched_app_free; [done|]. eapply IH; [exact Hlen|done|].
      assert (Hsuf : unmatched (match_env (String "\" k1) repl1)
                       (String c t)) by done.
      rewrite Hm -str_app_assoc in Hsuf. by eapply unmatched_suffix.
  - rewrite re_sub_skip //. split.
    + by apply match_env_after_sub.
    + eapply IH; [|done|done]. simpl. lia.
Qed.

Lemma unmatched_re_sub k r t :
  free_of "\" k → free_of "\" r →
  (∀ x, Str.strip_prefix k (r +:+ x) = None) →
  unmatched (match_env (String "\" k) (String "\" r))
    (re_sub (match_env (String "\" k) (String "\" r)) t).
Proof.
  intros Hk Hr Hkr. remember (String.length t) as n eqn:Hn.
  revert t Hn. induction (lt_wf n) as [n _ IH]. intros t ->.
  destruct t as [|c t]; [done|].
  destruct (match_env (String "\" k) (String "\" r) (String c t))
    as [[repl rest]|] eqn:Hm.
  - rewrite (re_sub_match _ _ _ _ (match_env_consuming _ _) Hm).
    pose proof (match_env_consuming _ _ _ _ _ Hm) as Hlen.
    pose proof (match_env_repl _ _ _ _ _ Hm) as ->.
    rewrite str_app_cons. split.
    + unfold match_env.
      change (Str.strip_prefix (String "\" k) (String "\" ?s))
        with (Str.strip_prefix k s).
      by rewrite Hkr.
    + apply unmatched_app_free; [done|]. by eapply IH.
  - rewrite re_sub_skip //. split.
    + by apply match_env_after_sub.
    + eapply IH; [|done]. simpl. lia.
Qed.

Lemma unmatched_re_sub_id m s : unmatched m s → re_sub m s = s.
Proof.
  induction s as [|c s IH]; [done|]. intros [Hc Hs].
  by rewrite re_sub_skip // IH.
Qed.

Lemma sub_equation_unmatched s :
  unmatched (match_env "\begin{" "\[") (sub_equation s)
  ∧ unmatched (match_env "\end{" "\]") (sub_equation s).
Proof.
  split.
  - apply (unmatched_re_sub_other "begin{" "\[" "end{" "]"); try done.
    by apply (unmatched_re_sub "begin{" "[").
  - by apply (unmatched_re_sub "end{" "]").
Qed.

Lemma skip_spaces_blank sp t :
  Str.skip_spaces sp = "" → Str.skip_spaces (sp +:+ t) = Str.skip_spaces t.
Proof.
  induction sp as [|c sp IH]; [done|].
  destruct (decide (c = " "%char)) as [->|Hc]; [exact IH|].
  by rewrite skip_spaces_head.
Qed.

Lemma match_env_marker kw repl sp1 sp2 b :
  Str.skip_spaces sp1 = "" → Str.skip_spaces sp2 = "" →
  match_env kw repl (kw +:+ sp1 +:+ "equation" +:+ sp2 +:+ "}" +:+ b)
  = Some (repl, b).
Proof.
  intros H1 H2. unfold match_env. rewrite strip_prefix_app.
  cbn [mbind option_bind]. rewrite skip_spaces_blank //.
  change (Str.skip_spaces ("equation" +:+ ?t)) with ("equation" +:+ t).
  rewrite strip_prefix_app. cbn [mbind option_bind].
  by rewrite skip_spaces_blank.
Qed.

Lemma unmatched_no_marker kw repl a sp1 sp2 b :
  Str.skip_spaces sp1 = "" → Str.skip_spaces sp2 = "" → kw ≠ "" →
  ¬ unmatched (match_env kw repl)
      (a +:+ kw +:+ sp1 +:+ "equation" +:+ sp2 +:+ "}" +:+ b).
Proof.
  intros H1 H2 Hkw Hu. apply unmatched_suffix in Hu.
  pose proof (match_env_marker kw repl sp1 sp2 b H1 H2) as Hm.
  destruct kw as [|c kw]; [done|]. rewrite str_app_cons in Hu, Hm.
  destruct Hu as [Hu _]. congruence.
Qed.

Lemma sub_equation_twice s : sub_equation (sub_equation s) = sub_equation s.
Proof.
  destruct (sub_equation_unmatched s) as [Hb He].
  unfold sub_equation at 1. unfold sub_begin_equation, sub_end_equation.
  by rewrite !unmatched_re_sub_id.
Qed.

(** X18: after the equation pass no marker of the beginning or of the
    end of an equation is left, with or without spaces around the word,
    and a second pass changes nothing, whatever the text. *)
Theorem sub_equation_idempotent s :
  sub_equation (sub_equation s) = sub_equation s
  ∧ ∀ a sp1 sp2 b,
      Str.skip_spaces sp1 = "" → Str.skip_spaces sp2 = "" →
      sub_equation s
      ≠ a +:+ "\begin{" +:+ sp1 +:+ "equation" +:+ sp2 +:+ "}" +:+ b
      ∧ sub_equation s
        ≠ a +:+ "\end{" +:+ sp1 +:+ "equation" +:+ sp2 +:+ "}" +:+ b.
Proof.
  destruct (sub_equation_unmatched s) as [Hb He]. split.
  - apply sub_equation_twice.
  - intros a sp1 sp2 b H1 H2. split; intros Heq.
    + rewrite Heq in Hb. by eapply unmatched_no_marker in Hb.
    + rewrite Heq in He. by eapply unmatched_no_marker in He.
Qed.

(** ** The equation pass on the store *)

Lemma equation_cell_twice c : equation_cell (equation_cell c) = equation_cell c.
Proof.
  destruct (decide (cell_type c = "markdown")) as [Hmd|Hmd].
  - rewrite /equation_cell (decide_True _ _ Hmd) decide_True //.
    by rewrite /set_source /= sub_equation_twice.
  - by rewrite /equation_cell !(decide_False _ _ Hmd).
Qed.

Lemma equation_cell_other c : cell_type c ≠ "markdown" → equation_cell c = c.
Proof. intros ?. unfold equation_cell. by rewrite decide_False. Qed.

Lemma rewritten_nil w : rewritten [] w w.
Proof.
  split; [done|]. split; [done|]. intros l c Hl.
  case_decide as Hin; [by apply elem_of_nil in Hin|done].
Qed.

Lemma rewritten_trans S1 S2 w1 w2 w3 :
  rewritten S1 w1 w2 → rewritten S2 w2 w3 → rewritten (S1 ++ S2) w1 w3.
Proof.
  intros (Ht1 & Hn1 & H1) (Ht2 & Hn2 & H2).
  split; [congruence|]. split; [congruence|]. intros l c Hl.
  rewrite (H2 _ _ (H1 _ _ Hl)). f_equal.
  destruct (decide (l ∈ S1)), (decide (l ∈ S2));
    rewrite ?equation_cell_twice; [rewrite decide_True|rewrite decide_True|
      rewrite decide_True|rewrite decide_False]; set_solver.
Qed.

(** Only the markdown cells count. *)
Lemma rewritten_weaken S S' w w' :
  (∀ l c, heap w !! l = Some c → cell_type c = "markdown" →
          (l ∈ S ↔ l ∈ S')) →
  rewritten S w w' → rewritten S' w w'.
Proof.
  intros Hiff (Ht & Hn & H). split; [done|]. split; [done|].
  intros l c Hl. rewrite (H _ _ Hl). f_equal.
  destruct (decide (cell_type c = "markdown")) as [Hmd|Hmd].
  - specialize (Hiff l c Hl Hmd).
    destruct (decide (l ∈ S)); [rewrite decide_True|rewrite decide_False];
      tauto.
  - rewrite equation_cell_other //. by repeat case_decide.
Qed.

Section StorePass.

Context (E : env).

Lemma rewrite_source_rewritten l w u w' :
  rewrite_source l w = (inr u, w') → rewritten [l] w w'.
Proof.
  unfold rewrite_source.
  intros (c & w1 & [Hl ->]%deref_inr & H)%bind_inr. revert H.
  case_decide as Hmd.
  - intros [= _ <-]. split; [done|]. split; [by rewrite /= length_insert|].
    intros k ck Hk. simpl. destruct (decide (k = l)) as [->|Hne].
    + rewrite list_lookup_insert_eq; last by eapply lookup_lt_Some.
      rewrite decide_True; last set_solver.
      rewrite Hl in Hk. injection Hk as <-.
      by rewrite /equation_cell decide_True.
    + rewrite list_lookup_insert_ne // decide_False //. set_solver.
  - intros [= _ <-]. eapply rewritten_weaken; [|apply rewritten_nil].
    intros k ck Hk Hck. split; [set_solver|].
    intros ->%list_elem_of_singleton. rewrite Hl in Hk. by simplify_eq.
Qed.

Lemma for_each_rewrite_source_rewritten ls w us w' :
  for_each rewrite_source ls w = (inr us, w') → rewritten ls w w'.
Proof.
  revert w us. induction ls as [|l ls IH]; intros w us; simpl.
  { intros [= _ <-]. apply rewritten_nil. }
  intros (u & w1 & H1 & (us' & w2 & H2 & [= _ <-])%bind_inr)%bind_inr.
  apply rewrite_source_rewritten in H1. apply IH in H2.
  apply (rewritten_trans _ _ _ _ _ H1 H2).
Qed.

Lemma rewritten_derefs S ls cs w w' :
  rewritten S w w' → ls ⊆ S → derefs w ls cs →
  derefs w' ls (equation_cell <$> cs).
Proof.
  intros (_ & _ & H) HS Hd.
  induction Hd as [|l c ks cs Hl Hd IH]; [constructor|].
  rewrite fmap_cons. constructor.
  - rewrite (H _ _ Hl) decide_True //. set_solver.
  - apply IH. set_solver.
Qed.

Lemma for_each_deref_run ls cs w :
  derefs w ls cs → for_each deref ls w = (inr cs, w).
Proof.
  induction 1 as [|l c ls cs Hl Hd IH]; [done|]. simpl.
  rewrite (bind_run _ _ _ _ _ (deref_run _ _ _ Hl)).
  by rewrite (bind_run _ _ _ _ _ IH).
Qed.

Lemma derefs_live w ls cs : derefs w ls cs → live w ls.
Proof.
  intros H. eapply Forall2_Forall_l; [exact H|]. apply Forall_forall.
  intros c _ l Hl. by exists c.
Qed.

Lemma flush_rewritten out nc w out' w' :
  flush E out nc w = (inr out', w') → rewritten nc w w'.
Proof.
  unfold flush. destruct nc as [|l nc]; [intros [= _ <-]; apply rewritten_nil|].
  intros (html & w1 & H & [= _ <-])%bind_inr. unfold convert_normal_cells in H.
  apply bind_inr in H as (us & w2 & H & ->%export_unit_to_html_world).
  by apply for_each_rewrite_source_rewritten in H.
Qed.

Lemma convert_cells_rewritten cells out nc w out' w' :
  convert_cells E cells out nc w = (inr out', w') →
  rewritten (nc ++ cells) w w'.
Proof.
  revert out nc w. induction cells as [|l cells IH]; intros out nc w.
  { rewrite app_nil_r. apply flush_rewritten. }
  cbn [convert_cells]. intros (c & w1 & [Hl ->]%deref_inr & H)%bind_inr.
  revert H. case_decide as Hmd.
  { intros H%IH. by rewrite -assoc in H. }
  assert (Hskip : ∀ S, rewritten (S ++ cells) w w' →
                       rewritten (S ++ l :: cells) w w').
  { intros S. apply rewritten_weaken. intros k ck Hk Hck.
    rewrite !elem_of_app elem_of_cons.
    assert (k ≠ l) by (intros Heq; rewrite Heq Hl in Hk; by simplify_eq).
    tauto. }
  destruct (outputs c) as [outs|]; [|by intros H%IH; apply Hskip].
  destruct (omap xml_component outs) as [|x xs].
  { intros H%IH. rewrite -assoc in H. revert H. apply rewritten_weaken.
    intros k ck Hk Hck. rewrite !elem_of_app !elem_of_cons elem_of_nil.
    assert (k ≠ l) by (intros Heq; rewrite Heq Hl in Hk; by simplify_eq).
    tauto. }
  case_decide as Hlen; [done|].
  intros (xml & w2 & [_ ->]%lift_option_inr
          & (out1 & w3 & Hf & H)%bind_inr)%bind_inr.
  apply flush_rewritten in Hf. apply IH in H.
  apply Hskip. apply (rewritten_trans _ _ _ _ _ Hf H).
Qed.

End StorePass.

(** X19: [convert_normal_cells] gives every markdown cell of its list the
    equation pass, in place, and hands the cells in that state to the
    exporter; its result is the exported body after the same pass, or the
    exporter's failure. A cell that is listed twice is as if listed once,
    and cells that are not listed keep their state. *)
Theorem convert_normal_cells_spec E ls cs w :
  derefs w ls cs →
  ∃ w', convert_normal_cells E ls w
        = (match export_html E (equation_cell <$> cs) with
           | Some body => inr (sub_equation body)
           | None => inl ExportError
           end, w')
        ∧ rewritten ls w w'.
Proof.
  intros Hd. unfold convert_normal_cells.
  destruct (for_each rewrite_source ls w) as [[e|us] w1] eqn:H1.
  { by destruct (for_each_rewrite_source_live _ _ _ _ (derefs_live _ _ _ Hd) H1). }
  rewrite (bind_run _ _ _ _ _ H1). apply for_each_rewrite_source_rewritten in H1.
  exists w1. split; [|done]. unfold export_unit_to_html.
  rewrite (bind_run _ _ _ _ _ (for_each_deref_run _ _ _
             (rewritten_derefs _ _ _ _ _ H1 (reflexivity _) Hd))).
  by destruct (export_html E (equation_cell <$> cs)).
Qed.

Lemma convert_normal_cells_spec_witness :
  ∃ w', convert_normal_cells Sample.course [0; 0]
          {| heap := [Sample.md "\begin{equation}x\end{equation}"];
             trace := [] |}
        = (inr "\[x\]\[x\]", w')
        ∧ heap w' = [Sample.md "\[x\]"].
Proof.
  destruct (convert_normal_cells_spec Sample.course [0; 0]
              [Sample.md "\begin{equation}x\end{equation}";
               Sample.md "\begin{equation}x\end{equation}"]
              {| heap := [Sample.md "\begin{equation}x\end{equation}"];
                 trace := [] |}) as (w' & Hrun & Hw).
  { repeat constructor. }
  exists w'. split; [exact Hrun|].
  destruct Hw as (_ & Hlen & Hw).
  destruct (heap w') as [|c [|c' h]]; try discriminate Hlen.
  specialize (Hw 0 _ eq_refl). by injection Hw as ->.
Defined.

(** X20: a conversion of a unit that succeeds leaves the store with the
    equation pass applied to every markdown block of the unit, once,
    and with every other cell as it was; the unit may hold a block more
    than once. *)
Theorem convert_unit_store E unit w out w' :
  convert_unit E unit w = (inr out, w') → rewritten (nb_cells unit) w w'.
Proof. apply (convert_cells_rewritten E _ [] []). Qed.

Lemma convert_unit_store_witness :
  rewritten [0; 1; 0]
    {| heap := [Sample.md "\begin{equation}x\end{equation}";
                Sample.code [Sample.olx "<video youtube='abc'/>"]];
       trace := [] |}
    (convert_unit Sample.course {| nb_name := "U"; nb_cells := [0; 1; 0] |}
       {| heap := [Sample.md "\begin{equation}x\end{equation}";
                   Sample.code [Sample.olx "<video youtube='abc'/>"]];
          trace := [] |}).2.
Proof.
  destruct (convert_unit Sample.course
              {| nb_name := "U"; nb_cells := [0; 1; 0] |}
              {| heap := [Sample.md "\begin{equation}x\end{equation}";
                          Sample.code [Sample.olx "<video youtube='abc'/>"]];
                 trace := [] |}) as [[e|out] w'] eqn:H;
    [vm_compute in H; discriminate H|].
  exact (convert_unit_store _ _ _ _ _ H).
Defined.

(** ** What the syllabus parser reads *)

(** X21: of a syllabus document only the block that follows its first
    top-level heading line is read: the chapters, or the failure, are a
    function of that block, so two documents that agree on it give the
    same result, whatever else they hold. Without such a block the
    result is an index error. *)
Theorem parse_syllabus_reads_one_block E file cf pa cs w :
  read_cells E file = Some cs →
  (parse_syllabus E file cf pa w).1
  = match from_first_heading is_heading_block (block_stream cs) !! 1 with
    | None => inl IndexError
    | Some c =>
        match parse_lines E (Str.split_lines (source c)) [] with
        | inl e => inl e
        | inr syllabus => inr (make_chapters cf pa 0 syllabus)
        end
    end.
Proof.
  intros Hread. unfold parse_syllabus.
  pose proof (load_raw_syllabus_run E file cs w Hread) as H.
  pose proof (from_first_heading_stream cs) as Hs.
  destruct (heading_lines cs) as [|h hs].
  - destruct H as (w' & H). rewrite (bind_fail _ _ _ _ _ H) Hs. done.
  - destruct H as (c & w' & H & -> & _). rewrite (bind_run _ _ _ _ _ H).
    by destruct (parse_lines E (Str.split_lines (source c)) []).
Qed.

Lemma parse_syllabus_reads_one_block_witness :
  (parse_syllabus Sample.course "course/syllabus.ipynb" "course" true
     Sample.empty_world).1
  = inr (make_chapters "course" true 0
           [ {| entry_name := "Introduction"; entry_date := None;
                entry_subsections := [("Welcome", "w0/intro.ipynb")] |};
             {| entry_name := "Week 1"; entry_date := Some "3 Sep 2018";
                entry_subsections :=
                  [("Topology", "w1/topology.ipynb");
                   ("Assignments", "w1/assignments.ipynb")] |} ]).
Proof.
  rewrite (parse_syllabus_reads_one_block Sample.course
             "course/syllabus.ipynb" "course" true
             [Sample.md Sample.syllabus_text] Sample.empty_world eq_refl).
  vm_compute. reflexivity.
Defined.

(** ** File names *)

Lemma match_forbidden_consuming : consuming match_forbidden.
Proof.
  intros [|c s] repl rest; [done|]. simpl. case_decide; [|done].
  intros [= _ <-]. simpl. lia.
Qed.

Lemma make_filename_valid_cons c s :
  make_filename_valid (String c s)
  = if decide (c ∈ forbidden_chars) then make_filename_valid s
    else String c (make_filename_valid s).
Proof.
  unfold make_filename_valid. case_decide as Hc.
  - rewrite (re_sub_match _ _ "" s match_forbidden_consuming) //.
    simpl. by rewrite decide_True.
  - rewrite re_sub_skip //. simpl. by rewrite decide_False.
Qed.

Lemma make_filename_valid_free s c :
  c ∈ forbidden_chars → free_of c (make_filename_valid s).
Proof.
  intros Hc. induction s as [|a s IH]; [done|].
  rewrite make_filename_valid_cons. case_decide as Ha; [done|].
  split; [|done]. by intros ->.
Qed.

Lemma make_filename_valid_clean s :
  (∀ c, c ∈ forbidden_chars → free_of c s) → make_filename_valid s = s.
Proof.
  induction s as [|a s IH]; [done|]. intros Hs.
  rewrite make_filename_valid_cons decide_False.
  - rewrite IH //. intros c Hc. by destruct (Hs c Hc).
  - intros Ha. by destruct (Hs a Ha).
Qed.

(** X22: [make_filename_valid] returns a name without any character of
    its class, removes nothing else (a name without such characters is
    returned as it is, so cleaning twice is cleaning once), and never
    makes a name longer; two different names can become the same. *)
Theorem make_filename_valid_spec :
  (∀ s c, c ∈ forbidden_chars → free_of c (make_filename_valid s))
  ∧ (∀ s, (∀ c, c ∈ forbidden_chars → free_of c s) →
          make_filename_valid s = s)
  ∧ (∀ s, make_filename_valid (make_filename_valid s)
          = make_filename_valid s)
  ∧ (∀ s, String.length (make_filename_valid s) ≤ String.length s)
  ∧ make_filename_valid "w1 intro" = make_filename_valid "w1intro".
Proof.
  split; [apply make_filename_valid_free|].
  split; [apply make_filename_valid_clean|].
  split; [|split; [|reflexivity]].
  - intros s. apply make_filename_valid_clean.
    intros c Hc. by apply make_filename_valid_free.
  - intros s. induction s as [|a s IH]; [done|].
    rewrite make_filename_valid_cons. case_decide; simpl; lia.
Qed.

(** ** The store that a run finds *)

Lemma keeps_first_refl n w : keeps_first n w w.
Proof. by intros ?. Qed.

Lemma keeps_first_trans n w1 w2 w3 :
  keeps_first n w1 w2 → keeps_first n w2 w3 → keeps_first n w1 w3.
Proof.
  intros H1 H2 Hn. destruct (H1 Hn) as [Hn2 Hk1].
  destruct (H2 Hn2) as [Hn3 Hk2]. split; [done|]. eauto.
Qed.

Lemma extends_keeps_first n w w' : extends w w' → keeps_first n w w'.
Proof.
  intros Hext Hn. split.
  - destruct Hext as [_ [new ->]]. rewrite length_app. lia.
  - intros l c _ Hl. by eapply extends_lookup.
Qed.

Lemma same_heap_keeps_first n w w' : heap w' = heap w → keeps_first n w w'.
Proof. intros Hh Hn. by rewrite Hh. Qed.

Lemma for_each_i_rel_in {A B} (R : world → world → Prop) (I : world → Prop)
    (f : nat → A → M B) l i w r w' :
  (∀ w, R w w) → (∀ w1 w2 w3, R w1 w2 → R w2 w3 → R w1 w3) →
  (∀ k x w r w', x ∈ l → I w → f k x w = (r, w') → R w w' ∧ I w') →
  I w → for_each_i f i l w = (r, w') → R w w'.
Proof.
  intros Hrefl Htrans. revert i w r w'.
  induction l as [|x l IH]; intros i w r w' Hf HI; simpl.
  { intros [= _ <-]. apply Hrefl. }
  intros [(e & H1 & _)|(y & w1 & H1 & H)]%bind_cases;
    destruct (Hf i x _ _ _ (list_elem_of_here _ _) HI H1) as [HR1 HI1];
    [done|].
  assert (Hrest : ∀ r2 w2, for_each_i f (S i) l w1 = (r2, w2) → R w1 w2).
  { intros r2 w2. apply IH; [|done].
    intros k z w3 r3 w4 Hz. apply Hf. by right. }
  apply bind_cases in H as [(e & H2 & _)|(ys & w2 & H2 & [= _ <-])];
    eapply Htrans; eauto.
Qed.

Section Frame.

Context (E : env).

Lemma split_into_units_fresh file ih w units w' :
  split_into_units E file ih w = (inr units, w') →
  Forall (λ l, length (heap w) ≤ l) (units ≫= nb_cells).
Proof.
  intros Hrun. destruct (read_cells E file) as [cs|] eqn:Hread; last first.
  { unfold split_into_units, nbformat_read in Hrun. by rewrite Hread in Hrun. }
  destruct (split_into_units_run E file ih cs w Hread)
    as (stream & w1 & Hrun1 & _ & _ & _ & Hfresh).
  rewrite Hrun1 in Hrun. injection Hrun as <- <-.
  apply Forall_forall. intros l Hl.
  eapply Forall_forall in Hfresh; [exact Hfresh|].
  eapply elem_of_sublist; [|apply (units_of_sublist ih stream (block_stream cs))].
  apply elem_of_app. by right.
Qed.

Lemma add_vertical_keeps_first n hf sq i unit w r w' :
  Forall (λ l, n ≤ l) (nb_cells unit) →
  add_vertical E hf sq i unit w = (r, w') → keeps_first n w w'.
Proof.
  intros Hfresh. unfold add_vertical.
  apply (bind_rel _ (keeps_first_trans n)).
  { intros r1 w1 Hev%convert_unit_evolves Hn.
    pose proof Hev as (_ & Hlen & _). split; [lia|].
    intros l c Hl Hc. eapply evolves_lookup_outside; [done..|].
    intros Hin. eapply Forall_forall in Hfresh; [|exact Hin]. lia. }
  intros outs w1 r2 w2. apply (bind_rel _ (keeps_first_trans n)).
  { intros r1 w3 [_ Hh]%for_each_i_add_output_writes.
    by apply same_heap_keeps_first. }
  intros. by eapply (ret_rel _ (keeps_first_refl n)).
Qed.

Lemma add_sequential_keeps_first n hf ch sq w r w' :
  add_sequential E hf ch sq w = (r, w') → keeps_first n w w'.
Proof.
  unfold add_sequential. intros H Hn. revert H.
  intros [(e & H1 & _)|(units & w1 & H1 & H)]%bind_cases.
  { apply split_into_units_extends in H1.
    by apply (extends_keeps_first n) in H1 as [? ?]. }
  pose proof (split_into_units_fresh _ _ _ _ _ H1) as Hfresh.
  pose proof (extends_keeps_first n _ _ (split_into_units_extends _ _ _ _ _ _ H1))
    as Hk1.
  apply (keeps_first_trans n _ _ _ Hk1); [|done].
  revert H. apply (bind_rel _ (keeps_first_trans n)).
  { intros r1 w3.
    apply (for_each_i_rel_in (keeps_first n) (λ _, True));
      [apply keeps_first_refl|apply keeps_first_trans| |done].
    intros k u w4 r4 w5 Hu _ Hrun. split; [|done].
    eapply add_vertical_keeps_first; [|exact Hrun].
    apply Forall_forall. intros l Hl.
    eapply Forall_forall in Hfresh; [|apply list_elem_of_bind; by exists u].
    simpl in Hfresh. lia. }
  intros. by eapply (ret_rel _ (keeps_first_refl n)).
Qed.

Lemma build_chapters_keeps_first n hf data w r w' :
  build_chapters E hf data w = (r, w') → keeps_first n w w'.
Proof.
  apply (for_each_rel _ (keeps_first_refl n) (keeps_first_trans n)).
  intros ch w1 r1 w1'. unfold add_chapter.
  apply (bind_rel _ (keeps_first_trans n)).
  { unfold date_to_edx. destruct (ch_date ch).
    - intros ??. apply (lift_option_rel _ (keeps_first_refl n)).
    - intros ?? [= _ <-]. apply keeps_first_refl. }
  intros start w2 r2 w3. apply (bind_rel _ (keeps_first_trans n)).
  { intros ??. apply (for_each_rel _ (keeps_first_refl n) (keeps_first_trans n)).
    intros. by eapply add_sequential_keeps_first. }
  intros. by eapply (ret_rel _ (keeps_first_refl n)).
Qed.

Lemma parse_syllabus_extends file cf pa w r w' :
  parse_syllabus E file cf pa w = (r, w') → extends w w'.
Proof.
  unfold parse_syllabus. apply (bind_rel _ extends_trans).
  { intros r0 w0. unfold load_raw_syllabus.
    apply (bind_rel _ extends_trans); [apply split_into_units_extends|].
    intros units w1 r2 w2. apply (bind_rel _ extends_trans).
    { intros ??. apply (lift_option_rel _ extends_refl). }
    intros syll w3 r3 w4. apply (bind_rel _ extends_trans).
    { intros ??. apply (lift_option_rel _ extends_refl). }
    intros l w5 r5 w6 ->%deref_world. apply extends_refl. }
  intros cell w1 r2 w2. destruct (parse_lines _ _ _); intros [= _ <-];
    apply extends_refl.
Qed.

Lemma converter_keeps_first n mooc cf w r w' :
  converter E mooc cf w = (r, w') → keeps_first n w w'.
Proof.
  unfold converter. apply (bind_rel _ (keeps_first_trans n)).
  { intros ?? H%parse_syllabus_extends. by apply extends_keeps_first. }
  intros data w1 r1 w1'. apply (bind_rel _ (keeps_first_trans n)).
  { intros ??. apply (lift_option_rel _ (keeps_first_refl n)). }
  intros txt w2 r2 w2'. apply (bind_rel _ (keeps_first_trans n)).
  { intros ??. apply (lift_option_rel _ (keeps_first_refl n)). }
  intros sk w3 r3 w3'. apply (bind_rel _ (keeps_first_trans n)).
  { intros ??. apply build_chapters_keeps_first. }
  intros chs w4 r4 w4'. apply (bind_rel _ (keeps_first_trans n)).
  { intros ?? [= _ <-]. by apply same_heap_keeps_first. }
  intros [] w5 r5 w5'. apply (bind_rel _ (keeps_first_trans n)).
  { intros ?? [= _ <-]. by apply same_heap_keeps_first. }
  intros. by eapply (ret_rel _ (keeps_first_refl n)).
Qed.

End Frame.

(** X23: a run of the converter, whether it succeeds or fails, changes
    no cell that was in the store before it: the documents are read anew
    and the equation pass is applied, in place, to the cells that the run
    created itself. *)
Theorem converter_keeps_store E mooc cf w r w' :
  converter E mooc cf w = (r, w') →
  ∀ l c, heap w !! l = Some c → heap w' !! l = Some c.
Proof.
  intros H l c Hl.
  destruct (converter_keeps_first E (length (heap w)) _ _ _ _ _ H) as [_ Hk];
    [done|].
  apply Hk; [|done]. by eapply lookup_lt_Some.
Qed.

Lemma converter_keeps_store_witness :
  heap (converter Sample.dated_course "." (Some "course")
          {| heap := [Sample.md "\begin{equation}x\end{equation}"];
             trace := [] |}).2 !! 0
  = Some (Sample.md "\begin{equation}x\end{equation}").
Proof.
  destruct (converter Sample.dated_course "." (Some "course")
              {| heap := [Sample.md "\begin{equation}x\end{equation}"];
                 trace := [] |}) as [r w'] eqn:H.
  exact (converter_keeps_store _ _ _ _ _ _ H 0 _ eq_refl).
Defined.

(** ** The state of the repository *)

Lemma contains_app p s : contains p (p +:+ s) = true.
Proof.
  destruct (p +:+ s) eqn:Heq; simpl; rewrite -Heq startswith_app //.
Qed.

Lemma head_split_lines line rest :
  free_of Str.newline line →
  head (Str.split_lines (line +:+ String Str.newline rest)) = Some line.
Proof. intros H. by rewrite /Str.split_lines split_on_app. Qed.

(** X24: at most one warning is printed, and the one about modified
    files only on the branch; only the first line of the status counts;
    and the branch is recognised by a search in that line, so every
    branch whose name begins with master passes as master. *)
Theorem warn_about_status_spec :
  (∀ status diff, length (warn_about_status status diff) ≤ 1)
  ∧ (∀ status diff,
       FilesModified ∈ warn_about_status status diff →
       diff ≠ "" ∧ NotOnMaster ∉ warn_about_status status diff)
  ∧ (∀ line rest rest' diff,
       free_of Str.newline line →
       warn_about_status (line +:+ String Str.newline rest) diff
       = warn_about_status (line +:+ String Str.newline rest') diff)
  ∧ (∀ name rest diff,
       free_of Str.newline name →
       NotOnMaster
       ∉ warn_about_status
           ("On branch master" +:+ name +:+ String Str.newline rest) diff).
Proof.
  split; [|split; [|split]].
  - intros status diff. unfold warn_about_status.
    destruct (negb _); [done|]. case_decide; simpl; lia.
  - intros status diff. unfold warn_about_status.
    destruct (negb _); [by intros ?%list_elem_of_singleton|].
    case_decide as Hd; [|by intros ?%elem_of_nil].
    intros _. split; [done|]. by intros ?%list_elem_of_singleton.
  - intros line rest rest' diff Hline. unfold warn_about_status.
    by rewrite !head_split_lines.
  - intros name rest diff Hname. unfold warn_about_status.
    rewrite -str_app_assoc head_split_lines; last first.
    { apply free_of_app. split; [|done]. vm_compute. repeat split; discriminate. }
    cbn [default from_option]. rewrite contains_app. cbn [negb].
    case_decide; [by intros ?%list_elem_of_singleton|by intros ?%elem_of_nil].
Qed.

(** ** Blocks without outputs *)

(** X25: a block that is not markdown and has no [outputs] attribute is
    skipped: converting a unit that holds such a block gives what
    converting the unit without it gives, result and store alike. *)
Theorem convert_unit_skips_blocks_without_outputs E name pre l post w c :
  heap w !! l = Some c → cell_type c ≠ "markdown" → outputs c = None →
  convert_unit E {| nb_name := name; nb_cells := pre ++ l :: post |} w
  = convert_unit E {| nb_name := name; nb_cells := pre ++ post |} w.
Proof.
  intros Hl Hmd Ho. unfold convert_unit. simpl. by eapply convert_cells_skip.
Qed.

Lemma convert_unit_skips_blocks_without_outputs_witness :
  let w := {| heap := [Sample.md "text";
                       {| cell_type := "raw"; source := "notes";
                          outputs := None; metadata := ∅ |}];
              trace := [] |} in
  convert_unit Sample.course {| nb_name := "U"; nb_cells := [0; 1] |} w
  = convert_unit Sample.course {| nb_name := "U"; nb_cells := [0] |} w.
Proof.
  intros w.
  by apply (convert_unit_skips_blocks_without_outputs Sample.course "U" [0] 1 []
              w {| cell_type := "raw"; source := "notes";
                   outputs := None; metadata := ∅ |}).
Defined.
(** * The course as a whole *)

(** ** Cell classifier: blocks with an empty list of outputs *)

(** C6, on a code block whose list of outputs is empty: the block is not
    skipped. The guard of [convert_unit] for an empty code cell asks
    whether the cell has the attribute [outputs], which this block has;
    it joins the batch as a regular code cell, and alone in its unit it
    gives one HTML artifact, where the unit without it gives none. *)
Lemma convert_unit_empty_outputs_artifact :
  let w := {| heap := [Sample.code []]; trace := [] |} in
  outputs (Sample.code []) = Some []
  ∧ (convert_unit Sample.course {| nb_name := "U"; nb_cells := [0] |} w).1
    = inr [Html "plot()"]
  ∧ (convert_unit Sample.course {| nb_name := "U"; nb_cells := [] |} w).1
    = inr [].
Proof. repeat split. Qed.

(** ** Grading when the first section has no date *)

(** C9: when the first section of the syllabus has no release date, the
    default mode drops it: the chapters are those of the other sections,
    counted from 1, and none is named [sec_00]. A run of the converter
    that succeeds returns the parsed skeleton with one chapter element
    added for each of these chapters, under its own identifier, which is
    not [sec_00], holding one sequential for each of its subsections,
    under its identifier, and every one of them has [graded] "true". *)
Theorem undated_first_section_all_graded
    E mooc cf w cell w1 first rest :
  let content_folder := default mooc cf in
  load_raw_syllabus E (path_join E content_folder "syllabus.ipynb") w
    = (inr cell, w1) →
  parse_lines E (Str.split_lines (source cell)) [] = inr (first :: rest) →
  release_dates E !! entry_name first = None →
  parse_syllabus E (path_join E content_folder "syllabus.ipynb")
    content_folder false w
  = (inr (make_chapters content_folder false 1 rest), w1)
  ∧ Forall (λ ch, ch_url ch ≠ "sec_00")
      (make_chapters content_folder false 1 rest)
  ∧ ∀ root w',
      converter E mooc cf w = (inr root, w') →
      ∃ course_text skeleton chapters,
        course_xml E = Some course_text
        ∧ fromstring E course_text = Some skeleton
        ∧ tag root = tag skeleton
        ∧ children root = children skeleton ++ chapters
        ∧ Forall2 (λ ch el,
            tag el = "chapter"
            ∧ attrib el !! "url_name" = Some (ch_url ch)
            ∧ attrib el !! "url_name" ≠ Some "sec_00"
            ∧ Forall2 (λ sq sel,
                tag sel = "sequential"
                ∧ attrib sel !! "url_name" = Some (seq_url sq)
                ∧ attrib sel !! "graded" = Some "true")
                (ch_sequentials ch) (children el))
            (make_chapters content_folder false 1 rest) chapters.
Proof.
  intros content_folder Hload Hparse Hdate.
  pose proof (parse_syllabus_run E _ content_folder false _ _ _ _ Hload Hparse)
    as Hrun.
  destruct (parse_lines_entries E _ _ _ Hparse) as [_ Hdates].
  specialize (Hdates (Forall_nil_2 _)).
  apply Forall_cons in Hdates as [Hfirst _].
  assert (Hdrop : make_chapters content_folder false 0 (first :: rest)
                  = make_chapters content_folder false 1 rest).
  { cbn [make_chapters negb andb]. rewrite bool_decide_true //. congruence. }
  rewrite Hdrop in Hrun.
  assert (Hurls : Forall (λ ch, ch_url ch ≠ "sec_00")
                    (make_chapters content_folder false 1 rest)).
  { eapply Forall_impl; [apply make_chapters_urls|].
    intros ch (k & Hk & ->) Hz%sec_url_zero. lia. }
  split; [done|]. split; [done|].
  intros root w' (data & w1' & txt & sk & chs & w2 & Hdata & Htxt & Hsk & Hb & ->)
    %converter_inr.
  fold content_folder in Hdata. rewrite Hrun in Hdata.
  injection Hdata as <- <-.
  exists txt, sk, chs. do 4 (split; [done|]).
  apply build_chapters_inr in Hb.
  apply Forall2_same_length_lookup. split; [by eapply Forall2_length|].
  intros k ch el Hch Hel.
  destruct (Forall2_lookup_l _ _ _ _ _ Hb Hch) as (el' & Hel' & Htag & Hurl & Hsq).
  assert (el' = el) as -> by congruence.
  assert (Hne : ch_url ch ≠ "sec_00").
  { eapply Forall_lookup_1 in Hurls; [exact Hurls|exact Hch]. }
  split; [done|]. split; [done|]. split; [congruence|].
  eapply Forall2_impl; [exact Hsq|].
  intros sq sel [Hstag Hattr]. split; [done|].
  rewrite Hattr sequential_attrib_url_name sequential_attrib_graded.
  split; [done|]. by rewrite decide_False.
Qed.

Lemma undated_first_section_all_graded_witness :
  ∃ root w' chapters,
    converter Sample.course "." (Some "course") Sample.empty_world
      = (inr root, w')
    ∧ children root = [] ++ chapters
    ∧ (λ ch, (attrib ch !! "url_name",
              (λ sq, attrib sq !! "graded") <$> children ch)) <$> chapters
      = [(Some "sec_01", [Some "true"; Some "true"])].
Proof.
  destruct (converter Sample.course "." (Some "course") Sample.empty_world)
    as [[e|root] w'] eqn:Hrun; [vm_compute in Hrun; discriminate Hrun|].
  destruct (undated_first_section_all_graded Sample.course "." (Some "course")
    Sample.empty_world
    (Sample.md (Sample.unlines
                 [""; "";
                  "* **Introduction**";
                  "  * [Welcome](w0/intro.ipynb)";
                  "* **Week 1**";
                  "  * [Topology](w1/topology.ipynb)";
                  "  * [Assignments](w1/assignments.ipynb)" ]))
    (snd (load_raw_syllabus Sample.course "course/syllabus.ipynb"
            Sample.empty_world))
    (Entry "Introduction" None [("Welcome", "w0/intro.ipynb")])
    [Entry "Week 1" (Some "3 Sep 2018")
       [("Topology", "w1/topology.ipynb");
        ("Assignments", "w1/assignments.ipynb")]]
    eq_refl eq_refl eq_refl) as (_ & _ & H).
  destruct (H root w' Hrun) as (txt & sk & chs & Htxt & Hsk & _ & Hch & Hall).
  injection Htxt as <-. vm_compute in Hsk. injection Hsk as <-.
  exists root, w', chs. split; [reflexivity|]. split; [exact Hch|].
  cbv zeta in Hall. cbn [default make_chapters negb andb] in Hall.
  apply Forall2_cons_inv_l in Hall as (el & chs' & Hel & Hnil & ->).
  apply Forall2_nil_inv_l in Hnil as ->.
  destruct Hel as (_ & Hurl & _ & Hsq).
  apply Forall2_cons_inv_l in Hsq as (s1 & r1 & (_ & _ & Hg1) & Hsq & Hc).
  apply Forall2_cons_inv_l in Hsq as (s2 & r2 & (_ & _ & Hg2) & Hsq & ->).
  apply Forall2_nil_inv_l in Hsq as ->.
  cbn [fmap list_fmap]. rewrite Hc. cbn [fmap list_fmap].
  rewrite Hurl Hg1 Hg2. reflexivity.
Defined.

(** ** What the compilation does to the blocks *)

(** The blocks of a readable document are put in the store as the reader
    returned them, after the cells that were there. *)
Lemma split_into_units_store E file ih cs w r w' :
  read_cells E file = Some cs →
  split_into_units E file ih w = (r, w') →
  ∃ new, heap w' = heap w ++ cs ++ new.
Proof.
  intros Hread. unfold split_into_units.
  rewrite (bind_run _ _ _ _ _ (nbformat_read_run E _ _ w Hread)).
  intros H.
  assert (Hext : extends {| heap := heap w ++ cs; trace := trace w |} w').
  { revert H. apply bind_extends; [apply split_cells_extends|].
    intros cells w3 r3 w4 ->%collect_units_world. apply extends_refl. }
  destruct Hext as [_ [new Hnew]]. exists new. by rewrite Hnew /= -assoc.
Qed.

(** C8, as the code has it: unit splitting writes nothing and changes no
    cell, and the blocks of the document it reads are in the store after
    it, as the reader returned them; converting a unit never changes the
    kind, the outputs or the metadata of a cell, changes no cell that is
    not markdown and no cell outside the unit, and, when it succeeds,
    leaves every markdown block of the unit with its source rewritten by
    the equation-delimiter substitution, which is the same text when the
    source has no backslash. *)
Theorem blocks_change_only_by_equation_rewrite E :
  (∀ file ih w r w',
     split_into_units E file ih w = (r, w') →
     trace w' = trace w
     ∧ (∀ l c, heap w !! l = Some c → heap w' !! l = Some c)
     ∧ (∀ cs, read_cells E file = Some cs →
              ∃ new, heap w' = heap w ++ cs ++ new))
  ∧ (∀ unit w r w' l c,
       convert_unit E unit w = (r, w') → heap w !! l = Some c →
       ∃ c', heap w' !! l = Some c'
             ∧ cell_type c' = cell_type c
             ∧ outputs c' = outputs c
             ∧ metadata c' = metadata c
             ∧ (cell_type c ≠ "markdown" ∨ l ∉ nb_cells unit → c' = c))
  ∧ (∀ unit w out w' l c,
       convert_unit E unit w = (inr out, w') →
       l ∈ nb_cells unit → heap w !! l = Some c → cell_type c = "markdown" →
       heap w' !! l = Some (set_source c (sub_equation (source c)))
       ∧ (free_of "\" (source c) → heap w' !! l = Some c)).
Proof.
  split; [|split].
  - intros file ih w r w' H.
    pose proof (split_into_units_extends _ _ _ _ _ _ H) as Hext.
    split; [by destruct Hext|]. split.
    + intros l c Hl. by eapply extends_lookup.
    + intros cs Hread. by eapply split_into_units_store.
  - intros unit w r w' l c H Hl.
    apply convert_cells_evolves in H as (_ & _ & H). by apply H.
  - intros unit w out w' l c H Hin Hl Hmd.
    apply convert_cells_rewritten in H as (_ & _ & H).
    specialize (H l c Hl). rewrite decide_True // in H.
    rewrite /equation_cell decide_True // in H.
    split; [done|]. intros Hfree. rewrite H sub_equation_free //.
    by destruct c.
Qed.

Lemma blocks_change_only_by_equation_rewrite_witness :
  let w := {| heap := [Sample.md "plain text"]; trace := [] |} in
  heap (convert_unit Sample.course
          {| nb_name := "U"; nb_cells := [0; 0] |} w).2
    !! 0 = Some (Sample.md "plain text").
Proof.
  intros w.
  destruct (convert_unit Sample.course
              {| nb_name := "U"; nb_cells := [0; 0] |} w)
    as [[e|out] w'] eqn:H; [vm_compute in H; discriminate H|].
  destruct (blocks_change_only_by_equation_rewrite Sample.course)
    as (_ & _ & Hexact).
  eapply (Hexact _ w out w' 0 (Sample.md "plain text") H).
  - by left.
  - reflexivity.
  - reflexivity.
  - vm_compute. repeat split; discriminate.
Defined.

(** C8 as stated fails: rendering a unit overwrites the source of a
    prose block that contains an equation environment. *)
Lemma convert_unit_rewrites_source_counterexample :
  let w := {| heap := [Sample.md "\begin{equation}x\end{equation}"];
              trace := [] |} in
  source <$> heap w = ["\begin{equation}x\end{equation}"]
  ∧ source <$> heap (convert_unit Sample.course
                       {| nb_name := "U"; nb_cells := [0] |} w).2
    = ["\[x\]"].
Proof. split; reflexivity. Qed.

(** ** Runs and their reading without the store *)




















Section Reading.

Context (E : env).

(** *** The classifier *)




(** *** The builder *)










(** *** The syllabus *)



(** *** The whole run *)


End Reading.

(** ** Identifiers *)









Section PlainIdentifiers.

Context (E : env).















End PlainIdentifiers.



